(** * Federated training coordinator ([examples/mnist/main_nn.py])

    A shallow embedding of [train] and [train_federated]: the coordinator that
    creates one edge device per dataset class, and then, round after round,
    draws a quorum of devices, sends them the current model, collects their
    results and averages them, before terminating every device.

    The coordinator is sequential Python; the devices are separate processes
    that talk to it over duplex pipes.  The embedding threads an explicit
    [World] (pipes, processes, the generators of numpy and torch, the record of
    what was done) through a small state-and-exception monad.  The activity of
    the device processes is driven by a schedule carried by the world. *)

From Stdlib Require Import ZArith QArith Lia.
From stdpp Require Import base option list sets strings.

Local Open Scope Z_scope.
Local Open Scope nat_scope.

(** ** Python dictionaries

    A [dict] keeps its keys in insertion order, and assigning to a key that is
    present replaces the value where it stands.  The order is what
    [.items()] and [.values()] iterate in, so it is kept. *)

Module Dict.
Section Dict.
Context {K V : Type} `{EqDecision K}.

Fixpoint get (k : K) (d : list (K * V)) : option V :=
  match d with
  | [] => None
  | (k', v) :: d' => if decide (k = k') then Some v else get k d'
  end.

Fixpoint set (k : K) (v : V) (d : list (K * V)) : list (K * V) :=
  match d with
  | [] => [(k, v)]
  | (k', v') :: d' =>
      if decide (k = k') then (k', v) :: d' else (k', v') :: set k v d'
  end.

Definition keys (d : list (K * V)) : list K := d.*1.
Definition values (d : list (K * V)) : list V := d.*2.
Definition len (d : list (K * V)) : nat := length d.
End Dict.
End Dict.

(** ** Exceptions the coordinator can die of *)

Inductive Exn : Type :=
| ValueError (msg : string)
| KeyError
| IndexError
| ZeroDivisionError
| OverflowError
| AveragingError.

(** ** Carriers

    The types that torch, torchvision and numpy supply: model objects, Python
    floats, the samples of a dataset, and the states of the two random
    generators (numpy's global one and torch's). *)

Inductive Device : Type := cpu | cuda0.

Class Carriers : Type := {
  Model : Type;
  float : Type;
  Samples : Type;
  RngState : Type;
  TorchState : Type;
}.

Section Data.
Context `{Car : Carriers}.

(** [torchvision.datasets.CIFAR10], as far as it is read here. *)
Record CIFAR10 : Type := {
  classes : list string;
  class_to_idx : list (string * nat);
  samples : Samples;
}.

(** [utils.settings.Settings]. *)
Record Settings : Type := {
  num_global_epochs : Z;
  num_global_batch : Z;
  num_local_epochs : Z;
  num_local_batch : Z;
  learning_rate : float;
  iid : bool;
  seed : Z;
  device : Device;
}.

(** [fd.EdgeDeviceSettings]. *)
Record EdgeDeviceSettings : Type := {
  epochs : Z;
  batch_size : Z;
  ds_learning_rate : float;
  ds_device : Device;
}.

(** [fd.EdgeDeviceResult]. *)
Record EdgeDeviceResult : Type := {
  name : string;
  model : Model;
  loss : float;
}.

(** [fd.EdgeDeviceConnection]: the coordinator's end of the pipe and the
    process object, both by their number in the world. *)
Record EdgeDeviceConnection : Type := {
  handle : nat;
  process : nat;
}.

(** A duplex pipe is two queues.  The coordinator only ever sends models and
    the devices only ever send results, so each direction has its type. *)
Record Pipe : Type := {
  to_device : list Model;
  to_server : list EdgeDeviceResult;
}.

Inductive Status : Type :=
| Idle        (* constructed, not started *)
| Running     (* in its receive-train-send loop *)
| Signalled   (* [terminate()] was called: SIGTERM sent, not yet delivered *)
| Stopped.    (* exited *)

(** Modelled from the spec: [fd.EdgeDevice], the process class of
    [models/federated.py], which is not part of the sources at hand.  The
    fields are the arguments [train_federated] constructs it with, and the
    state of its process. *)
Record EdgeDevice : Type := {
  dev_name : string;
  dev_handle : nat;
  dev_dataset : CIFAR10;
  dev_settings : EdgeDeviceSettings;
  dev_status : Status;
}.

(** What the coordinator does, in the order it does it, together with what
    the devices send. *)
Inductive Event : Type :=
| EvPipe (h : nat)
| EvStart (pid : nat)
| EvChoice (ids : list nat)
| EvPrintSending (cls : string)
| EvSend (h : nat) (m : Model)
| EvDeviceSend (pid : nat) (r : EdgeDeviceResult)
| EvRecv (h : nat) (r : EdgeDeviceResult)
| EvPrintReceiving (cls : string)
| EvAveraging (ms : list Model)
| EvPrintRound (i_epoch : nat) (loss_avg : float)
| EvPrintTerminating (cls : string)
| EvTerminate (pid : nat).

(** The world outside the coordinator's local variables. *)
Record World : Type := {
  pipes : list Pipe;
  processes : list EdgeDevice;
  np_random : RngState;
  torch_random : TorchState;
  scheduler : list (list nat);
  trace : list Event;
}.

Definition set_pipes (f : list Pipe -> list Pipe) (w : World) : World :=
  {| pipes := f (pipes w); processes := processes w;
     np_random := np_random w; torch_random := torch_random w;
     scheduler := scheduler w; trace := trace w |}.

Definition set_processes (f : list EdgeDevice -> list EdgeDevice) (w : World)
  : World :=
  {| pipes := pipes w; processes := f (processes w);
     np_random := np_random w; torch_random := torch_random w;
     scheduler := scheduler w; trace := trace w |}.

Definition set_np_random (s : RngState) (w : World) : World :=
  {| pipes := pipes w; processes := processes w;
     np_random := s; torch_random := torch_random w;
     scheduler := scheduler w; trace := trace w |}.

Definition set_torch_random (s : TorchState) (w : World) : World :=
  {| pipes := pipes w; processes := processes w;
     np_random := np_random w; torch_random := s;
     scheduler := scheduler w; trace := trace w |}.

Definition set_scheduler (s : list (list nat)) (w : World) : World :=
  {| pipes := pipes w; processes := processes w;
     np_random := np_random w; torch_random := torch_random w;
     scheduler := s; trace := trace w |}.

Definition log (e : Event) (w : World) : World :=
  {| pipes := pipes w; processes := processes w;
     np_random := np_random w; torch_random := torch_random w;
     scheduler := scheduler w; trace := trace w ++ [e] |}.

Definition set_status (st : Status) (d : EdgeDevice) : EdgeDevice :=
  {| dev_name := dev_name d; dev_handle := dev_handle d;
     dev_dataset := dev_dataset d; dev_settings := dev_settings d;
     dev_status := st |}.

(** ** The coordinator's monad: state, exceptions, and blocking forever *)

Inductive Outcome (A : Type) : Type :=
| Returned (a : A) (w : World)
| Raised (e : Exn) (w : World)
| Blocked (w : World).
#[global] Arguments Returned {A} a w.
#[global] Arguments Raised {A} e w.
#[global] Arguments Blocked {A} w.

Definition M (A : Type) : Type := World -> Outcome A.

Definition ret {A} (a : A) : M A := fun w => Returned a w.

Definition bind {A B} (m : M A) (k : A -> M B) : M B :=
  fun w =>
    match m w with
    | Returned a w' => k a w'
    | Raised e w' => Raised e w'
    | Blocked w' => Blocked w'
    end.

Definition raise {A} (e : Exn) : M A := fun w => Raised e w.
Definition block {A} : M A := fun w => Blocked w.
Definition emit (e : Event) : M unit := fun w => Returned tt (log e w).

(** A lookup that raises when the key or index is missing. *)
Definition lookup_or {A} (e : Exn) (o : option A) : M A :=
  match o with
  | Some a => ret a
  | None => raise e
  end.

End Data.

Declare Scope coord_scope.
Delimit Scope coord_scope with coord.
Notation "'let*' x ':=' m 'in' k" := (bind m (fun x => k))
  (at level 10, x pattern, m at level 100, k at level 200) : coord_scope.
Notation "m ';;' k" := (bind m (fun _ => k))
  (at level 100, k at level 200, right associativity) : coord_scope.
Local Open Scope coord_scope.

(** ** Collaborators

    What [main_nn.py] imports and only uses: floats, the averaging and the
    trainer of [models.federated], the dataset splits of [utils.data], the
    constant of [utils.constants], and the bounded integer source under
    numpy's legacy generator. *)

Class External `{Car : Carriers} : Type := {
  (** [+] and [/] on Python floats, and the float of an [int]. *)
  float_of_Z : Z -> float;
  float_add : float -> float -> float;
  float_div : float -> float -> float;
  (** [fd.federated_averaging]; [None] when it raises. *)
  federated_averaging : list Model -> option Model;
  (** The local training of one device on its own partition: the new model
      and the loss it reports. *)
  local_train : EdgeDeviceSettings -> CIFAR10 -> Model -> Model * float;
  (** [data.split_dataset_iid] and [data.split_dataset_non_iid]. *)
  split_dataset_iid : CIFAR10 -> nat -> list CIFAR10;
  split_dataset_non_iid : CIFAR10 -> list CIFAR10;
  (** [constants.MAX_USERS_IN_ROUND]. *)
  MAX_USERS_IN_ROUND : Z;
  (** numpy's [rk_interval max state]: an integer between [0] and [max],
      both included. *)
  random_interval : nat -> RngState -> nat * RngState;
  (** [torch.manual_seed] and the initial weights of [CNNCifar10()]. *)
  torch_seed : Z -> TorchState;
  CNNCifar10 : TorchState -> Model * TorchState;
}.

(** What the proofs rely on: the splits give one partition per class. *)
Class ExternalLaws `{Ext : External} : Prop := {
  split_dataset_iid_length : forall d n, length (split_dataset_iid d n) = n;
  split_dataset_non_iid_length :
    forall d, length (split_dataset_non_iid d) = length (classes d);
}.

Section Coordinator.
Context `{Ext : External}.

(** ** Loops *)

(** [for a in l: body], with the variables the body assigns threaded as [s]. *)
Fixpoint for_each {A S : Type} (l : list A) (body : A -> S -> M S) (s : S)
  : M S :=
  match l with
  | [] => ret s
  | a :: l' => let* s' := body a s in for_each l' body s'
  end.

(** ** numpy: [np.random.choice(range(n), size, replace=False)]

    As [RandomState.choice] of numpy 1.17 and later does it on the global
    generator: after its checks on the sizes it takes the first [size]
    entries of [permutation(n)], which shuffles [arange(n)] from the last
    index down:
    [for i in reversed(range(1, n)): j = rk_interval(i); x[i], x[j] = x[j], x[i]].

    Before it compares the size with the population, numpy turns it into a
    C integer of 64 bits, [np.prod(size, dtype=np.intp)]. *)

(** [np.prod(size, dtype=np.intp)] for a Python integer: a size from [2^63]
    up to [2^64 - 1] passes through an unsigned integer and comes out
    negative; one that no integer of 64 bits holds makes the conversion
    raise [OverflowError], which is [None] here. *)
Definition intp (size : Z) : option Z :=
  if decide (size < - 2 ^ 63 \/ 2 ^ 64 <= size)%Z then None
  else if decide (2 ^ 63 <= size)%Z then Some (size - 2 ^ 64)%Z
  else Some size.

(** [x[i], x[j] = x[j], x[i]]; [rk_interval] keeps [j] at or below [i], so
    both indices are in range whenever the shuffle swaps. *)
Definition swap (i j : nat) (x : list nat) : list nat :=
  match x !! i, x !! j with
  | Some a, Some b => <[j := a]> (<[i := b]> x)
  | _, _ => x
  end.

Fixpoint shuffle_from (i : nat) (x : list nat) (s : RngState)
  : list nat * RngState :=
  match i with
  | 0 => (x, s)
  | S i' =>
      let '(j, s') := random_interval i s in
      shuffle_from i' (swap i j x) s'
  end.

Definition shuffle (x : list nat) (s : RngState) : list nat * RngState :=
  shuffle_from (length x - 1) x s.

Definition permutation (n : nat) (s : RngState) : list nat * RngState :=
  shuffle (seq 0 n) s.

(** A size within the population is a C integer as it stands, since a
    population, a Python sequence, has fewer than [2^63] members; any other
    size is rejected, after its conversion. *)
Definition np_random_choice (pop_size : nat) (size : Z) : M (list nat) :=
  fun w =>
    if decide (pop_size = 0 /\ size <> 0%Z) then
      Raised (ValueError "'a' cannot be empty unless no samples are taken") w
    else if decide (0 <= size <= Z.of_nat pop_size)%Z then
      let '(idx, s') := permutation pop_size (np_random w) in
      let ids := take (Z.to_nat size) idx in
      Returned ids (log (EvChoice ids) (set_np_random s' w))
    else
      match intp size with
      | None => Raised OverflowError w
      | Some size' =>
          if decide (Z.of_nat pop_size < size')%Z then
            Raised (ValueError
              "Cannot take a larger sample than population when 'replace=False'")
              w
          else Raised (ValueError "Negative dimensions are not allowed") w
      end.

(** ** multiprocessing: pipes and processes *)

Definition empty_pipe : Pipe := {| to_device := []; to_server := [] |}.

(** [Pipe(duplex=True)]: a new pipe; both ends go by its number. *)
Definition Pipe_duplex : M (nat * nat) :=
  fun w =>
    let h := length (pipes w) in
    Returned (h, h) (log (EvPipe h) (set_pipes (fun ps => ps ++ [empty_pipe]) w)).

(** [fd.EdgeDevice(name=..., handle=..., dataset=..., settings=...)]: a new
    process object, not started. *)
Definition new_EdgeDevice (name : string) (handle : nat) (dataset : CIFAR10)
    (settings : EdgeDeviceSettings) : M nat :=
  fun w =>
    let pid := length (processes w) in
    let d := {| dev_name := name; dev_handle := handle; dev_dataset := dataset;
                dev_settings := settings; dev_status := Idle |} in
    Returned pid (set_processes (fun ds => ds ++ [d]) w).

(** [device.start()]. *)
Definition start (pid : nat) : M unit :=
  fun w =>
    let go d := match dev_status d with Idle => set_status Running d | _ => d end in
    Returned tt (log (EvStart pid) (set_processes (alter go pid) w)).

(** [process.terminate()]: sends SIGTERM and returns at once; it does not wait
    for the process to exit. *)
Definition terminate (pid : nat) : M unit :=
  fun w =>
    let go d :=
      match dev_status d with Running => set_status Signalled d | _ => d end in
    Returned tt (log (EvTerminate pid) (set_processes (alter go pid) w)).

(** [handle.send(model)] on the coordinator's end.  The model is put on the
    pipe and [send] returns: the pickled model is taken to fit the buffer
    of the pipe, or the device to be reading.  (A [send] of more than the
    buffer holds waits for the device to read; towards a device that never
    reads it would not return.) *)
Definition send (h : nat) (m : Model) : M unit :=
  fun w =>
    let put p := {| to_device := to_device p ++ [m]; to_server := to_server p |} in
    Returned tt (log (EvSend h m) (set_pipes (alter put h) w)).

(** [handle.recv()] on the coordinator's end; blocks on an empty queue. *)
Definition recv (h : nat) : M EdgeDeviceResult :=
  fun w =>
    match pipes w !! h with
    | Some p =>
        match to_server p with
        | r :: q =>
            let p' := {| to_device := to_device p; to_server := q |} in
            Returned r (log (EvRecv h r) (set_pipes (<[h := p']>) w))
        | [] => Blocked w
        end
    | None => Blocked w
    end.

(** Modelled from the spec: one turn of the loop of [fd.EdgeDevice.run],
    which is not part of the sources at hand.  A running device that finds a
    model on its end of the pipe trains on its own partition and sends back
    one result carrying its own name; with nothing to read it stays blocked
    in its receive.  A signalled process exits when it is next scheduled. *)
Definition device_step (pid : nat) (w : World) : World :=
  match processes w !! pid with
  | Some d =>
      match dev_status d with
      | Running =>
          match pipes w !! dev_handle d with
          | Some p =>
              match to_device p with
              | m :: q =>
                  let '(m', l) := local_train (dev_settings d) (dev_dataset d) m in
                  let r := {| name := dev_name d; model := m'; loss := l |} in
                  let p' := {| to_device := q; to_server := to_server p ++ [r] |} in
                  log (EvDeviceSend pid r)
                      (set_pipes (<[dev_handle d := p']>) w)
              | [] => w
              end
          | None => w
          end
      | Signalled => set_processes (alter (set_status Stopped) pid) w
      | _ => w
      end
  | None => w
  end.

Definition run_burst (burst : list nat) (w : World) : World :=
  foldl (fun w pid => device_step pid w) w burst.

Definition readable (w : World) (h : nat) : bool :=
  match pipes w !! h with
  | Some p => match to_server p with [] => false | _ :: _ => true end
  | None => false
  end.

(** [wait(handles)], one burst of it.  While the coordinator is blocked in
    [wait] the devices run; the schedule of the world says in which bursts.
    After a burst, [wait] answers with the handles that are readable.  An
    empty answer stands for a [wait] that has not returned yet: the loop
    around it receives nothing, finds its test unchanged and is back in
    [wait] for the next burst.  When the schedule is exhausted the devices
    stay silent and [wait] never returns. *)
Definition wait (handles : list nat) : M (list nat) :=
  fun w =>
    match scheduler w with
    | [] => Blocked w
    | burst :: rest =>
        let w' := run_burst burst (set_scheduler rest w) in
        Returned (filter (fun h => readable w' h = true) handles) w'
    end.

(** ** [train_federated] *)

(** [{v: k for k, v in class_to_idx.items()}] *)
Definition invert (class_to_idx : list (string * nat)) : list (nat * string) :=
  foldl (fun d kv => Dict.set (snd kv) (fst kv) d) [] class_to_idx.

(** Lines 79-89: one pipe and one started device per class. *)
Definition create_devices (dataset : CIFAR10) (subsets : list CIFAR10)
    (settings_edge_device : EdgeDeviceSettings)
  : M (list (nat * EdgeDeviceConnection)) :=
  for_each (classes dataset)
    (fun device_name device_connections =>
       let* device_id :=
         lookup_or KeyError (Dict.get device_name (class_to_idx dataset)) in
       let* (handle_server, handle_device) := Pipe_duplex in
       let* subset := lookup_or IndexError (subsets !! device_id) in
       let* device :=
         new_EdgeDevice device_name handle_server subset settings_edge_device in
       let device_connections :=
         Dict.set device_id {| handle := handle_device; process := device |}
                  device_connections in
       start device ;;
       ret device_connections)
    [].

(** Lines 95-99: the draw, and the connections of the round. *)
Definition select_round (num_users : nat)
    (device_connections : list (nat * EdgeDeviceConnection))
  : M (list (nat * EdgeDeviceConnection)) :=
  let* users_in_round_ids := np_random_choice num_users MAX_USERS_IN_ROUND in
  for_each users_in_round_ids
    (fun i d =>
       let* c := lookup_or KeyError (Dict.get i device_connections) in
       ret (Dict.set i c d))
    [].

(** Lines 101-103. *)
Definition dispatch (idx_to_class : list (nat * string))
    (device_connections_in_round : list (nat * EdgeDeviceConnection))
    (model : Model) : M unit :=
  for_each device_connections_in_round
    (fun kv _ =>
       let* cls := lookup_or KeyError (Dict.get (fst kv) idx_to_class) in
       emit (EvPrintSending cls) ;;
       send (handle (snd kv)) model)
    tt.

(** Lines 109-115: [for handle in wait(handles): ...], given what [wait]
    answered. *)
Definition receive (class_to_idx : list (string * nat)) (ready : list nat)
    (locals : list (nat * Model) * list (nat * float))
  : M (list (nat * Model) * list (nat * float)) :=
  for_each ready
    (fun h locals =>
       let* device_result := recv h in
       emit (EvPrintReceiving (name device_result)) ;;
       let* device_id :=
         lookup_or KeyError (Dict.get (name device_result) class_to_idx) in
       ret (Dict.set device_id (model device_result) (fst locals),
            Dict.set device_id (loss device_result) (snd locals)))
    locals.

(** Lines 107-115: the [while] loop.  Each turn takes one burst of the
    schedule, so the loop is by recursion on the schedule; [clock] is the
    schedule of the world the loop is entered in. *)
Fixpoint collect_loop (clock : list (list nat))
    (class_to_idx : list (string * nat))
    (device_connections_in_round : list (nat * EdgeDeviceConnection))
    (locals : list (nat * Model) * list (nat * float))
  : M (list (nat * Model) * list (nat * float)) :=
  if decide (Dict.len (snd locals) = Dict.len device_connections_in_round)
  then ret locals
  else
    match clock with
    | [] => block
    | _ :: clock' =>
        let handles := handle <$> Dict.values device_connections_in_round in
        let* ready := wait handles in
        let* locals' := receive class_to_idx ready locals in
        collect_loop clock' class_to_idx device_connections_in_round locals'
    end.

Definition collect (class_to_idx : list (string * nat))
    (device_connections_in_round : list (nat * EdgeDeviceConnection))
    (locals : list (nat * Model) * list (nat * float))
  : M (list (nat * Model) * list (nat * float)) :=
  fun w =>
    collect_loop (scheduler w) class_to_idx device_connections_in_round locals w.

(** [sum(l)] starts from the integer [0] and adds the items from left to
    right, one [+] each (from Python 3.12 on, [sum] rounds a list of floats
    differently, with a running compensation). *)
Definition sum (l : list float) : float := foldl float_add (float_of_Z 0) l.

(** Lines 92-121: the body of the loop over the global epochs; it gives the
    value [model] is rebound to. *)
Definition round (dataset : CIFAR10) (idx_to_class : list (nat * string))
    (device_connections : list (nat * EdgeDeviceConnection))
    (i_epoch : nat) (model : Model) : M Model :=
  let num_users := length (classes dataset) in
  let local_models : list (nat * Model) := [] in
  let local_losses : list (nat * float) := [] in
  let* device_connections_in_round := select_round num_users device_connections in
  dispatch idx_to_class device_connections_in_round model ;;
  let* (local_models, local_losses) :=
    collect (class_to_idx dataset) device_connections_in_round
            (local_models, local_losses) in
  emit (EvAveraging (Dict.values local_models)) ;;
  let* model :=
    lookup_or AveragingError (federated_averaging (Dict.values local_models)) in
  let* loss_avg :=
    (if decide (Dict.len local_losses = 0) then raise ZeroDivisionError
     else ret (float_div (sum (Dict.values local_losses))
                         (float_of_Z (Z.of_nat (Dict.len local_losses))))) in
  emit (EvPrintRound i_epoch loss_avg) ;;
  ret model.

(** Lines 123-125. *)
Definition terminate_all (idx_to_class : list (nat * string))
    (device_connections : list (nat * EdgeDeviceConnection)) : M unit :=
  for_each device_connections
    (fun kv _ =>
       let* cls := lookup_or KeyError (Dict.get (fst kv) idx_to_class) in
       emit (EvPrintTerminating cls) ;;
       terminate (process (snd kv)))
    tt.

Definition edge_settings (settings : Settings) : EdgeDeviceSettings :=
  {| epochs := num_local_epochs settings;
     batch_size := num_local_batch settings;
     ds_learning_rate := learning_rate settings;
     ds_device := device settings |}.

Definition split (dataset : CIFAR10) (settings : Settings) : list CIFAR10 :=
  if iid settings then split_dataset_iid dataset (length (classes dataset))
  else split_dataset_non_iid dataset.

(** [range(n)] for a Python integer [n]: empty when [n] is not positive. *)
Definition range (n : Z) : list nat := seq 0 (Z.to_nat n).

Definition train_federated (model : Model) (dataset : CIFAR10)
    (settings : Settings) : M Model :=
  let idx_to_class := invert (class_to_idx dataset) in
  let settings_edge_device := edge_settings settings in
  let subsets := split dataset settings in
  let* device_connections :=
    create_devices dataset subsets settings_edge_device in
  let* model :=
    for_each (range (num_global_epochs settings))
      (fun i_epoch model =>
         round dataset idx_to_class device_connections i_epoch model)
      model in
  terminate_all idx_to_class device_connections ;;
  ret model.

(** ** [train] *)

Definition set_device (d : Device) (s : Settings) : Settings :=
  {| num_global_epochs := num_global_epochs s;
     num_global_batch := num_global_batch s;
     num_local_epochs := num_local_epochs s;
     num_local_batch := num_local_batch s;
     learning_rate := learning_rate s;
     iid := iid s; seed := seed s; device := d |}.

(** [torch.manual_seed(seed)]: seeds the generator of torch, and only that
    one. *)
Definition torch_manual_seed (seed : Z) : M unit :=
  fun w => Returned tt (set_torch_random (torch_seed seed) w).

(** [CNNCifar10()]: the initial weights come from the generator of torch. *)
Definition new_CNNCifar10 : M Model :=
  fun w =>
    let '(m, s') := CNNCifar10 (torch_random w) in
    Returned m (set_torch_random s' w).

(** [train()], given what [args_parser()], [torch.cuda.is_available()] and
    the loading of the dataset give.  It has no [return]: the model that
    [train_federated] returns is dropped, and [train] gives [None]. *)
Definition train (args : Settings) (cuda_is_available : bool)
    (dataset_train : CIFAR10) : M unit :=
  let settings := set_device (if cuda_is_available then cuda0 else cpu) args in
  torch_manual_seed (seed settings) ;;
  let* model := new_CNNCifar10 in
  train_federated model dataset_train settings ;;
  ret tt.

End Coordinator.

(** * Specification vocabulary *)

Section Vocabulary.
Context `{Ext : External}.

(** A dataset as torchvision builds it: the class names are distinct and
    [class_to_idx] is [{c: i for i, c in enumerate(classes)}]. *)
Definition wf_dataset (d : CIFAR10) : Prop :=
  NoDup (classes d) /\ class_to_idx d = imap (fun i c => (c, i)) (classes d).

(** A world in which nothing has been created yet. *)
Definition fresh (w : World) : Prop := pipes w = [] /\ processes w = [].

(** The roster [train_federated] builds for [n] classes in a fresh world:
    device [i] talks over pipe [i] and runs as process [i]. *)
Definition connection (i : nat) : EdgeDeviceConnection :=
  {| handle := i; process := i |}.

Definition roster (n : nat) : list (nat * EdgeDeviceConnection) :=
  (fun i => (i, connection i)) <$> seq 0 n.

Definition in_round_of (ids : list nat) : list (nat * EdgeDeviceConnection) :=
  (fun i => (i, connection i)) <$> ids.

(** The processes of that roster, all in state [st]. *)
Definition mk_device (es : EdgeDeviceSettings) (st : Status) (i : nat)
    (cs : string * CIFAR10) : EdgeDevice :=
  {| dev_name := cs.1; dev_handle := i; dev_dataset := cs.2;
     dev_settings := es; dev_status := st |}.

Definition devices_of (es : EdgeDeviceSettings) (st : Status)
    (cs : list string) (subsets : list CIFAR10) : list EdgeDevice :=
  imap (mk_device es st) (zip cs subsets).

Definition devices (d : CIFAR10) (s : Settings) (st : Status)
  : list EdgeDevice :=
  devices_of (edge_settings s) st (classes d) (split d s).

(** What a device answers to model [m]. *)
Definition trained (m : Model) (dev : EdgeDevice) : EdgeDeviceResult :=
  let '(m', l) := local_train (dev_settings dev) (dev_dataset dev) m in
  {| name := dev_name dev; model := m'; loss := l |}.

(** Where a pipe stands within a round. *)
Inductive Phase : Type := Empty | Pending | Done.

Definition advance (ph : Phase) : Phase :=
  match ph with Pending => Done | _ => ph end.

Definition pipe_of (m : Model) (dev : EdgeDevice) (ph : Phase) : Pipe :=
  match ph with
  | Empty => empty_pipe
  | Pending => {| to_device := [m]; to_server := [] |}
  | Done => {| to_device := []; to_server := [trained m dev] |}
  end.

(** The world between the steps of a round over the devices [devs]: every
    device is running, and pipe [i] is where [ph i] says. *)
Definition in_phase (devs : list EdgeDevice) (m : Model) (ph : nat -> Phase)
    (w : World) : Prop :=
  processes w = devs /\
  length (pipes w) = length devs /\
  forall i dev, devs !! i = Some dev -> pipes w !! i = Some (pipe_of m dev (ph i)).

(** Between rounds: every device running, every pipe empty. *)
Definition quiescent (d : CIFAR10) (s : Settings) (w : World) : Prop :=
  processes w = devices d s Running /\
  pipes w = replicate (length (classes d)) empty_pipe.

(** The events of the set-up and of the shut-down. *)
Definition setup_events (n : nat) : list Event :=
  i ← seq 0 n; [EvPipe i; EvStart i].

Definition shutdown_events (cs : list string) : list Event :=
  i ← seq 0 (length cs);
  match cs !! i with
  | Some c => [EvPrintTerminating c; EvTerminate i]
  | None => []
  end.

End Vocabulary.

Section RoundVocabulary.
Context `{Ext : External}.

(** The draw of a round from generator state [s]. *)
Definition draw (n : nat) (k : Z) (s : RngState) : list nat :=
  take (Z.to_nat k) (permutation n s).1.

(** The phases at a turn of the collecting loop: the selected devices whose
    result has not been received yet are pending. *)
Definition sel_phase (ids received : list nat) (i : nat) : Phase :=
  if decide (i ∈ ids /\ i ∉ received) then Pending else Empty.

(** The phases after the devices of a burst have run. *)
Definition after_burst (burst : list nat) (ph : nat -> Phase) (i : nat)
  : Phase :=
  if decide (i ∈ burst) then advance (ph i) else ph i.

(** What is printed and sent when the round's model goes to [ids]. *)
Definition dispatch_events (cs : list string) (m : Model) (ids : list nat)
  : list Event :=
  i ← ids;
  match cs !! i with
  | Some c => [EvPrintSending c; EvSend i m]
  | None => []
  end.

(** An event of the collecting loop of a round that sent [m] to [ids]:
    a selected device sends its result, or the coordinator receives one. *)
Definition collect_event (devs : list EdgeDevice) (m : Model)
    (ids : list nat) (e : Event) : Prop :=
  match e with
  | EvDeviceSend i r | EvRecv i r =>
      i ∈ ids /\ exists dev, devs !! i = Some dev /\ r = trained m dev
  | EvPrintReceiving c =>
      exists i dev, i ∈ ids /\ devs !! i = Some dev /\ c = dev_name dev
  | _ => False
  end.

(** The results received, with the handle each came in on, in order. *)
Definition received (evs : list Event) : list (nat * EdgeDeviceResult) :=
  omap (fun e => match e with EvRecv h r => Some (h, r) | _ => None end) evs.

(** The local dictionaries after the results [rs] have come in. *)
Definition models_of (rs : list (nat * EdgeDeviceResult))
  : list (nat * Model) := (fun ir => (ir.1, model ir.2)) <$> rs.

Definition losses_of (rs : list (nat * EdgeDeviceResult))
  : list (nat * float) := (fun ir => (ir.1, loss ir.2)) <$> rs.

(** The arithmetic mean of a list of losses, in Python's floats. *)
Definition mean (l : list float) : float :=
  float_div (foldl float_add (float_of_Z 0) l)
            (float_of_Z (Z.of_nat (length l))).

End RoundVocabulary.

Section RunVocabulary.
Context `{Ext : External}.

(** The models handed to the averaging and the losses averaged at the end
    of a round whose collecting loop did [coll]. *)
Definition averaged (coll : list Event) : list Model :=
  (fun ir => model ir.2) <$> received coll.

Definition reported_losses (coll : list Event) : list float :=
  (fun ir => loss ir.2) <$> received coll.

(** Everything a completed round does, in order: the draw, the dispatch, the
    collecting loop, the averaging, the report. *)
Definition round_events (cs : list string) (i_epoch : nat) (m : Model)
    (ids : list nat) (coll : list Event) : list Event :=
  EvChoice ids :: dispatch_events cs m ids ++ coll ++
  [EvAveraging (averaged coll);
   EvPrintRound i_epoch (mean (reported_losses coll))].

(** [used] is the shortest stretch of schedule in which every device of
    [ids] has run. *)
Definition first_covering (ids : list nat) (used : list (list nat)) : Prop :=
  (forall i, i ∈ ids -> i ∈ mjoin used) /\
  (forall u b, used = u ++ [b] -> exists i, i ∈ ids /\ i ∉ mjoin u).

(** [evs] is a complete round number [i_epoch] on model [m] that ends with
    model [m']. *)
Definition round_trace (d : CIFAR10) (s : Settings) (i_epoch : nat)
    (m m' : Model) (evs : list Event) : Prop :=
  exists ids coll,
    evs = round_events (classes d) i_epoch m ids coll /\
    NoDup ids /\ length ids = Z.to_nat MAX_USERS_IN_ROUND /\
    (forall i, i ∈ ids -> i < length (classes d)) /\
    Forall (collect_event (devices d s Running) m ids) coll /\
    (received coll).*1 ≡ₚ ids /\
    Forall (fun ir => exists dev, devices d s Running !! ir.1 = Some dev /\
                                  ir.2 = trained m dev) (received coll) /\
    federated_averaging (averaged coll) = Some m'.

(** [evs] is [r] complete rounds, numbered from [i], one after the other,
    each starting from the model the one before ended with. *)
Fixpoint rounds_trace (d : CIFAR10) (s : Settings) (i r : nat)
    (m m' : Model) (evs : list Event) : Prop :=
  match r with
  | 0 => m' = m /\ evs = []
  | S r' =>
      exists m1 evs1 evs2,
        evs = evs1 ++ evs2 /\
        round_trace d s i m m1 evs1 /\
        rounds_trace d s (S i) r' m1 m' evs2
  end.

(** A schedule under which [r] rounds over [n] devices all complete: it
    splits into [r] stretches in each of which every device runs. *)
Fixpoint fair (n r : nat) (sched : list (list nat)) : Prop :=
  match r with
  | 0 => True
  | S r' =>
      exists pre post,
        sched = pre ++ post /\
        (forall i, i < n -> i ∈ mjoin pre) /\
        fair n r' post
  end.

(** The draws of [r] rounds in a row over [n] devices, from numpy's
    generator in state [np]. *)
Fixpoint draws (n : nat) (k : Z) (r : nat) (np : RngState)
  : list (list nat) :=
  match r with
  | 0 => []
  | S r' => draw n k np :: draws n k r' (permutation n np).2
  end.

(** The draws recorded in a trace, in order. *)
Definition choices (evs : list Event) : list (list nat) :=
  omap (fun e => match e with EvChoice ids => Some ids | _ => None end) evs.

(** The averaging accepts every non-empty list of models. *)
Definition averaging_total : Prop :=
  forall ms, ms <> [] -> is_Some (federated_averaging ms).

End RunVocabulary.

Section OutcomeVocabulary.
Context `{Ext : External}.

(** The world a computation leaves behind, however it ends. *)
Definition outcome_world {A} (o : Outcome A) : World :=
  match o with
  | Returned _ w | Raised _ w | Blocked w => w
  end.

(** The results the devices [ids] produce from model [m]. *)
Definition answers (d : CIFAR10) (s : Settings) (m : Model) (ids : list nat)
  : list EdgeDeviceResult :=
  omap (fun i => trained m <$> devices d s Running !! i) ids.

(** Lines 95-115 of a round: the draw, the dispatch and the collecting loop;
    it gives [local_models] and [local_losses] as the loop leaves them. *)
Definition round_until_collected (d : CIFAR10)
    (device_connections : list (nat * EdgeDeviceConnection)) (m : Model)
  : M (list (nat * Model) * list (nat * float)) :=
  let* in_round := select_round (length (classes d)) device_connections in
  dispatch (invert (class_to_idx d)) in_round m ;;
  collect (class_to_idx d) in_round ([], []).

(** What follows the set-up in [train_federated], for a given roster. *)
Definition rounds_then_shutdown (d : CIFAR10) (s : Settings)
    (device_connections : list (nat * EdgeDeviceConnection)) (m : Model)
  : M Model :=
  let* model :=
    for_each (range (num_global_epochs s))
      (fun i_epoch model =>
         round d (invert (class_to_idx d)) device_connections i_epoch model)
      m in
  terminate_all (invert (class_to_idx d)) device_connections ;;
  ret model.

End OutcomeVocabulary.

(** * A concrete instance

    Three classes, models and floats as rationals, a linear congruential
    generator under numpy; the quorum size is left open. *)

Module Demo.

#[export] Instance carriers : Carriers :=
  {| Model := Q; float := Q; Samples := list nat;
     RngState := Z; TorchState := Z |}.

Definition average (l : list Q) : Q :=
  Qred (foldl Qplus 0%Q l / inject_Z (Z.of_nat (length l))).

Definition lcg (s : Z) : Z := ((s * 1103515245 + 12345) mod 2147483648)%Z.

Definition part (d : CIFAR10) (i : nat) : CIFAR10 :=
  {| classes := classes d; class_to_idx := class_to_idx d;
     samples := seq 0 (S i) |}.

Definition external (k : Z) : External :=
  {| float_of_Z := inject_Z;
     float_add := fun a b => Qred (a + b);
     float_div := fun a b => Qred (a / b);
     federated_averaging :=
       fun ms => match ms with [] => None | _ => Some (average ms) end;
     local_train :=
       fun _ p m =>
         (Qred (m + inject_Z (Z.of_nat (length (samples p)))),
          Qred (1 / (1 + m * m)));
     split_dataset_iid := fun d n => part d <$> seq 0 n;
     split_dataset_non_iid := fun d => part d <$> seq 0 (length (classes d));
     MAX_USERS_IN_ROUND := k;
     random_interval :=
       fun max s =>
         (Z.to_nat ((lcg s / 65536) mod (Z.of_nat max + 1)), lcg s);
     torch_seed := fun z => z;
     CNNCifar10 := fun s => (inject_Z s, (s + 1)%Z) |}.

(** The instance with a quorum of two. *)
Definition two : External := external 2.

Definition dataset : CIFAR10 :=
  {| classes := ["cat"; "dog"; "frog"];
     class_to_idx := [("cat", 0); ("dog", 1); ("frog", 2)];
     samples := seq 0 6 |}.

Definition settings (global_epochs : Z) : Settings :=
  {| num_global_epochs := global_epochs; num_global_batch := 4;
     num_local_epochs := 1; num_local_batch := 2;
     learning_rate := (1 # 10)%Q; iid := false; seed := 7; device := cpu |}.

(** The world when the interpreter starts: nothing created, numpy's
    generator in the state [np] the operating system's entropy gave it. *)
Definition boot (np : Z) (sched : list (list nat)) : World :=
  {| pipes := []; processes := []; np_random := np; torch_random := 0%Z;
     scheduler := sched; trace := [] |}.

(** The world once the three devices run and wait for a model. *)
Definition ready (k : Z) (np : Z) (sched : list (list nat)) : World :=
  {| pipes := replicate 3 empty_pipe;
     processes := devices (Ext := external k) dataset (settings 2) Running;
     np_random := np; torch_random := 0%Z;
     scheduler := sched; trace := [] |}.

(** A schedule for two rounds: device 2 runs alone, then 0 and 1, then all. *)
Definition sched : list (list nat) := [[2]; [0; 1]; [1; 0; 2]].

End Demo.

(** * Further vocabulary: failures, and the result of a run *)

Section FailureVocabulary.
Context `{Ext : External}.

(** No process of the world has been sent its signal. *)
Definition unsignalled (w : World) : Prop :=
  Forall (fun dev => dev_status dev <> Signalled) (processes w).

(** An event other than a call of [terminate()]. *)
Definition not_terminate (e : Event) : Prop :=
  match e with EvTerminate _ => False | _ => True end.

(** A computation that, started in a world where no process has been
    signalled, leaves the process table as it found it and calls
    [terminate()] on no process, however it ends. *)
Definition keeps_processes {A} (m : M A) : Prop :=
  forall w, unsignalled w ->
    processes (outcome_world (m w)) = processes w /\
    exists evs, trace (outcome_world (m w)) = trace w ++ evs /\
                Forall not_terminate evs.

(** The world after the set-up over a dataset of [n] classes, started in
    [w]: [n] empty pipes, [n] running devices. *)
Definition after_setup (d : CIFAR10) (s : Settings) (w : World) : World :=
  {| pipes := replicate (length (classes d)) empty_pipe;
     processes := devices d s Running;
     np_random := np_random w; torch_random := torch_random w;
     scheduler := scheduler w;
     trace := trace w ++ setup_events (length (classes d)) |}.

(** [{k: v}] turned round, entry by entry. *)
Definition flipped (class_to_idx : list (string * nat)) : list (nat * string) :=
  (fun kv => (kv.2, kv.1)) <$> class_to_idx.

End FailureVocabulary.

Section ResultVocabulary.
Context `{Ext : External}.

(** The averaging does not look at the order of the models it is given. *)
Definition order_insensitive : Prop :=
  forall ms ms', ms ≡ₚ ms' -> federated_averaging ms = federated_averaging ms'.

(** The model a round on [m] ends with, read off the draw alone: the
    average of the answers of the devices drawn from generator state [np],
    taken in the order of the draw. *)
Definition round_result (d : CIFAR10) (s : Settings) (m : Model)
    (np : RngState) : option Model :=
  federated_averaging
    (model <$> answers d s m (draw (length (classes d)) MAX_USERS_IN_ROUND np)).

(** The model [r] rounds in a row end with, from [m] and generator state
    [np]. *)
Fixpoint rounds_result (d : CIFAR10) (s : Settings) (r : nat) (m : Model)
    (np : RngState) : option Model :=
  match r with
  | 0 => Some m
  | S r' =>
      match round_result d s m np with
      | Some m1 =>
          rounds_result d s r' m1 (permutation (length (classes d)) np).2
      | None => None
      end
  end.

End ResultVocabulary.

(** ** A concrete instance whose split comes short

    As [Demo.two], but the split that is not iid gives two partitions for
    the three classes. *)

Module DemoFaulty.
Import Demo.

Definition short_split : External :=
  {| float_of_Z := float_of_Z (External := two);
     float_add := float_add (External := two);
     float_div := float_div (External := two);
     federated_averaging := federated_averaging (External := two);
     local_train := local_train (External := two);
     split_dataset_iid := split_dataset_iid (External := two);
     split_dataset_non_iid :=
       fun d => take 2 (split_dataset_non_iid (External := two) d);
     MAX_USERS_IN_ROUND := 2;
     random_interval := random_interval (External := two);
     torch_seed := torch_seed (External := two);
     CNNCifar10 := CNNCifar10 (External := two) |}.

End DemoFaulty.

(** * Centralised training and evaluation: [train_server] and [test]

    The two functions of [main_nn.py] that run in the coordinator's own
    process, with no device involved.  They loop over the batches of a
    [DataLoader] and print as they go; what they touch outside their local
    variables is torch's generator and the standard output, which make up
    the [Session] they are run in. *)

(** ** What they use of torch

    The operations are taken on tensors whose shapes agree, as they do for
    a network that gives one row of scores per input of the batch, and on
    a device that is there: what torch raises on a shape that does not fit
    or on a device that is missing is not represented. *)

Class Torch `{Ext : External} : Type := {
  (** A batch as a loader yields it, the pair [(data, target)]; the scores
      a network gives for the data of a batch; a [DataLoader] object. *)
  Batch : Type;
  Scores : Type;
  DataLoader : Type;
  (** [len(data)] and the labels in [target]. *)
  len_data : Batch -> nat;
  target : Batch -> list nat;
  (** [DataLoader(dataset, batch_size=..., shuffle=...)]: the loader, or
      the message of the [ValueError] its constructor raises. *)
  new_DataLoader : Samples -> Z -> bool -> string + DataLoader;
  (** [len(loader)], the number of batches, and [len(loader.dataset)]. *)
  len_loader : DataLoader -> nat;
  len_loader_dataset : DataLoader -> nat;
  (** One pass over a loader: the batches in the order it yields them.  A
      shuffling loader takes the order from torch's generator. *)
  iterate : DataLoader -> TorchState -> list Batch * TorchState;
  (** [optim.SGD(model.parameters(), lr=...)]: the message of the
      [ValueError] when the constructor raises.  Without momentum the
      optimizer has no state besides the parameters of the model. *)
  SGD_rejects : Model -> float -> option string;
  (** Lines 140-147 and [loss.item()]: one step of the optimizer at the
      given learning rate on one batch, moved to the given device, with the
      model in training mode.  It gives the model with its new weights and
      the loss of the batch. *)
  sgd_step : float -> Device -> Batch -> Model -> TorchState
             -> Model * float * TorchState;
  (** [net_g(data)] with the model in evaluation mode. *)
  forward : Model -> Batch -> TorchState -> Scores * TorchState;
  (** [functional.cross_entropy(log_probs, target).item()]. *)
  cross_entropy : Scores -> list nat -> float;
  (** [log_probs.data.max(1, keepdim=True)[1]]: the class with the highest
      score, for each row. *)
  argmax : Scores -> list nat;
  (** [*] on Python floats, and [100. * correct / n] as line 35 computes it
      for a count [correct]. *)
  float_mul : float -> float -> float;
  percent : nat -> nat -> float;
}.

(** What the proofs rely on: a pass over a loader yields [len(loader)]
    batches, and a shuffling loader is never empty (its sampler rejects a
    dataset without samples, its batch sampler a batch size that is not
    positive). *)
Class TorchLaws `{Tor : Torch} : Prop := {
  iterate_length : forall L g, length (iterate L g).1 = len_loader L;
  shuffling_nonempty :
    forall ds B L, new_DataLoader ds B true = inr L -> 0 < len_loader L;
}.

Section Learning.
Context `{Tor : Torch}.

(** ** Sessions *)

(** The lines the two functions print, by what they show. *)
Inductive Line : Type :=
| LineTest (test_loss : float) (correct : nat) (total : nat) (pct : float)
| LineTrainEpoch (i_epoch : nat) (seen : nat) (total : nat) (pct : float)
                 (loss : float)
| LineTrainLoss (loss_avg : float).

Record Session : Type := {
  generator : TorchState;
  stdout : list Line;
}.

Inductive Reply (A : Type) : Type :=
| Finished (a : A) (c : Session)
| Failed (e : Exn) (c : Session).
#[global] Arguments Finished {A} a c.
#[global] Arguments Failed {A} e c.

Definition Run (A : Type) : Type := Session -> Reply A.

Definition pure {A} (a : A) : Run A := fun c => Finished a c.

Definition and_then {A B} (m : Run A) (k : A -> Run B) : Run B :=
  fun c =>
    match m c with
    | Finished a c' => k a c'
    | Failed e c' => Failed e c'
    end.

Definition throw {A} (e : Exn) : Run A := fun c => Failed e c.

Definition print (l : Line) : Run unit :=
  fun c =>
    Finished tt {| generator := generator c; stdout := stdout c ++ [l] |}.

(** An operation of torch that draws from its generator. *)
Definition with_generator {A} (f : TorchState -> A * TorchState) : Run A :=
  fun c =>
    let '(a, g) := f (generator c) in
    Finished a {| generator := g; stdout := stdout c |}.

(** [x / n] for a float [x] and an [int] [n]. *)
Definition divide (x : float) (n : nat) : Run float :=
  if decide (n = 0) then throw ZeroDivisionError
  else pure (float_div x (float_of_Z (Z.of_nat n))).

(** The session a run ends in, however it ends. *)
Definition session_of {A} (r : Reply A) : Session :=
  match r with Finished _ c | Failed _ c => c end.

End Learning.

Declare Scope learn_scope.
Delimit Scope learn_scope with learn.
Notation "'let*' x ':=' m 'in' k" := (and_then m (fun x => k))
  (at level 10, x pattern, m at level 100, k at level 200) : learn_scope.
Notation "m ';;' k" := (and_then m (fun _ => k))
  (at level 100, k at level 200, right associativity) : learn_scope.

Section Server.
Context `{Tor : Torch}.
Local Open Scope learn_scope.

(** [for a in l: body], with the variables the body assigns threaded as [s]. *)
Fixpoint each {A S : Type} (l : list A) (body : A -> S -> Run S) (s : S)
  : Run S :=
  match l with
  | [] => pure s
  | a :: l' => let* s' := body a s in each l' body s'
  end.

(** [enumerate(l)]. *)
Definition enumerate {A} (l : list A) : list (nat * A) := imap pair l.

(** ** [test] *)

(** [y_pred.eq(target.data.view_as(y_pred)).long().cpu().sum()]: in how many
    rows the prediction is the label. *)
Definition agreeing (y_pred target : list nat) : nat :=
  length (filter (fun pt => pt.1 = pt.2) (zip y_pred target)).

(** Lines 27-30, for one batch. *)
Definition test_batch (net_g : Model) (b : Batch) (acc : float * nat)
  : Run (float * nat) :=
  let '(test_loss, correct) := acc in
  let* log_probs := with_generator (forward net_g b) in
  let test_loss := float_add test_loss (cross_entropy log_probs (target b)) in
  let y_pred := argmax log_probs in
  let correct := correct + agreeing y_pred (target b) in
  pure (test_loss, correct).

Definition test (net_g : Model) (data_loader : DataLoader)
  : Run (nat * float) :=
  let test_loss := float_of_Z 0 in
  let correct := 0 in
  let l := len_loader data_loader in
  let* batches := with_generator (iterate data_loader) in
  let* (test_loss, correct) :=
    each batches (test_batch net_g) (test_loss, correct) in
  let* test_loss := divide test_loss (len_loader_dataset data_loader) in
  print (LineTest test_loss correct (len_loader_dataset data_loader)
                  (percent correct (len_loader_dataset data_loader))) ;;
  pure (correct, test_loss).

(** ** [train_server] *)

(** Lines 140-154, for batch number [i_batch] of epoch [i_epoch]. *)
Definition train_batch (settings : Settings) (dataset_iter : DataLoader)
    (i_epoch : nat) (ib : nat * Batch) (acc : Model * list float)
  : Run (Model * list float) :=
  let '(i_batch, b) := ib in
  let '(model, batch_loss) := acc in
  let* (model, loss) :=
    with_generator
      (sgd_step (learning_rate settings) (device settings) b model) in
  (if decide (i_batch mod 50 = 0) then
     let* pct :=
       divide (float_mul (float_of_Z 100) (float_of_Z (Z.of_nat i_batch)))
              (len_loader dataset_iter) in
     print (LineTrainEpoch i_epoch (i_batch * len_data b)
                           (len_loader_dataset dataset_iter) pct loss)
   else pure tt) ;;
  pure (model, batch_loss ++ [loss]).

(** Lines 138-158, the body of the loop over the epochs. *)
Definition train_epoch (settings : Settings) (dataset_iter : DataLoader)
    (i_epoch : nat) (acc : Model * list float) : Run (Model * list float) :=
  let '(model, list_loss) := acc in
  let batch_loss : list float := [] in
  let* batches := with_generator (iterate dataset_iter) in
  let* (model, batch_loss) :=
    each (enumerate batches) (train_batch settings dataset_iter i_epoch)
         (model, batch_loss) in
  let* loss_avg := divide (sum batch_loss) (length batch_loss) in
  print (LineTrainLoss loss_avg) ;;
  pure (model, list_loss ++ [loss_avg]).

Definition train_server (model : Model) (dataset : Samples)
    (settings : Settings) : Run Model :=
  let* dataset_iter :=
    match new_DataLoader dataset (num_global_batch settings) true with
    | inr loader => pure loader
    | inl msg => throw (ValueError msg)
    end in
  match SGD_rejects model (learning_rate settings) with
  | Some msg => throw (ValueError msg)
  | None => pure tt
  end ;;
  let list_loss : list float := [] in
  let* (model, list_loss) :=
    each (range (num_global_epochs settings))
         (train_epoch settings dataset_iter) (model, list_loss) in
  pure model.

(** ** Vocabulary *)

(** The progress lines and the loss lines of an output. *)
Definition is_progress (l : Line) : bool :=
  match l with LineTrainEpoch _ _ _ _ _ => true | _ => false end.

Definition is_loss (l : Line) : bool :=
  match l with LineTrainLoss _ => true | _ => false end.

(** How many of the batch numbers [k], ..., [k + n - 1] get a progress
    line. *)
Definition progress_lines (k n : nat) : nat :=
  length (filter (fun j => j mod 50 = 0) (seq k n)).

(** One pass of training over [batches]: the model and torch's generator
    after a step on each batch in turn. *)
Definition pass (settings : Settings) (batches : list Batch)
    (mg : Model * TorchState) : Model * TorchState :=
  foldl (fun mg b =>
           let '(m, l, g) :=
             sgd_step (learning_rate settings) (device settings) b mg.1 mg.2 in
           (m, g))
        mg batches.

(** [r] epochs in a row: before each pass the loader takes the order of
    the batches from the generator. *)
Fixpoint passes (settings : Settings) (dataset_iter : DataLoader) (r : nat)
    (mg : Model * TorchState) : Model * TorchState :=
  match r with
  | 0 => mg
  | S r' =>
      let '(batches, g) := iterate dataset_iter mg.2 in
      passes settings dataset_iter r' (pass settings batches (mg.1, g))
  end.

(** In how many rows of [batches] the prediction of the network is the
    label. *)
Fixpoint right_answers (net_g : Model) (batches : list Batch)
    (g : TorchState) : nat :=
  match batches with
  | [] => 0
  | b :: batches' =>
      let '(log_probs, g') := forward net_g b g in
      agreeing (argmax log_probs) (target b) + right_answers net_g batches' g'
  end.

(** The loss of each batch of [batches] under the network, in order. *)
Fixpoint batch_losses (net_g : Model) (batches : list Batch)
    (g : TorchState) : list float :=
  match batches with
  | [] => []
  | b :: batches' =>
      let '(log_probs, g') := forward net_g b g in
      cross_entropy log_probs (target b) :: batch_losses net_g batches' g'
  end.

End Server.

(** ** A concrete instance

    Samples are numbers and the label of sample [x] is [x mod 3]; a loader
    holds its batches, and a shuffling one yields them in reverse. *)

Module DemoServer.
Import Demo.
#[local] Existing Instance two.

Fixpoint chunks (fuel size : nat) (l : list nat) : list (list nat) :=
  match fuel with
  | 0 => []
  | S fuel' =>
      match l with
      | [] => []
      | _ :: _ => take size l :: chunks fuel' size (drop size l)
      end
  end.

Definition loader (ds : list nat) (batch_size : Z) (shuffle : bool)
  : string + (list (list nat) * bool) :=
  if shuffle && bool_decide (ds = []) then
    inl "num_samples should be a positive integer value"
  else if bool_decide (batch_size <= 0)%Z then
    inl "batch_size should be a positive integer value"
  else inr (chunks (length ds) (Z.to_nat batch_size) ds, shuffle).

#[export] Instance torch : Torch (Ext := two) :=
  {| Batch := list nat;
     Scores := list Q;
     DataLoader := list (list nat) * bool;
     len_data := length;
     target := fmap (fun x => x mod 3);
     new_DataLoader := loader;
     len_loader := fun L => length L.1;
     len_loader_dataset := fun L => sum_list_with length L.1;
     iterate := fun L g => (if L.2 then reverse L.1 else L.1, (g + 1)%Z);
     SGD_rejects :=
       fun _ lr =>
         if Qle_bool 0 lr then None else Some "Invalid learning rate";
     sgd_step :=
       fun lr _ b m g =>
         (Qred (m - lr * inject_Z (Z.of_nat (length b))),
          Qred (1 / (1 + m * m)), (g + 1)%Z);
     forward :=
       fun m b g => ((fun x => Qred (m + inject_Z (Z.of_nat x))) <$> b, g);
     cross_entropy := fun sc t => Qred (1 # Pos.of_nat (S (length t)));
     argmax := fmap (fun q => Z.to_nat (Qnum q / Z.pos (Qden q)) mod 3);
     float_mul := fun a b => Qred (a * b);
     percent :=
       fun c n => Qred (100 * inject_Z (Z.of_nat c) / inject_Z (Z.of_nat n)) |}.

(** A session at the start: torch's generator in state [g], nothing printed. *)
Definition session (g : Z) : Session := {| generator := g; stdout := [] |}.

End DemoServer.

(** * Facts *)

(** ** The monad *)

Section MonadFacts.
Context `{Car : Carriers}.

Lemma lookup_or_some {A} e (o : option A) a w :
  o = Some a -> lookup_or e o w = Returned a w.
Proof. by intros ->. Qed.

End MonadFacts.

(** ** Dictionaries *)

Section DictFacts.
Context {K V : Type} `{EqDecision K}.
Implicit Types (d : list (K * V)).

Lemma dict_set_fresh k v d :
  k ∉ Dict.keys d -> Dict.set k v d = d ++ [(k, v)].
Proof.
  unfold Dict.keys. induction d as [|[k' v'] d IH]; simpl; [done|].
  rewrite not_elem_of_cons. intros [? ?].
  rewrite decide_False by done. by rewrite IH.
Qed.

Lemma dict_get_fmap (f : K -> V) (l : list K) k :
  k ∈ l -> Dict.get k ((fun j => (j, f j)) <$> l) = Some (f k).
Proof.
  induction l as [|j l IH]; simpl; [by rewrite elem_of_nil|].
  rewrite elem_of_cons. intros Hk. case_decide; [by subst|].
  destruct Hk; [done|auto].
Qed.

Lemma dict_keys_fmap (f : K -> V) (l : list K) :
  Dict.keys ((fun j => (j, f j)) <$> l) = l.
Proof.
  unfold Dict.keys. rewrite <- list_fmap_compose.
  induction l as [|j l IH]; [done|]. rewrite fmap_cons. simpl. by rewrite IH.
Qed.

Lemma dict_values_fmap (f : K -> V) (l : list K) :
  Dict.values ((fun j => (j, f j)) <$> l) = f <$> l.
Proof.
  unfold Dict.values. by rewrite <- list_fmap_compose.
Qed.

End DictFacts.

(** ** numpy's draw *)

Section NumpyFacts.
Context `{Ext : External}.

Lemma swap_Permutation i j x : swap i j x ≡ₚ x.
Proof.
  unfold swap.
  destruct (x !! i) as [a|] eqn:Hi; [|done].
  destruct (x !! j) as [b|] eqn:Hj; [|done].
  pose proof (lookup_lt_Some _ _ _ Hi) as Hli.
  pose proof (lookup_lt_Some _ _ _ Hj) as Hlj.
  apply Permutation_inj. split; [by rewrite !length_insert|].
  exists (fun k => if decide (k = i) then j else if decide (k = j) then i else k).
  split.
  - intros k1 k2. repeat case_decide; lia.
  - intros k. rewrite !list_lookup_insert, !length_insert.
    repeat case_decide; subst; try congruence; try lia;
      destruct_and?; subst; try congruence; try lia.
Qed.

Lemma shuffle_from_Permutation i x s : (shuffle_from i x s).1 ≡ₚ x.
Proof.
  revert x s. induction i as [|i IH]; intros x s; simpl; [done|].
  destruct (random_interval (S i) s) as [j s'].
  rewrite IH. apply swap_Permutation.
Qed.

Lemma permutation_Permutation n s : (permutation n s).1 ≡ₚ seq 0 n.
Proof. apply shuffle_from_Permutation. Qed.

End NumpyFacts.

(** ** Datasets and rosters *)

Section DatasetFacts.
Context `{Ext : External}.

Lemma dict_get_enumerate (cs : list string) k i c :
  NoDup cs -> cs !! i = Some c ->
  Dict.get c (imap (fun j c => (c, k + j)) cs) = Some (k + i).
Proof.
  revert k i. induction cs as [|c0 cs IH]; intros k i Hnd Hi; [done|].
  apply NoDup_cons in Hnd as [Hc0 Hnd]. simpl.
  destruct i as [|i]; simpl in Hi.
  - injection Hi as ->. rewrite decide_True by done. f_equal; lia.
  - rewrite decide_False.
    + rewrite (imap_ext _ (fun j c => (c, S k + j))).
      * rewrite (IH (S k) i) by done. f_equal; lia.
      * intros. simpl. f_equal; lia.
    + intros ->. apply Hc0. by eapply list_elem_of_lookup_2.
Qed.

Lemma class_to_idx_lookup d i c :
  wf_dataset d -> classes d !! i = Some c ->
  Dict.get c (class_to_idx d) = Some i.
Proof.
  intros [Hnd ->] Hi.
  by rewrite (imap_ext _ (fun j c => (c, 0 + j)) (classes d)),
    (dict_get_enumerate _ 0 i).
Qed.

Lemma dict_keys_numbered {V} (cs : list V) :
  Dict.keys (imap (fun i c => (i, c)) cs) = seq 0 (length cs).
Proof.
  induction cs as [|c cs IH] using rev_ind; [done|].
  rewrite imap_app, length_app, seq_app. unfold Dict.keys in *.
  rewrite fmap_app, IH. simpl. by rewrite Nat.add_0_r.
Qed.

Lemma dict_get_numbered {V} (cs : list V) i :
  Dict.get i (imap (fun i c => (i, c)) cs) = cs !! i.
Proof.
  assert (forall k, Dict.get i (imap (fun j c => (k + j, c)) cs)
                    = if decide (k <= i) then cs !! (i - k) else None) as H.
  { induction cs as [|c cs IH]; intros k; simpl.
    - by case_decide.
    - rewrite (imap_ext _ (fun j c => (S k + j, c)) cs), IH
        by (intros; simpl; f_equal; lia).
      destruct (decide (i = k + 0)) as [->|Hne].
      + rewrite decide_True by lia. by replace (k + 0 - k) with 0 by lia.
      + destruct (decide (S k <= i)).
        * rewrite decide_True by lia.
          by replace (i - k) with (S (i - S k)) by lia.
        * by rewrite decide_False by lia. }
  specialize (H 0). rewrite decide_True in H by lia.
  by rewrite Nat.sub_0_r in H.
Qed.

Lemma invert_enumerate (cs : list string) :
  invert (imap (fun i c => (c, i)) cs) = imap (fun i c => (i, c)) cs.
Proof.
  unfold invert. induction cs as [|c cs IH] using rev_ind; [done|].
  rewrite !imap_app, foldl_app, IH. simpl. rewrite Nat.add_0_r.
  apply dict_set_fresh. rewrite dict_keys_numbered, elem_of_seq. lia.
Qed.

Lemma idx_to_class_lookup d i :
  wf_dataset d -> Dict.get i (invert (class_to_idx d)) = classes d !! i.
Proof. intros [_ ->]. by rewrite invert_enumerate, dict_get_numbered. Qed.

Lemma roster_S n : roster (S n) = roster n ++ [(n, connection n)].
Proof. unfold roster. by rewrite seq_S, fmap_app. Qed.

Lemma roster_keys n : Dict.keys (roster n) = seq 0 n.
Proof. apply dict_keys_fmap. Qed.

Lemma roster_lookup n i : i < n -> Dict.get i (roster n) = Some (connection i).
Proof.
  intros. apply (dict_get_fmap connection). apply elem_of_seq. lia.
Qed.

Lemma devices_of_snoc es st cs c subsets sub :
  subsets !! length cs = Some sub ->
  devices_of es st (cs ++ [c]) subsets
  = devices_of es st cs subsets ++ [mk_device es st (length cs) (c, sub)].
Proof.
  intros Hsub. unfold devices_of.
  pose proof (lookup_lt_Some _ _ _ Hsub).
  rewrite zip_with_app_l, zip_with_take_r, (drop_S _ _ _ Hsub). simpl.
  rewrite imap_app. simpl. rewrite length_zip_with.
  by replace (length cs `min` length subsets + 0) with (length cs) by lia.
Qed.

End DatasetFacts.

(** ** The set-up *)

Section SetupFacts.
Context `{Laws : ExternalLaws}.

Lemma split_length d s : length (split d s) = length (classes d).
Proof.
  unfold split. destruct (iid s);
    [apply split_dataset_iid_length | apply split_dataset_non_iid_length].
Qed.

Lemma devices_length d s st : length (devices d s st) = length (classes d).
Proof.
  unfold devices, devices_of.
  rewrite length_imap, length_zip_with, split_length. lia.
Qed.

Lemma devices_lookup d s st i dev :
  devices d s st !! i = Some dev <->
  exists c sub, classes d !! i = Some c /\ split d s !! i = Some sub /\
                dev = mk_device (edge_settings s) st i (c, sub).
Proof.
  unfold devices, devices_of. rewrite list_lookup_imap, fmap_Some. split.
  - intros [[c sub] [Hz ->]]. apply lookup_zip_with_Some in Hz.
    destruct Hz as (c' & sub' & [= <- <-] & ? & ?). eauto.
  - intros (c & sub & ? & ? & ->). exists (c, sub). split; [|done].
    apply lookup_zip_with_Some. eauto.
Qed.

Lemma devices_lookup_lt d s st i :
  i < length (classes d) -> is_Some (devices d s st !! i).
Proof. intros. apply lookup_lt_is_Some. by rewrite devices_length. Qed.

Lemma create_devices_loop d s pre suf w :
  wf_dataset d ->
  classes d = pre ++ suf ->
  pipes w = replicate (length pre) empty_pipe ->
  processes w = devices_of (edge_settings s) Running pre (split d s) ->
  for_each suf
    (fun device_name device_connections =>
       let* device_id :=
         lookup_or KeyError (Dict.get device_name (class_to_idx d)) in
       let* (handle_server, handle_device) := Pipe_duplex in
       let* subset := lookup_or IndexError (split d s !! device_id) in
       let* device :=
         new_EdgeDevice device_name handle_server subset (edge_settings s) in
       let device_connections :=
         Dict.set device_id {| handle := handle_device; process := device |}
                  device_connections in
       start device ;;
       ret device_connections)
    (roster (length pre)) w
  = Returned (roster (length (classes d)))
      {| pipes := replicate (length (classes d)) empty_pipe;
         processes := devices d s Running;
         np_random := np_random w; torch_random := torch_random w;
         scheduler := scheduler w;
         trace := trace w ++ (i ← seq (length pre) (length suf);
                              [EvPipe i; EvStart i]) |}.
Proof.
  intros Hwf. revert pre w.
  induction suf as [|c suf IH]; intros pre w Hcs Hp Hq.
  - rewrite app_nil_r in Hcs. subst pre. simpl. unfold ret.
    destruct w; simpl in *. rewrite app_nil_r. unfold devices. by subst.
  - assert (classes d !! length pre = Some c) as Hc
      by (rewrite Hcs; apply list_lookup_middle; done).
    assert (is_Some (split d s !! length pre)) as [sub Hsub].
    { apply lookup_lt_is_Some. rewrite split_length, Hcs, length_app. simpl. lia. }
    assert (length (devices_of (edge_settings s) Running pre (split d s))
            = length pre) as Hlq.
    { unfold devices_of. rewrite length_imap, length_zip_with, split_length.
      rewrite Hcs, length_app. lia. }
    cbn [for_each].
    unfold bind at 1.
    unfold bind at 1.
    rewrite (lookup_or_some _ _ _ _ (class_to_idx_lookup _ _ _ Hwf Hc)).
    unfold bind at 1. unfold Pipe_duplex at 1. rewrite Hp, length_replicate.
    unfold bind at 1.
    rewrite (lookup_or_some _ _ _ _ Hsub).
    unfold bind at 1. unfold new_EdgeDevice at 1.
    cbn [processes log set_pipes set_processes].
    rewrite Hq, Hlq.
    unfold bind at 1. unfold start at 1. unfold ret at 1.
    cbn [processes pipes np_random torch_random scheduler trace log
         set_pipes set_processes].
    rewrite (dict_set_fresh (length pre)), <- roster_S
      by (rewrite roster_keys, elem_of_seq; lia).
    replace (S (length pre)) with (length (pre ++ [c]))
      by (rewrite length_app; simpl; lia).
    etrans; [apply IH|].
    + by rewrite <- app_assoc.
    + cbn [pipes log set_processes set_pipes]. rewrite Hp, length_app.
      cbn [length]. by rewrite Nat.add_1_r, replicate_S_end.
    + cbn [processes log set_processes set_pipes].
      rewrite (devices_of_snoc _ _ _ _ _ _ Hsub).
      rewrite Hq, alter_app_r_alt by (rewrite Hlq; lia).
      by rewrite Hlq, Nat.sub_diag.
    + f_equal. simpl. f_equal.
      rewrite <- !app_assoc. f_equal. simpl.
      rewrite length_app. simpl. by rewrite Nat.add_1_r.
Qed.

Lemma create_devices_fresh d s w :
  wf_dataset d -> fresh w ->
  create_devices d (split d s) (edge_settings s) w
  = Returned (roster (length (classes d)))
      {| pipes := replicate (length (classes d)) empty_pipe;
         processes := devices d s Running;
         np_random := np_random w; torch_random := torch_random w;
         scheduler := scheduler w;
         trace := trace w ++ setup_events (length (classes d)) |}.
Proof.
  intros Hwf [Hp Hq]. unfold create_devices.
  by apply (create_devices_loop d s [] (classes d) w).
Qed.

End SetupFacts.

(** ** Selection *)

Section SelectFacts.
Context `{Ext : External}.

Lemma draw_NoDup n k s : NoDup (draw n k s).
Proof.
  unfold draw.
  assert (NoDup (permutation n s).1) as Hnd
    by (rewrite permutation_Permutation; apply NoDup_seq).
  rewrite <- (take_drop (Z.to_nat k)) in Hnd.
  by apply NoDup_app in Hnd as [? _].
Qed.

Lemma draw_lt n k s i : i ∈ draw n k s -> i < n.
Proof.
  unfold draw. intros (j & Hj & _)%elem_of_take.
  apply list_elem_of_lookup_2 in Hj.
  rewrite permutation_Permutation in Hj. apply elem_of_seq in Hj. lia.
Qed.

Lemma draw_length n k s :
  (0 <= k <= Z.of_nat n)%Z -> length (draw n k s) = Z.to_nat k.
Proof.
  intros. unfold draw. rewrite length_take.
  rewrite (Permutation_length (permutation_Permutation n s)), length_seq. lia.
Qed.

Lemma np_random_choice_ok n k w :
  (0 <= k <= Z.of_nat n)%Z ->
  np_random_choice n k w
  = Returned (draw n k (np_random w))
      (log (EvChoice (draw n k (np_random w)))
           (set_np_random (permutation n (np_random w)).2 w)).
Proof.
  intros Hk. unfold np_random_choice, draw.
  rewrite decide_False by (intros [-> ?]; lia).
  rewrite decide_True by lia.
  by destruct (permutation n (np_random w)).
Qed.

(** A size outside the population is rejected, and the world is left as it
    was: with [ValueError] when the population is empty or the size is an
    integer of 64 bits, signed or not, and with [OverflowError] when it is
    [2^64] or more and the population is not empty. *)
Lemma np_random_choice_raises n k w :
  (Z.of_nat n < k \/ k < 0)%Z ->
  exists e,
    np_random_choice n k w = Raised e w /\
    (n = 0 \/ (- 2 ^ 63 <= k < 2 ^ 64)%Z -> exists msg, e = ValueError msg) /\
    (n <> 0 -> (2 ^ 64 <= k)%Z -> e = OverflowError).
Proof.
  intros Hk. unfold np_random_choice, intp.
  destruct (decide (n = 0 /\ k <> 0%Z)) as [[Hn Hk0]|Hne].
  { eexists. split; [done|]. split; [eauto|]. done. }
  rewrite decide_False by lia.
  destruct (decide (k < - 2 ^ 63 \/ 2 ^ 64 <= k)%Z) as [Hbig|Hfit].
  { eexists. split; [done|]. split; [|done].
    intros [->|?]; [|lia]. destruct Hne. split; [done|lia]. }
  assert (forall e : Exn,
            (exists msg, e = ValueError msg) ->
            (n = 0 \/ (- 2 ^ 63 <= k < 2 ^ 64)%Z ->
             exists msg, e = ValueError msg) /\
            (n <> 0 -> (2 ^ 64 <= k)%Z -> e = OverflowError)) as Hval
    by (intros e He; split; [done|lia]).
  repeat case_decide; (eexists; split; [done|]; apply Hval; eauto).
Qed.

Lemma in_round_loop n pre suf w :
  NoDup (pre ++ suf) -> (forall i, i ∈ suf -> i < n) ->
  for_each suf
    (fun i d =>
       let* c := lookup_or KeyError (Dict.get i (roster n)) in
       ret (Dict.set i c d))
    (in_round_of pre) w
  = Returned (in_round_of (pre ++ suf)) w.
Proof.
  revert pre. induction suf as [|i suf IH]; intros pre Hnd Hlt.
  - by rewrite app_nil_r.
  - cbn [for_each]. unfold bind at 1. unfold bind at 1.
    rewrite (lookup_or_some _ _ _ _ (roster_lookup n i (Hlt i ltac:(left)))).
    unfold ret at 1.
    apply NoDup_app in Hnd as (Hpre & Hdisj & Hsuf).
    rewrite dict_set_fresh.
    + replace (in_round_of pre ++ [(i, connection i)])
        with (in_round_of (pre ++ [i]))
        by (unfold in_round_of; by rewrite fmap_app).
      rewrite IH.
      * by rewrite <- app_assoc.
      * rewrite <- app_assoc. simpl. apply NoDup_app. done.
      * intros. apply Hlt. by right.
    + unfold in_round_of. rewrite dict_keys_fmap. intros Hin.
      apply (Hdisj _ Hin). left.
Qed.

Lemma select_round_ok n w :
  (0 <= MAX_USERS_IN_ROUND <= Z.of_nat n)%Z ->
  select_round n (roster n) w
  = Returned (in_round_of (draw n MAX_USERS_IN_ROUND (np_random w)))
      (log (EvChoice (draw n MAX_USERS_IN_ROUND (np_random w)))
           (set_np_random (permutation n (np_random w)).2 w)).
Proof.
  intros Hk. unfold select_round, bind at 1.
  rewrite np_random_choice_ok by done.
  apply (in_round_loop n []).
  - apply draw_NoDup.
  - apply draw_lt.
Qed.

End SelectFacts.

(** ** Pipes within a round *)

Section PhaseFacts.
Context `{Laws : ExternalLaws}.
Context (d : CIFAR10) (s : Settings) (Hwf : wf_dataset d).

Local Abbreviation devs := (devices d s Running).
Local Abbreviation n := (length (classes d)).

Lemma in_phase_ext m ph ph' w :
  (forall i, i < n -> ph i = ph' i) ->
  in_phase devs m ph w -> in_phase devs m ph' w.
Proof.
  intros Hext (Hq & Hl & Hp). repeat split; [done..|].
  intros i dev Hi. rewrite <- Hext; [by apply Hp|].
  apply lookup_lt_Some in Hi. by rewrite devices_length in Hi.
Qed.

Lemma quiescent_in_phase m w :
  quiescent d s w <-> in_phase devs m (fun _ => Empty) w.
Proof.
  split.
  - intros [Hq Hp]. repeat split; [done|..].
    + by rewrite Hp, length_replicate, devices_length.
    + intros i dev Hi. rewrite Hp. apply lookup_replicate_2.
      apply lookup_lt_Some in Hi. by rewrite devices_length in Hi.
  - intros (Hq & Hl & Hp). split; [done|].
    rewrite devices_length in Hl.
    apply list_eq. intros i. destruct (decide (i < n)) as [Hi|Hi].
    + destruct (devices_lookup_lt d s Running i Hi) as [dev Hdev].
      rewrite (Hp _ _ Hdev). symmetry. by apply lookup_replicate_2.
    + rewrite !lookup_ge_None_2; [done|rewrite length_replicate; lia|lia].
Qed.

Lemma send_phase m ph w i :
  in_phase devs m ph w -> ph i = Empty ->
  in_phase devs m (fun j => if decide (j = i) then Pending else ph j)
    (log (EvSend i m)
       (set_pipes
          (alter (fun p => {| to_device := to_device p ++ [m];
                              to_server := to_server p |}) i) w)).
Proof.
  intros (Hq & Hl & Hp) Hi. repeat split; [done|..].
  - cbn [pipes log set_pipes]. by rewrite length_alter.
  - intros j dev Hj. cbn [pipes log set_pipes].
    rewrite list_lookup_alter. case_decide as Hij.
    + subst j. rewrite decide_True by done.
      rewrite (Hp _ _ Hj), Hi. done.
    + rewrite decide_False by done. by apply Hp.
Qed.

Lemma dispatch_loop m pre suf w :
  in_phase devs m (sel_phase pre []) w ->
  NoDup (pre ++ suf) -> (forall i, i ∈ suf -> i < n) ->
  exists w',
    dispatch (invert (class_to_idx d)) (in_round_of suf) m w = Returned tt w' /\
    in_phase devs m (sel_phase (pre ++ suf) []) w' /\
    trace w' = trace w ++ dispatch_events (classes d) m suf /\
    np_random w' = np_random w /\ scheduler w' = scheduler w /\
    torch_random w' = torch_random w.
Proof.
  revert pre w. induction suf as [|i suf IH]; intros pre w Hph Hnd Hlt.
  - exists w. unfold dispatch, dispatch_events. simpl. rewrite !app_nil_r. by intuition.
  - assert (i < n) as Hi by (apply Hlt; left).
    destruct (lookup_lt_is_Some_2 (classes d) i Hi) as [c Hc].
    unfold dispatch. cbn [in_round_of fmap list_fmap for_each].
    unfold bind at 1. unfold bind at 1. cbn [fst snd].
    rewrite (lookup_or_some _ _ c) by (by rewrite idx_to_class_lookup).
    unfold bind at 1. unfold emit at 1. unfold send at 1.
    cbn [handle connection].
    set (w1 := log (EvSend i m) _).
    destruct (IH (pre ++ [i]) w1) as (w' & Hrun & Hph' & Htr & Hnp & Hsc & Hto).
    + eapply in_phase_ext;
        [|apply (send_phase m (sel_phase pre []) (log (EvPrintSending c) w) i)].
      * intros j _. unfold sel_phase.
        destruct (decide (j = i)) as [->|Hji].
        -- rewrite decide_True; [done|].
           rewrite elem_of_app, list_elem_of_singleton, elem_of_nil. tauto.
        -- apply decide_ext.
           rewrite elem_of_app, list_elem_of_singleton. tauto.
      * destruct Hph as (Hq & Hl & Hp). repeat split; [done..|].
        intros j dev Hj. by apply Hp.
      * unfold sel_phase. rewrite decide_False; [done|].
        intros [Hin _]. apply NoDup_app in Hnd as (_ & Hdisj & _).
        apply (Hdisj _ Hin). left.
    + by rewrite <- app_assoc.
    + intros. apply Hlt. by right.
    + exists w'. split; [exact Hrun|]. rewrite <- app_assoc in Hph'.
      split; [done|]. split; [|done].
      subst w1. cbn [trace np_random scheduler torch_random log set_pipes] in *.
      rewrite Htr. unfold dispatch_events.
      rewrite bind_cons, Hc. by rewrite <- !app_assoc.
Qed.


Lemma devices_running i dev :
  devs !! i = Some dev ->
  dev_status dev = Running /\ dev_handle dev = i /\
  classes d !! i = Some (dev_name dev).
Proof.
  intros (c & sub & Hc & _ & ->)%devices_lookup. by repeat split.
Qed.

Lemma device_step_eq m ph w pid :
  in_phase devs m ph w ->
  device_step pid w
  = match devs !! pid, ph pid with
    | Some dev, Pending =>
        log (EvDeviceSend pid (trained m dev))
            (set_pipes (<[pid := pipe_of m dev Done]>) w)
    | _, _ => w
    end.
Proof.
  intros (Hq & Hl & Hp). unfold device_step. rewrite Hq.
  destruct (devs !! pid) as [dev|] eqn:Hdev; [|done].
  destruct (devices_running _ _ Hdev) as (-> & -> & _).
  rewrite (Hp _ _ Hdev).
  destruct (ph pid); cbn [pipe_of to_device to_server empty_pipe]; try done.
  unfold trained. by destruct (local_train _ _ m).
Qed.

Lemma device_step_phase m ph w pid :
  in_phase devs m ph w ->
  exists evs,
    in_phase devs m (fun j => if decide (j = pid) then advance (ph j) else ph j)
      (device_step pid w) /\
    trace (device_step pid w) = trace w ++ evs /\
    Forall (fun e => exists i dev, ph i = Pending /\ devs !! i = Some dev /\
                       e = EvDeviceSend i (trained m dev)) evs /\
    np_random (device_step pid w) = np_random w /\
    scheduler (device_step pid w) = scheduler w /\
    torch_random (device_step pid w) = torch_random w.
Proof.
  intros Hph. rewrite (device_step_eq m ph) by done.
  pose proof Hph as (Hq & Hl & Hp).
  destruct (devs !! pid) as [dev|] eqn:Hdev.
  - destruct (ph pid) eqn:Hpid.
    + exists []. rewrite app_nil_r. split_and!; try done.
      eapply in_phase_ext; [|exact Hph]. intros j _. simpl.
      case_decide; [subst; by rewrite Hpid|done].
    + exists [EvDeviceSend pid (trained m dev)]. split_and!; try done.
      * split_and!; [done|by cbn; rewrite length_insert|].
        intros j dev' Hj. cbn [pipes log set_pipes].
        rewrite list_lookup_insert. case_decide as Hij.
        -- destruct Hij as [<- _]. rewrite decide_True by done.
           rewrite Hpid. simpl. by assert (dev' = dev) as -> by congruence.
        -- rewrite decide_False.
           ++ by apply Hp.
           ++ intros ->. apply Hij. split; [done|].
              apply lookup_lt_Some in Hj. lia.
      * apply Forall_singleton. by exists pid, dev.
    + exists []. rewrite app_nil_r. split_and!; try done.
      eapply in_phase_ext; [|exact Hph]. intros j _. simpl.
      case_decide; [subst; by rewrite Hpid|done].
  - exists []. rewrite app_nil_r. split_and!; try done.
    split_and!; [done..|].
    intros j dev Hj. rewrite decide_False by congruence. by apply Hp.
Qed.

Lemma after_burst_cons pid b ph i :
  after_burst b (fun j => if decide (j = pid) then advance (ph j) else ph j) i
  = after_burst (pid :: b) ph i.
Proof.
  unfold after_burst. destruct (decide (i = pid)) as [->|Hne].
  - rewrite (decide_True (P := pid ∈ pid :: b)) by left.
    case_decide; [|done]. by destruct (ph pid).
  - destruct (decide (i ∈ b)) as [Hb|Hb].
    + by rewrite (decide_True (P := i ∈ pid :: b)) by (by right).
    + rewrite (decide_False (P := i ∈ pid :: b)); [done|].
      rewrite elem_of_cons. tauto.
Qed.

Lemma run_burst_phase m b ph w :
  in_phase devs m ph w ->
  exists evs,
    in_phase devs m (after_burst b ph) (run_burst b w) /\
    trace (run_burst b w) = trace w ++ evs /\
    Forall (fun e => exists i dev, ph i = Pending /\ devs !! i = Some dev /\
                       e = EvDeviceSend i (trained m dev)) evs /\
    np_random (run_burst b w) = np_random w /\
    scheduler (run_burst b w) = scheduler w /\
    torch_random (run_burst b w) = torch_random w.
Proof.
  revert ph w. induction b as [|pid b IH]; intros ph w Hph.
  - exists []. rewrite app_nil_r. by split_and!.
  - destruct (device_step_phase m ph w pid Hph)
      as (evs1 & Hph1 & Htr1 & Hev1 & Hnp1 & Hsc1 & Hto1).
    destruct (IH _ _ Hph1) as (evs2 & Hph2 & Htr2 & Hev2 & Hnp2 & Hsc2 & Hto2).
    exists (evs1 ++ evs2). cbn [run_burst foldl]. unfold run_burst in *.
    split_and!.
    + eapply in_phase_ext; [|exact Hph2]. intros j _. apply after_burst_cons.
    + by rewrite Htr2, Htr1, app_assoc.
    + apply Forall_app. split; [done|].
      eapply Forall_impl; [exact Hev2|]. intros e (i & dev & Hi & Hd & ->).
      exists i, dev. split_and!; [|done..].
      case_decide; [|done]. subst. by destruct (ph pid).
    + congruence.
    + congruence.
    + congruence.
Qed.

Lemma readable_phase m ph w i dev :
  in_phase devs m ph w -> devs !! i = Some dev ->
  readable w i = true <-> ph i = Done.
Proof.
  intros (_ & _ & Hp) Hdev. unfold readable. rewrite (Hp _ _ Hdev).
  by destruct (ph i).
Qed.

End PhaseFacts.

(** ** Collecting the results of a round *)

Section CollectFacts.
Context `{Laws : ExternalLaws}.
Context (d : CIFAR10) (s : Settings) (Hwf : wf_dataset d).

Local Abbreviation devs := (devices d s Running).
Local Abbreviation n := (length (classes d)).

Lemma filter_ext_in {A} (P Q : A -> Prop) `{!forall x, Decision (P x)}
    `{!forall x, Decision (Q x)} (l : list A) :
  (forall x, x ∈ l -> P x <-> Q x) -> filter P l = filter Q l.
Proof.
  induction l as [|x l IH]; intros Hext; [done|].
  rewrite !filter_cons.
  rewrite IH by (intros; apply Hext; by right).
  assert (P x <-> Q x) as HPQ by (apply Hext; left).
  repeat case_decide; tauto.
Qed.

Lemma models_of_snoc rs i r :
  i ∉ rs.*1 ->
  Dict.set i (model r) (models_of rs) = models_of (rs ++ [(i, r)]).
Proof.
  intros Hi. unfold models_of. rewrite fmap_app. apply dict_set_fresh.
  unfold Dict.keys. by rewrite <- list_fmap_compose.
Qed.

Lemma losses_of_snoc rs i r :
  i ∉ rs.*1 ->
  Dict.set i (loss r) (losses_of rs) = losses_of (rs ++ [(i, r)]).
Proof.
  intros Hi. unfold losses_of. rewrite fmap_app. apply dict_set_fresh.
  unfold Dict.keys. by rewrite <- list_fmap_compose.
Qed.

Lemma recv_phase m ph w i dev :
  in_phase devs m ph w -> devs !! i = Some dev -> ph i = Done ->
  recv i w
  = Returned (trained m dev)
      (log (EvRecv i (trained m dev)) (set_pipes (<[i := empty_pipe]>) w)) /\
  in_phase devs m (fun j => if decide (j = i) then Empty else ph j)
    (log (EvRecv i (trained m dev)) (set_pipes (<[i := empty_pipe]>) w)).
Proof.
  intros (Hq & Hl & Hp) Hdev Hi. split.
  - unfold recv. by rewrite (Hp _ _ Hdev), Hi.
  - split_and!; [done|by cbn; rewrite length_insert|].
    intros j dev' Hj. cbn [pipes log set_pipes].
    rewrite list_lookup_insert. case_decide as Hij.
    + destruct Hij as [<- _]. by rewrite decide_True.
    + rewrite decide_False; [by apply Hp|].
      intros ->. apply Hij. split; [done|].
      apply lookup_lt_Some in Hj. lia.
Qed.

Lemma receive_loop m ids R :
  forall ph Cr w,
    in_phase devs m ph w -> NoDup R ->
    (forall i, i ∈ R -> ph i = Done /\ i ∈ ids /\ i ∉ Cr.*1) ->
    (forall i, i ∈ ids -> i < n) ->
    exists Rr w' evs,
      receive (class_to_idx d) R (models_of Cr, losses_of Cr) w
      = Returned (models_of (Cr ++ Rr), losses_of (Cr ++ Rr)) w' /\
      Rr.*1 = R /\
      Forall (fun ir => exists dev, devs !! ir.1 = Some dev /\
                                    ir.2 = trained m dev) Rr /\
      in_phase devs m (fun j => if decide (j ∈ R) then Empty else ph j) w' /\
      trace w' = trace w ++ evs /\ received evs = Rr /\
      Forall (collect_event devs m ids) evs /\
      np_random w' = np_random w /\ scheduler w' = scheduler w /\
      torch_random w' = torch_random w.
Proof.
  induction R as [|i R IH]; intros ph Cr w Hph Hnd HR Hlt.
  - exists [], w, []. rewrite !app_nil_r. by split_and!.
  - apply NoDup_cons in Hnd as [HiR Hnd].
    destruct (HR i ltac:(left)) as (Hdone & Hiids & HiC).
    destruct (devices_lookup_lt d s Running i (Hlt _ Hiids)) as [dev Hdev].
    destruct (recv_phase m ph w i dev Hph Hdev Hdone) as [Hrecv Hph1].
    destruct (devices_running d s i dev Hdev) as (_ & _ & Hname).
    set (r := trained m dev) in *.
    assert (name r = dev_name dev) as Hr.
    { unfold r, trained. by destruct (local_train _ _ m). }
    set (w1 := log (EvPrintReceiving (name r))
                   (log (EvRecv i r) (set_pipes (<[i := empty_pipe]>) w))).
    destruct (IH (fun j => if decide (j = i) then Empty else ph j)
                 (Cr ++ [(i, r)]) w1)
      as (Rr & w' & evs & Hrun & HRr & Hok & Hph' & Htr & Hrcv & Hev & Hnp
          & Hsc & Hto).
    + destruct Hph1 as (? & ? & ?). by split_and!.
    + done.
    + intros j Hj. destruct (HR j ltac:(by right)) as (? & ? & ?).
      split_and!; [|done|].
      * rewrite decide_False; [done|]. intros ->. done.
      * rewrite fmap_app, elem_of_app. simpl. rewrite list_elem_of_singleton.
        intros [?| ->]; done.
    + done.
    + exists ((i, r) :: Rr), w', ([EvRecv i r; EvPrintReceiving (name r)] ++ evs).
      split_and!.
      * unfold receive. cbn [for_each]. unfold bind at 1. unfold bind at 1.
        rewrite Hrecv. unfold bind at 1. unfold emit at 1.
        unfold bind at 1.
        rewrite (lookup_or_some _ _ i)
          by (rewrite Hr; by apply class_to_idx_lookup).
        unfold ret at 1. cbn [fst snd].
        rewrite models_of_snoc, losses_of_snoc by done.
        fold r. fold w1. unfold receive in Hrun. rewrite Hrun.
        by rewrite <- !app_assoc.
      * by rewrite fmap_cons, HRr.
      * apply Forall_cons. split; [by exists dev|done].
      * eapply in_phase_ext; [|exact Hph']. intros j _. simpl.
        destruct (decide (j = i)) as [->|Hji].
        -- rewrite (decide_True (P := i ∈ i :: R)) by left. by case_decide.
        -- apply decide_ext. rewrite elem_of_cons. tauto.
      * rewrite Htr. subst w1. cbn [trace log set_pipes].
        by rewrite <- !app_assoc.
      * simpl. by rewrite Hrcv.
      * apply Forall_app. split; [|done].
        apply Forall_cons. split; [|apply Forall_singleton].
        -- simpl. split; [done|]. by exists dev.
        -- simpl. exists i, dev. by rewrite Hr.
      * by rewrite Hnp.
      * by rewrite Hsc.
      * by rewrite Hto.
Qed.


Lemma in_round_handles ids :
  handle <$> Dict.values (in_round_of ids) = ids.
Proof.
  unfold in_round_of. rewrite (dict_values_fmap connection).
  rewrite <- list_fmap_compose. induction ids as [|i ids IH]; [done|].
  rewrite fmap_cons. simpl. by rewrite IH.
Qed.

Lemma in_round_len ids : Dict.len (in_round_of ids) = length ids.
Proof. unfold Dict.len, in_round_of. by rewrite length_fmap. Qed.

Lemma losses_len rs : Dict.len (losses_of rs) = length rs.
Proof. unfold Dict.len, losses_of. by rewrite length_fmap. Qed.

(** One turn of the loop: a burst, then everything readable is received. *)
Lemma collect_turn m ids b rest Cr w :
  NoDup ids -> (forall i, i ∈ ids -> i < n) ->
  scheduler w = b :: rest ->
  in_phase devs m (sel_phase ids Cr.*1) w ->
  exists Rr w1 evs,
    (let* ready := wait (handle <$> Dict.values (in_round_of ids)) in
     receive (class_to_idx d) ready (models_of Cr, losses_of Cr)) w
    = Returned (models_of (Cr ++ Rr), losses_of (Cr ++ Rr)) w1 /\
    Rr.*1 = filter (fun h => h ∈ b /\ h ∉ Cr.*1) ids /\
    Forall (fun ir => exists dev, devs !! ir.1 = Some dev /\
                                  ir.2 = trained m dev) Rr /\
    in_phase devs m (sel_phase ids (Cr ++ Rr).*1) w1 /\
    scheduler w1 = rest /\
    trace w1 = trace w ++ evs /\ received evs = Rr /\
    Forall (collect_event devs m ids) evs /\
    np_random w1 = np_random w /\ torch_random w1 = torch_random w.
Proof.
  intros Hnd Hlt Hsched Hph.
  set (w0 := set_scheduler rest w).
  assert (in_phase devs m (sel_phase ids Cr.*1) w0) as Hph0
    by (destruct Hph as (? & ? & ?); by split_and!).
  destruct (run_burst_phase d s m b _ w0 Hph0)
    as (evs1 & Hph1 & Htr1 & Hev1 & Hnp1 & Hsc1 & Hto1).
  set (R := filter (fun h => h ∈ b /\ h ∉ Cr.*1) ids).
  assert (filter (fun h => readable (run_burst b w0) h = true) ids = R) as HR.
  { apply filter_ext_in. intros h Hh.
    destruct (devices_lookup_lt d s Running h (Hlt _ Hh)) as [dev Hdev].
    rewrite (readable_phase d s m _ _ h dev Hph1 Hdev).
    unfold after_burst, sel_phase.
    repeat case_decide; simpl; split; try done; try tauto. }
  destruct (receive_loop m ids R (after_burst b (sel_phase ids Cr.*1)) Cr
              (run_burst b w0) Hph1)
    as (Rr & w1 & evs2 & Hrun & HRr & Hok & Hph2 & Htr2 & Hrcv & Hev2 & Hnp2
        & Hsc2 & Hto2).
  { by apply NoDup_filter. }
  { intros i [[Hib HiC] Hi]%list_elem_of_filter. split_and!; [|done..].
    unfold after_burst, sel_phase.
    rewrite decide_True by done. by rewrite decide_True by done. }
  { done. }
  exists Rr, w1, (evs1 ++ evs2). split_and!.
  - unfold bind at 1. unfold wait. rewrite Hsched, in_round_handles.
    fold w0. by rewrite HR.
  - done.
  - done.
  - eapply in_phase_ext; [|exact Hph2]. intros j _.
    unfold after_burst, sel_phase. rewrite fmap_app, HRr.
    destruct (decide (j ∈ R)) as [HjR|HjR].
    + rewrite decide_False; [done|].
      intros [_ Hn]. apply Hn, elem_of_app. by right.
    + pose proof (elem_of_app Cr.*1 R j) as Happ.
      assert (j ∈ b -> j ∈ ids -> j ∉ Cr.*1 -> False) as Hno.
      { intros. apply HjR. by apply list_elem_of_filter. }
      assert (j ∈ R -> j ∈ ids) as Hin
        by (intros [_ ?]%list_elem_of_filter; done).
      repeat case_decide; simpl; try done; exfalso; tauto.
  - by rewrite Hsc2, Hsc1.
  - by rewrite Htr2, Htr1, app_assoc.
  - unfold received in *. rewrite omap_app, Hrcv.
    replace (omap _ evs1) with (@nil (nat * EdgeDeviceResult)); [done|].
    symmetry. clear -Hev1. induction evs1 as [|e evs1 IH]; [done|].
    apply Forall_cons in Hev1 as [(i & dev & _ & _ & ->) Hev1].
    simpl. by apply IH.
  - apply Forall_app. split; [|done].
    eapply Forall_impl; [exact Hev1|].
    intros e (i & dev & Hi & Hdev & ->). simpl.
    unfold sel_phase in Hi. case_decide as Hc; [|done].
    split; [tauto|]. by exists dev.
  - by rewrite Hnp2, Hnp1.
  - by rewrite Hto2, Hto1.
Qed.


Lemma all_received (ids C : list nat) :
  NoDup ids -> NoDup C -> (forall i, i ∈ C -> i ∈ ids) ->
  length C = length ids -> C ≡ₚ ids.
Proof.
  intros Hids HC Hsub Hlen.
  apply submseteq_length_Permutation; [by apply NoDup_submseteq|lia].
Qed.

Lemma some_missing (ids C : list nat) :
  NoDup ids -> NoDup C -> (forall i, i ∈ C -> i ∈ ids) ->
  length C <> length ids -> exists i, i ∈ ids /\ i ∉ C.
Proof.
  intros Hids HC Hsub Hlen.
  destruct (filter (fun i => i ∉ C) ids) as [|i l] eqn:Hf.
  - exfalso. apply Hlen.
    assert (forall i, i ∈ ids -> i ∈ C) as Hall.
    { intros i Hi. destruct (decide (i ∈ C)) as [|Hn]; [done|].
      assert (i ∈ filter (fun i => i ∉ C) ids) as Hin
        by (by apply list_elem_of_filter).
      rewrite Hf in Hin. by apply elem_of_nil in Hin. }
    apply Nat.le_antisymm; apply submseteq_length; by apply NoDup_submseteq.
  - exists i. assert (i ∈ filter (fun i => i ∉ C) ids) as Hin
      by (rewrite Hf; left).
    apply list_elem_of_filter in Hin. tauto.
Qed.

Lemma collect_loop_returns m ids :
  NoDup ids -> (forall i, i ∈ ids -> i < n) ->
  forall clock Cr w,
    scheduler w = clock ->
    in_phase devs m (sel_phase ids Cr.*1) w ->
    NoDup Cr.*1 -> (forall i, i ∈ Cr.*1 -> i ∈ ids) ->
    (forall i, i ∈ ids -> i ∈ Cr.*1 \/ i ∈ mjoin clock) ->
    exists Rr w' used evs,
      collect_loop clock (class_to_idx d) (in_round_of ids)
                   (models_of Cr, losses_of Cr) w
      = Returned (models_of (Cr ++ Rr), losses_of (Cr ++ Rr)) w' /\
      (Cr ++ Rr).*1 ≡ₚ ids /\
      Forall (fun ir => exists dev, devs !! ir.1 = Some dev /\
                                    ir.2 = trained m dev) Rr /\
      in_phase devs m (fun _ => Empty) w' /\
      clock = used ++ scheduler w' /\
      (forall i, i ∈ Rr.*1 -> i ∈ mjoin used) /\
      (forall u b, used = u ++ [b] ->
                   exists i, i ∈ ids /\ (i ∉ Cr.*1) /\ (i ∉ mjoin u)) /\
      trace w' = trace w ++ evs /\ received evs = Rr /\
      Forall (collect_event devs m ids) evs /\
      np_random w' = np_random w /\ torch_random w' = torch_random w.
Proof.
  intros Hnd Hlt clock.
  induction clock as [|b clock IH]; intros Cr w Hsched Hph HndC Hsub Hcov.
  - (* nothing more will happen: every selected device has reported *)
    assert (forall i, i ∈ ids -> i ∈ Cr.*1) as Hall.
    { intros i Hi. destruct (Hcov i Hi) as [|Hin]; [done|].
      by apply elem_of_nil in Hin. }
    assert (Cr.*1 ≡ₚ ids) as Hperm.
    { apply (anti_symm submseteq); by apply NoDup_submseteq. }
    exists [], w, [], []. rewrite !app_nil_r. split_and!; try done.
    + cbn [collect_loop snd]. rewrite losses_len, in_round_len.
      rewrite decide_True; [done|].
      by rewrite <- (Permutation_length Hperm), length_fmap.
    + eapply in_phase_ext; [|exact Hph]. intros j _. unfold sel_phase.
      rewrite decide_False; [done|]. intros [Hj Hn]. by apply Hn, Hall.
    + intros u b' Hu. by destruct u.
  - cbn [collect_loop snd]. rewrite losses_len, in_round_len.
    destruct (decide (length Cr = length ids)) as [Hlen|Hlen].
    + assert (Cr.*1 ≡ₚ ids) as Hperm
        by (apply all_received; [done..|by rewrite length_fmap]).
      exists [], w, [], []. rewrite !app_nil_r. split_and!; try done.
      * eapply in_phase_ext; [|exact Hph]. intros j _. unfold sel_phase.
        rewrite decide_False; [done|]. intros [Hj Hn].
        apply Hn. by rewrite Hperm.
      * intros u b' Hu. by destruct u.
    + destruct (collect_turn m ids b clock Cr w Hnd Hlt Hsched Hph)
        as (Rr1 & w1 & evs1 & Hrun1 & HRr1 & Hok1 & Hph1 & Hsc1 & Htr1 & Hrcv1
            & Hev1 & Hnp1 & Hto1).
      assert (forall i, i ∈ Rr1.*1 <-> (i ∈ b /\ i ∉ Cr.*1) /\ i ∈ ids) as HinR
        by (intros i; rewrite HRr1, list_elem_of_filter; tauto).
      destruct (IH (Cr ++ Rr1) w1 Hsc1 Hph1)
        as (Rr2 & w' & used & evs2 & Hrun2 & Hperm & Hok2 & Hph2 & Hused
            & Hin2 & Hmin & Htr2 & Hrcv2 & Hev2 & Hnp2 & Hto2).
      * rewrite fmap_app. apply NoDup_app. split_and!; [done| |].
        -- intros i Hi [[_ Hn] _]%HinR. done.
        -- rewrite HRr1. by apply NoDup_filter.
      * intros i. rewrite fmap_app, elem_of_app. intros [?|Hi]; [auto|].
        by apply HinR in Hi as [_ ?].
      * intros i Hi. rewrite fmap_app, elem_of_app.
        destruct (Hcov i Hi) as [|Hin]; [auto|].
        cbn [mjoin list_join] in Hin. apply elem_of_app in Hin as [Hib|]; [|auto].
        destruct (decide (i ∈ Cr.*1)); [auto|].
        left. right. by apply HinR.
      * exists (Rr1 ++ Rr2), w', (b :: used), (evs1 ++ evs2).
        split_and!.
        -- unfold bind at 1. unfold bind in Hrun1.
           destruct (wait _ w) as [ready w0| |]; [|done..].
           unfold bind at 1. rewrite Hrun1, Hrun2. by rewrite <- !app_assoc.
        -- by rewrite app_assoc.
        -- by apply Forall_app.
        -- done.
        -- by rewrite Hused.
        -- intros i. rewrite fmap_app, elem_of_app.
           cbn [mjoin list_join]. rewrite elem_of_app.
           intros [Hi|Hi]; [left; apply HinR in Hi; tauto|right; auto].
        -- intros u b' Hu. destruct u as [|b0 u]; simplify_eq/=.
           ++ destruct (some_missing ids Cr.*1) as (i & ? & ?); [done..| |].
              { by rewrite length_fmap. }
              exists i. split_and!; [done..|]. apply not_elem_of_nil.
           ++ destruct (Hmin u b' eq_refl) as (i & Hi & HiC & Hiu).
              rewrite fmap_app, elem_of_app in HiC.
              exists i. split_and!; [done|tauto|].
              rewrite elem_of_app. intros [Hib|]; [|done].
              apply HiC. right. apply HinR. tauto.
        -- by rewrite Htr2, Htr1, app_assoc.
        -- unfold received in *. by rewrite omap_app, Hrcv1, Hrcv2.
        -- by apply Forall_app.
        -- by rewrite Hnp2.
        -- by rewrite Hto2.
Qed.

Lemma collect_loop_blocks m ids :
  NoDup ids -> (forall i, i ∈ ids -> i < n) ->
  forall clock Cr w,
    scheduler w = clock ->
    in_phase devs m (sel_phase ids Cr.*1) w ->
    NoDup Cr.*1 -> (forall i, i ∈ Cr.*1 -> i ∈ ids) ->
    (exists i, i ∈ ids /\ (i ∉ Cr.*1) /\ (i ∉ mjoin clock)) ->
    exists w' evs,
      collect_loop clock (class_to_idx d) (in_round_of ids)
                   (models_of Cr, losses_of Cr) w
      = Blocked w' /\
      trace w' = trace w ++ evs /\
      Forall (collect_event devs m ids) evs.
Proof.
  intros Hnd Hlt clock.
  induction clock as [|b clock IH]; intros Cr w Hsched Hph HndC Hsub Hmiss;
    cbn [collect_loop snd]; rewrite losses_len, in_round_len;
    (rewrite decide_False;
     [|destruct Hmiss as (i & Hi & HiC & _); intros Hlen; apply HiC;
       rewrite (all_received ids Cr.*1); [done..|by rewrite length_fmap]]).
  - exists w, []. by rewrite app_nil_r.
  - destruct (collect_turn m ids b clock Cr w Hnd Hlt Hsched Hph)
      as (Rr1 & w1 & evs1 & Hrun1 & HRr1 & Hok1 & Hph1 & Hsc1 & Htr1 & Hrcv1
          & Hev1 & Hnp1 & Hto1).
    assert (forall i, i ∈ Rr1.*1 <-> (i ∈ b /\ i ∉ Cr.*1) /\ i ∈ ids) as HinR
      by (intros i; rewrite HRr1, list_elem_of_filter; tauto).
    destruct (IH (Cr ++ Rr1) w1 Hsc1 Hph1) as (w' & evs2 & Hrun2 & Htr2 & Hev2).
    + rewrite fmap_app. apply NoDup_app. split_and!; [done| |].
      * intros i Hi [[_ Hn] _]%HinR. done.
      * rewrite HRr1. by apply NoDup_filter.
    + intros i. rewrite fmap_app, elem_of_app. intros [?|Hi]; [auto|].
      by apply HinR in Hi as [_ ?].
    + destruct Hmiss as (i & Hi & HiC & Hib). exists i.
      cbn [mjoin list_join] in Hib. rewrite elem_of_app in Hib.
      split_and!; [done| |tauto].
      rewrite fmap_app, elem_of_app. intros [?|HiR]; [done|].
      apply HinR in HiR. tauto.
    + exists w', (evs1 ++ evs2). split_and!.
      * unfold bind at 1. unfold bind in Hrun1.
        destruct (wait _ w) as [ready w0| |]; [|done..].
        unfold bind at 1. by rewrite Hrun1, Hrun2.
      * by rewrite Htr2, Htr1, app_assoc.
      * by apply Forall_app.
Qed.

End CollectFacts.

(** ** A round *)

Section RoundFacts.
Context `{Laws : ExternalLaws}.
Context (d : CIFAR10) (s : Settings) (Hwf : wf_dataset d).

Local Abbreviation devs := (devices d s Running).
Local Abbreviation n := (length (classes d)).

Lemma sel_phase_nil i : sel_phase [] [] i = Empty.
Proof.
  unfold sel_phase. rewrite decide_False; [done|].
  intros [Hi _]. by apply elem_of_nil in Hi.
Qed.

(** Up to the end of the collecting loop. *)
Lemma round_collects m w :
  quiescent d s w ->
  (0 <= MAX_USERS_IN_ROUND <= Z.of_nat n)%Z ->
  (forall i, i ∈ draw n MAX_USERS_IN_ROUND (np_random w) ->
             i ∈ mjoin (scheduler w)) ->
  exists w' coll used,
    (let* in_round := select_round n (roster n) in
     dispatch (invert (class_to_idx d)) in_round m ;;
     collect (class_to_idx d) in_round ([], [])) w
    = Returned (models_of (received coll), losses_of (received coll)) w' /\
    quiescent d s w' /\
    trace w' = trace w ++
      EvChoice (draw n MAX_USERS_IN_ROUND (np_random w)) ::
      dispatch_events (classes d) m (draw n MAX_USERS_IN_ROUND (np_random w))
      ++ coll /\
    Forall (collect_event devs m (draw n MAX_USERS_IN_ROUND (np_random w))) coll /\
    (received coll).*1 ≡ₚ draw n MAX_USERS_IN_ROUND (np_random w) /\
    Forall (fun ir => exists dev, devs !! ir.1 = Some dev /\
                                  ir.2 = trained m dev) (received coll) /\
    scheduler w = used ++ scheduler w' /\
    first_covering (draw n MAX_USERS_IN_ROUND (np_random w)) used /\
    np_random w' = (permutation n (np_random w)).2 /\
    torch_random w' = torch_random w.
Proof.
  intros Hq Hk Hcov.
  set (ids := draw n MAX_USERS_IN_ROUND (np_random w)) in *.
  set (w1 := log (EvChoice ids)
                 (set_np_random (permutation n (np_random w)).2 w)).
  assert (NoDup ids) as Hnd by apply draw_NoDup.
  assert (forall i, i ∈ ids -> i < n) as Hlt by apply draw_lt.
  assert (in_phase devs m (sel_phase [] []) w1) as Hph1.
  { apply (quiescent_in_phase d s m) in Hq.
    apply (in_phase_ext d s m (fun _ => Empty)).
    - intros. by rewrite sel_phase_nil.
    - destruct Hq as (? & ? & ?). by split_and!. }
  destruct (dispatch_loop d s Hwf m [] ids w1 Hph1 Hnd Hlt)
    as (w2 & Hdisp & Hph2 & Htr2 & Hnp2 & Hsc2 & Hto2).
  destruct (collect_loop_returns d s Hwf m ids Hnd Hlt (scheduler w2) [] w2)
    as (Rr & w3 & used & coll & Hcoll & Hperm & Hok & Hph3 & Hused & Hin & Hmin
        & Htr3 & Hrcv & Hev & Hnp3 & Hto3).
  { done. }
  { done. }
  { apply NoDup_nil_2. }
  { intros i Hi. by apply elem_of_nil in Hi. }
  { intros i Hi. right. rewrite Hsc2. by apply Hcov. }
  exists w3, coll, used. split_and!.
  - unfold bind at 1. rewrite select_round_ok by done. fold ids. fold w1.
    unfold bind at 1. rewrite Hdisp. unfold collect.
    etrans; [apply Hcoll|]. by rewrite Hrcv.
  - by apply (quiescent_in_phase d s m).
  - rewrite Htr3, Htr2. subst w1. cbn [trace log set_np_random].
    by rewrite <- !app_assoc.
  - done.
  - by rewrite Hrcv.
  - by rewrite Hrcv.
  - rewrite <- Hused. by rewrite Hsc2.
  - split.
    + intros i Hi. apply Hin. simpl. by rewrite Hperm.
    + intros u b Hu. destruct (Hmin u b Hu) as (i & ? & _ & ?). eauto.
  - by rewrite Hnp3, Hnp2.
  - by rewrite Hto3, Hto2.
Qed.

Lemma round_returns i_epoch m w :
  quiescent d s w ->
  averaging_total ->
  (1 <= MAX_USERS_IN_ROUND <= Z.of_nat n)%Z ->
  (forall i, i ∈ draw n MAX_USERS_IN_ROUND (np_random w) ->
             i ∈ mjoin (scheduler w)) ->
  exists m' w' coll used,
    round d (invert (class_to_idx d)) (roster n) i_epoch m w = Returned m' w' /\
    quiescent d s w' /\
    trace w' = trace w ++
      round_events (classes d) i_epoch m
                   (draw n MAX_USERS_IN_ROUND (np_random w)) coll /\
    round_trace d s i_epoch m m'
      (round_events (classes d) i_epoch m
                    (draw n MAX_USERS_IN_ROUND (np_random w)) coll) /\
    Forall (collect_event devs m (draw n MAX_USERS_IN_ROUND (np_random w)))
           coll /\
    scheduler w = used ++ scheduler w' /\
    first_covering (draw n MAX_USERS_IN_ROUND (np_random w)) used /\
    np_random w' = (permutation n (np_random w)).2 /\
    torch_random w' = torch_random w.
Proof.
  intros Hq Havg Hk Hcov.
  destruct (round_collects m w Hq ltac:(lia) Hcov)
    as (w1 & coll & used & Hrun & Hq1 & Htr1 & Hev & Hperm & Hok & Hused
        & Hfirst & Hnp & Hto).
  set (ids := draw n MAX_USERS_IN_ROUND (np_random w)) in *.
  assert (length ids = Z.to_nat MAX_USERS_IN_ROUND) as Hlen
    by (apply draw_length; lia).
  assert (length (received coll) = length ids) as Hlen'
    by (by rewrite <- (Permutation_length Hperm), length_fmap).
  assert (Dict.values (models_of (received coll)) = averaged coll) as Hvals.
  { unfold Dict.values, models_of, averaged.
    by rewrite <- list_fmap_compose. }
  assert (Dict.values (losses_of (received coll)) = reported_losses coll)
    as Hlosses.
  { unfold Dict.values, losses_of, reported_losses.
    by rewrite <- list_fmap_compose. }
  destruct (Havg (averaged coll)) as [m' Hm'].
  { intros Hnil. apply (f_equal length) in Hnil.
    unfold averaged in Hnil. rewrite length_fmap in Hnil. simpl in Hnil. lia. }
  exists m', (log (EvPrintRound i_epoch (mean (reported_losses coll)))
               (log (EvAveraging (averaged coll)) w1)), coll, used.
  split_and!; try done.
  - unfold round.
    unfold bind at 1. unfold bind at 1.
    unfold bind in Hrun. 
    destruct (select_round n (roster n) w) as [in_round w0| |]; [|done..].
    unfold bind at 1.
    destruct (dispatch _ in_round m w0) as [[] w0'| |]; [|done..].
    rewrite Hrun. unfold bind at 1. unfold emit at 1.
    rewrite Hvals. unfold bind at 1.
    rewrite (lookup_or_some _ _ m') by done.
    unfold bind at 1. rewrite losses_len.
    rewrite decide_False by lia.
    unfold ret at 1. unfold bind at 1. unfold emit at 1. unfold ret.
    rewrite Hlosses. unfold mean, sum, reported_losses.
    by rewrite length_fmap.
  - cbn [trace log]. rewrite Htr1. unfold round_events.
    rewrite <- !app_assoc. simpl. by rewrite <- !app_assoc.
  - exists ids, coll. split_and!; try done.
    + apply draw_NoDup.
    + apply draw_lt.
Qed.

Lemma choices_app evs1 evs2 :
  choices (evs1 ++ evs2) = choices evs1 ++ choices evs2.
Proof. apply omap_app. Qed.

Lemma choices_dispatch_events cs m ids :
  choices (dispatch_events cs m ids) = [].
Proof.
  unfold dispatch_events. induction ids as [|i ids IH]; [done|].
  rewrite bind_cons, choices_app, IH. by destruct (cs !! i).
Qed.

Lemma choices_collect m ids coll :
  Forall (collect_event devs m ids) coll -> choices coll = [].
Proof.
  induction 1 as [|e coll He _ IH]; [done|].
  destruct e; try done; exact IH.
Qed.

Lemma choices_round_events i_epoch m ids coll :
  Forall (collect_event devs m ids) coll ->
  choices (round_events (classes d) i_epoch m ids coll) = [ids].
Proof.
  intros Hcoll. unfold round_events.
  change (choices (EvChoice ids :: ?l)) with (ids :: choices l).
  by rewrite !choices_app, choices_dispatch_events, (choices_collect m ids).
Qed.

End RoundFacts.

(** ** Schedules *)

Section FairFacts.

Lemma fair_prepend n r x post : fair n r post -> fair n r (x ++ post).
Proof.
  destruct r as [|r]; [done|]. simpl.
  intros (pre & post' & -> & Hcov & Hfair).
  exists (x ++ pre), post'. split_and!; [by rewrite app_assoc| |done].
  intros i Hi. apply list_elem_of_join. specialize (Hcov i Hi).
  apply list_elem_of_join in Hcov as (l & ? & ?).
  exists l. split; [done|]. apply elem_of_app. by right.
Qed.

Lemma fair_covers n r sched i :
  fair n (S r) sched -> i < n -> i ∈ mjoin sched.
Proof.
  simpl. intros (pre & post & -> & Hcov & _) Hi.
  specialize (Hcov i Hi). apply list_elem_of_join in Hcov as (l & ? & ?).
  apply list_elem_of_join. exists l. split; [done|].
  apply elem_of_app. by left.
Qed.

Lemma fair_after n r sched used rest ids :
  fair n (S r) sched -> sched = used ++ rest ->
  first_covering ids used -> (forall i, i ∈ ids -> i < n) ->
  fair n r rest.
Proof.
  simpl. intros (pre & post & -> & Hcov & Hfair) Heq [_ Hmin] Hlt.
  apply app_eq_inv in Heq as [(k & -> & ->)|(k & -> & ->)].
  - by apply fair_prepend.
  - destruct k as [|b k _] using rev_ind; [done|].
    exfalso. destruct (Hmin (pre ++ k) b) as (i & Hi & Hn).
    { by rewrite app_assoc. }
    apply Hn. specialize (Hcov i (Hlt _ Hi)).
    apply list_elem_of_join in Hcov as (l & ? & ?).
    apply list_elem_of_join. exists l. split; [done|].
    apply elem_of_app. by left.
Qed.

End FairFacts.

(** ** The whole run *)

Section RunFacts.
Context `{Laws : ExternalLaws}.
Context (d : CIFAR10) (s : Settings) (Hwf : wf_dataset d).

Local Abbreviation devs := (devices d s Running).
Local Abbreviation n := (length (classes d)).

Lemma rounds_return r :
  forall i m w,
    quiescent d s w ->
    (r <> 0 -> averaging_total /\
               (1 <= MAX_USERS_IN_ROUND <= Z.of_nat n)%Z) ->
    fair n r (scheduler w) ->
    exists m' w' evs,
      for_each (seq i r)
        (fun i_epoch model =>
           round d (invert (class_to_idx d)) (roster n) i_epoch model) m w
      = Returned m' w' /\
      quiescent d s w' /\
      trace w' = trace w ++ evs /\
      rounds_trace d s i r m m' evs /\
      choices evs = draws n MAX_USERS_IN_ROUND r (np_random w) /\
      torch_random w' = torch_random w.
Proof.
  induction r as [|r IH]; intros i m w Hq Hr Hfair.
  - exists m, w, []. rewrite app_nil_r. by split_and!.
  - destruct Hr as [Havg Hk]; [done|].
    destruct (round_returns d s Hwf i m w Hq Havg Hk)
      as (m1 & w1 & coll & used & Hrun1 & Hq1 & Htr1 & Hrt1 & Hcoll1 & Hused
          & Hfirst & Hnp1 & Hto1).
    { intros j Hj. eapply fair_covers; [exact Hfair|]. by eapply draw_lt. }
    destruct (IH (S i) m1 w1 Hq1)
      as (m' & w' & evs & Hrun & Hq' & Htr & Hrt & Hch & Hto).
    { auto. }
    { eapply fair_after; [exact Hfair|exact Hused|exact Hfirst|].
      intros j Hj. by eapply draw_lt. }
    exists m', w', (round_events (classes d) i m
                      (draw n MAX_USERS_IN_ROUND (np_random w)) coll ++ evs).
    split_and!.
    + cbn [seq for_each]. unfold bind at 1. by rewrite Hrun1.
    + done.
    + by rewrite Htr, Htr1, app_assoc.
    + cbn [rounds_trace]. eexists m1, _, evs. by split_and!.
    + rewrite choices_app, Hch, Hnp1.
      by rewrite (choices_round_events d s i m _ coll Hcoll1).
    + by rewrite Hto.
Qed.

Lemma terminate_loop j :
  forall k w,
    k + j = n ->
    length (processes w) = n ->
    (forall i, processes w !! i
               = (fun dev => if decide (i < k) then set_status Signalled dev
                             else dev) <$> devs !! i) ->
    exists w',
      terminate_all (invert (class_to_idx d))
        ((fun i => (i, connection i)) <$> seq k j) w = Returned tt w' /\
      processes w' = devices d s Signalled /\
      pipes w' = pipes w /\
      trace w' = trace w ++
        (i ← seq k j;
         match classes d !! i with
         | Some c => [EvPrintTerminating c; EvTerminate i]
         | None => []
         end) /\
      np_random w' = np_random w /\ scheduler w' = scheduler w /\
      torch_random w' = torch_random w.
Proof.
  induction j as [|j IH]; intros k w Hkj Hlen Hprocs.
  - exists w. simpl. rewrite app_nil_r. split_and!; try done.
    apply list_eq. intros i. rewrite Hprocs.
    destruct (decide (i < n)) as [Hi|Hi].
    + destruct (devices_lookup_lt d s Running i Hi) as [dev Hdev].
      rewrite Hdev. simpl. rewrite decide_True by lia. symmetry.
      apply devices_lookup in Hdev as (c & sub & ? & ? & ->).
      apply devices_lookup. by exists c, sub.
    + rewrite !lookup_ge_None_2; [done|rewrite devices_length; lia..].
  - assert (k < n) as Hk by lia.
    destruct (lookup_lt_is_Some_2 (classes d) k Hk) as [c Hc].
    set (go := fun dev => match dev_status dev with
                          | Running => set_status Signalled dev
                          | _ => dev
                          end).
    set (w1 := log (EvTerminate k)
                   (set_processes (alter go k) (log (EvPrintTerminating c) w))).
    destruct (IH (S k) w1) as (w' & Hrun & Hp' & Hpipes & Htr & Hnp & Hsc & Hto).
    + lia.
    + subst w1. cbn [processes log set_processes]. by rewrite length_alter.
    + intros i. subst w1. cbn [processes log set_processes].
      rewrite list_lookup_alter, !Hprocs.
      destruct (devs !! i) as [dev|] eqn:Hdev; simpl.
      * destruct (devices_running d s i dev Hdev) as (Hst & _ & _).
        destruct (decide (k = i)) as [->|Hki]; rewrite ?Hdev; simpl.
        -- rewrite (decide_False (P := i < i)) by lia.
           rewrite (decide_True (P := i < S i)) by lia.
           unfold go. by rewrite Hst.
        -- f_equal. repeat case_decide; try done; lia.
      * case_decide; [subst; by rewrite Hdev|done].
    + exists w'. split_and!; try done.
      * unfold terminate_all. cbn [seq fmap list_fmap for_each].
        unfold bind at 1. unfold bind at 1. cbn [fst snd].
        rewrite (lookup_or_some _ _ c) by (by rewrite idx_to_class_lookup).
        unfold bind at 1. unfold emit at 1. unfold terminate at 1.
        cbn [process connection]. fold go. fold w1. exact Hrun.
      * rewrite Htr. subst w1. cbn [trace log set_processes].
        cbn [seq]. rewrite bind_cons, Hc. by rewrite <- !app_assoc.
Qed.

Lemma terminate_all_quiescent w :
  quiescent d s w ->
  exists w',
    terminate_all (invert (class_to_idx d)) (roster n) w = Returned tt w' /\
    processes w' = devices d s Signalled /\
    pipes w' = replicate n empty_pipe /\
    trace w' = trace w ++ shutdown_events (classes d) /\
    np_random w' = np_random w /\ scheduler w' = scheduler w /\
    torch_random w' = torch_random w.
Proof.
  intros [Hprocs Hpipes].
  destruct (terminate_loop n 0 w) as (w' & ? & ? & ? & ? & ? & ? & ?).
  - done.
  - by rewrite Hprocs, devices_length.
  - intros i. rewrite Hprocs. destruct (devices d s Running !! i); [|done].
    simpl. try case_decide; first [done | lia].
  - exists w'. split_and!; try done. congruence.
Qed.

Lemma train_federated_returns m w :
  fresh w ->
  (Z.to_nat (num_global_epochs s) <> 0 ->
   averaging_total /\ (1 <= MAX_USERS_IN_ROUND <= Z.of_nat n)%Z) ->
  fair n (Z.to_nat (num_global_epochs s)) (scheduler w) ->
  exists m' w' evs,
    train_federated m d s w = Returned m' w' /\
    trace w' = trace w ++ setup_events n ++ evs ++ shutdown_events (classes d) /\
    rounds_trace d s 0 (Z.to_nat (num_global_epochs s)) m m' evs /\
    choices evs
    = draws n MAX_USERS_IN_ROUND (Z.to_nat (num_global_epochs s))
            (np_random w) /\
    processes w' = devices d s Signalled /\
    pipes w' = replicate n empty_pipe /\
    torch_random w' = torch_random w.
Proof.
  intros Hfresh Hr Hfair.
  set (w1 := {| pipes := replicate n empty_pipe;
                processes := devices d s Running;
                np_random := np_random w; torch_random := torch_random w;
                scheduler := scheduler w;
                trace := trace w ++ setup_events n |}).
  assert (quiescent d s w1) as Hq1 by done.
  destruct (rounds_return _ 0 m w1 Hq1 Hr Hfair)
    as (m' & w2 & evs & Hrun & Hq2 & Htr2 & Hrt & Hch & Hto2).
  destruct (terminate_all_quiescent w2 Hq2)
    as (w3 & Hterm & Hprocs & Hpipes & Htr3 & _ & _ & Hto3).
  exists m', w3, evs. split_and!; try done.
  - unfold train_federated. unfold bind at 1.
    rewrite (create_devices_fresh d s w Hwf Hfresh). fold w1.
    unfold bind at 1. unfold range. rewrite Hrun.
    unfold bind at 1. by rewrite Hterm.
  - rewrite Htr3, Htr2. subst w1. cbn [trace]. by rewrite <- !app_assoc.
  - by rewrite Hto3, Hto2.
Qed.

End RunFacts.

(** ** The concrete instance *)

Section DemoFacts.
Import Demo.

#[export] Instance demo_laws k : ExternalLaws (Ext := external k).
Proof.
  split.
  - intros d n. simpl. by rewrite length_fmap, length_seq.
  - intros d. simpl. by rewrite length_fmap, length_seq.
Qed.

Lemma demo_wf : wf_dataset dataset.
Proof.
  split; [|done]. simpl.
  by apply (bool_decide_unpack _).
Qed.

Lemma demo_fresh np sched : fresh (boot np sched).
Proof. done. Qed.

Lemma demo_quiescent k np sched :
  quiescent (Ext := external k) dataset (settings 2) (ready k np sched).
Proof. done. Qed.

Lemma demo_averaging_total k : averaging_total (Ext := external k).
Proof. intros [|m ms] Hms; [done|]. simpl. eauto. Qed.

End DemoFacts.

(** ** The embedding at work *)

Section Examples.
Import Demo.
#[local] Existing Instance two.

(** The shuffle behind the draw, and two draws of two out of three. *)
Example permutation_of_five : (permutation 5 1%Z).1 = [4; 1; 0; 2; 3].
Proof. reflexivity. Qed.

Example draw_two_of_three : draw 3 2 1%Z = [1; 0] /\ draw 3 2 5%Z = [0; 2].
Proof. split; reflexivity. Qed.

(** The set-up of the three devices gives the roster and the world [ready]
    stands for. *)
Example setup_of_three :
  exists w,
    create_devices dataset (split dataset (settings 2))
                   (edge_settings (settings 2)) (boot 1 sched)
    = Returned (roster 3) w /\
    pipes w = pipes (ready 2 1 sched) /\
    processes w = processes (ready 2 1 sched) /\
    trace w = [EvPipe 0; EvStart 0; EvPipe 1; EvStart 1; EvPipe 2; EvStart 2].
Proof. eexists. split; [vm_compute; reflexivity|]. by split_and!. Qed.

(** The model goes to devices 1 and 0, in that order.  Whichever answers
    first, each result lands under the identity of the device that sent
    it, in the order of arrival. *)
Example results_in_order_of_dispatch :
  exists w,
    round_until_collected dataset (roster 3) 1%Q (ready 2 1 [[1]; [0]])
    = Returned ([(1, 3%Q); (0, 2%Q)], [(1, (1 # 2)%Q); (0, (1 # 2)%Q)]) w.
Proof. eexists. vm_compute. reflexivity. Qed.

Example results_in_reverse_order :
  exists w,
    round_until_collected dataset (roster 3) 1%Q (ready 2 1 [[0]; [1]])
    = Returned ([(0, 2%Q); (1, 3%Q)], [(0, (1 # 2)%Q); (1, (1 # 2)%Q)]) w.
Proof. eexists. vm_compute. reflexivity. Qed.

Example results_in_one_burst :
  exists w,
    round_until_collected dataset (roster 3) 1%Q (ready 2 1 [[2; 0; 1]])
    = Returned ([(1, 3%Q); (0, 2%Q)], [(1, (1 # 2)%Q); (0, (1 # 2)%Q)]) w.
Proof. eexists. vm_compute. reflexivity. Qed.

(** Device 1 never answers: the round is blocked, with the result of
    device 0 received and no averaging done. *)
Example round_blocked_by_a_silent_device :
  exists w,
    round dataset (invert (class_to_idx dataset)) (roster 3) 0 1%Q
          (ready 2 1 [[0]; [2]])
    = Blocked w /\
    trace w
    = [EvChoice [1; 0]; EvPrintSending "dog"; EvSend 1 1%Q;
       EvPrintSending "cat"; EvSend 0 1%Q;
       EvDeviceSend 0 {| name := "cat"; model := 2%Q; loss := (1 # 2)%Q |};
       EvRecv 0 {| name := "cat"; model := 2%Q; loss := (1 # 2)%Q |};
       EvPrintReceiving "cat"].
Proof. eexists. split; vm_compute; reflexivity. Qed.

(** A whole round: the average of the two models, the mean of the two
    losses. *)
Example a_round :
  exists w,
    round dataset (invert (class_to_idx dataset)) (roster 3) 0 1%Q
          (ready 2 1 [[0; 1]])
    = Returned (5 # 2)%Q w /\
    trace w
    = [EvChoice [1; 0]; EvPrintSending "dog"; EvSend 1 1%Q;
       EvPrintSending "cat"; EvSend 0 1%Q;
       EvDeviceSend 0 {| name := "cat"; model := 2%Q; loss := (1 # 2)%Q |};
       EvDeviceSend 1 {| name := "dog"; model := 3%Q; loss := (1 # 2)%Q |};
       EvRecv 1 {| name := "dog"; model := 3%Q; loss := (1 # 2)%Q |};
       EvPrintReceiving "dog";
       EvRecv 0 {| name := "cat"; model := 2%Q; loss := (1 # 2)%Q |};
       EvPrintReceiving "cat";
       EvAveraging [3%Q; 2%Q]; EvPrintRound 0 (1 # 2)%Q].
Proof. eexists. split; vm_compute; reflexivity. Qed.

End Examples.

(** * The claims *)

(** ** Selection *)

(** C2. For a roster of [R] devices, built by the set-up from a dataset of
    [R] classes, and a quorum size [k] with [1 <= k <= R], the draw of a
    round gives exactly [k] connections, under [k] distinct identities, each
    of them a key of the roster and bound to the connection the roster has
    for it. *)
Theorem selection_draws_quorum `{Laws : ExternalLaws} (d : CIFAR10)
    (s : Settings) (w0 w1 w : World)
    (device_connections : list (nat * EdgeDeviceConnection)) :
  wf_dataset d -> fresh w0 ->
  create_devices d (split d s) (edge_settings s) w0
  = Returned device_connections w1 ->
  (1 <= MAX_USERS_IN_ROUND <= Z.of_nat (length (classes d)))%Z ->
  Dict.len device_connections = length (classes d) /\
  exists in_round w',
    select_round (length (classes d)) device_connections w
    = Returned in_round w' /\
    Dict.len in_round = Z.to_nat MAX_USERS_IN_ROUND /\
    NoDup (Dict.keys in_round) /\
    forall i, i ∈ Dict.keys in_round ->
              i ∈ Dict.keys device_connections /\
              Dict.get i in_round = Dict.get i device_connections.
Proof.
  intros Hwf Hfresh Hcreate Hk.
  rewrite (create_devices_fresh d s w0 Hwf Hfresh) in Hcreate.
  injection Hcreate as <- _.
  split.
  { unfold Dict.len, roster. by rewrite length_fmap, length_seq. }
  eexists _, _. split; [apply select_round_ok; lia|].
  set (ids := draw _ _ _).
  assert (Dict.keys (in_round_of ids) = ids) as Hkeys
    by apply (dict_keys_fmap connection).
  split_and!.
  - rewrite in_round_len. apply draw_length. lia.
  - rewrite Hkeys. apply draw_NoDup.
  - intros i. rewrite Hkeys. intros Hi.
    pose proof (draw_lt _ _ _ _ Hi) as Hlt. split.
    + rewrite roster_keys. apply elem_of_seq. lia.
    + rewrite roster_lookup by done. by apply (dict_get_fmap connection).
Qed.

Lemma selection_draws_quorum_witness :
  Dict.len (roster 3) = length (classes Demo.dataset) /\
  exists in_round w',
    select_round (Ext := Demo.external 2) (length (classes Demo.dataset))
                 (roster 3) (Demo.boot 1 [])
    = Returned in_round w' /\
    Dict.len in_round = Z.to_nat 2 /\
    NoDup (Dict.keys in_round) /\
    forall i, i ∈ Dict.keys in_round ->
              i ∈ Dict.keys (roster 3) /\
              Dict.get i in_round = Dict.get i (roster 3).
Proof.
  eapply (selection_draws_quorum (Laws := demo_laws 2) Demo.dataset
            (Demo.settings 2) (Demo.boot 1 []) _ (Demo.boot 1 []) (roster 3)).
  - apply demo_wf.
  - apply demo_fresh.
  - reflexivity.
  - simpl. lia.
Defined.

(** C3, as the code has it.  The draw raises when the quorum size exceeds
    the size of the roster or is negative: numpy's [ValueError] when the
    size is an integer of 64 bits, its [OverflowError] when the size is
    [2^64] or more ([ValueError] again if the roster is empty).  The round
    then raises the same error and leaves the world as it found it: nothing
    is dispatched, trained or averaged.  A quorum size of 0 is not
    rejected, whatever the roster: the draw returns the empty selection,
    and the round goes on to call the averaging, on no model at all. *)
Theorem selection_rejects_bad_quorum `{Ext : External} (d : CIFAR10)
    (idx_to_class : list (nat * string))
    (device_connections : list (nat * EdgeDeviceConnection))
    (i_epoch : nat) (m : Model) (w : World) :
  let n := length (classes d) in
  let k := MAX_USERS_IN_ROUND in
  ((Z.of_nat n < k \/ k < 0)%Z ->
   exists e,
     select_round n device_connections w = Raised e w /\
     round d idx_to_class device_connections i_epoch m w = Raised e w /\
     (n = 0 \/ (- 2 ^ 63 <= k < 2 ^ 64)%Z -> exists msg, e = ValueError msg) /\
     (n <> 0 -> (2 ^ 64 <= k)%Z -> e = OverflowError)) /\
  (k = 0%Z ->
   let w1 := log (EvChoice [])
                 (set_np_random (permutation n (np_random w)).2 w) in
   select_round n device_connections w = Returned [] w1 /\
   round d idx_to_class device_connections i_epoch m w
   = Raised (match federated_averaging [] with
             | Some _ => ZeroDivisionError
             | None => AveragingError
             end)
       (log (EvAveraging []) w1)).
Proof.
  intros n k. subst n k. split.
  - intros Hk.
    destruct (np_random_choice_raises _ _ w Hk) as (e & Hrun & Hval & Hover).
    exists e.
    assert (select_round (length (classes d)) device_connections w
            = Raised e w) as Hsel
      by (unfold select_round, bind; by rewrite Hrun).
    split_and!; [done| |done..]. unfold round, bind at 1. by rewrite Hsel.
  - intros Hk w1.
    assert (select_round (length (classes d)) device_connections w
            = Returned [] w1) as Hsel.
    { unfold select_round, bind at 1.
      rewrite np_random_choice_ok by lia.
      unfold draw. by rewrite Hk. }
    split; [done|]. unfold round, bind at 1. rewrite Hsel.
    cbn [dispatch for_each]. unfold bind at 1. unfold ret at 1.
    unfold bind at 1. unfold collect.
    destruct (scheduler w1); cbn [collect_loop];
      (rewrite decide_True by done);
      unfold ret at 1; unfold bind at 1; unfold emit at 1;
      cbn [Dict.values fmap list_fmap];
      unfold bind at 1;
      (destruct (federated_averaging []) as [m'|]; cbn [lookup_or];
       [unfold ret at 1; unfold bind at 1;
        rewrite decide_True by done; done
       |done]).
Qed.

Lemma selection_rejects_bad_quorum_witness :
  exists e,
    select_round (Ext := Demo.external 4) (length (classes Demo.dataset))
                 (roster 3) (Demo.ready 4 1 [[0; 1; 2]])
    = Raised e (Demo.ready 4 1 [[0; 1; 2]]) /\
    round (Ext := Demo.external 4) Demo.dataset
          (invert (class_to_idx Demo.dataset)) (roster 3) 0 1%Q
          (Demo.ready 4 1 [[0; 1; 2]])
    = Raised e (Demo.ready 4 1 [[0; 1; 2]]) /\
    (length (classes Demo.dataset) = 0 \/ (- 2 ^ 63 <= 4 < 2 ^ 64)%Z ->
     exists msg, e = ValueError msg) /\
    (length (classes Demo.dataset) <> 0 -> (2 ^ 64 <= 4)%Z ->
     e = OverflowError).
Proof.
  apply (proj1 (selection_rejects_bad_quorum (Ext := Demo.external 4)
                  Demo.dataset (invert (class_to_idx Demo.dataset))
                  (roster 3) 0 1%Q (Demo.ready 4 1 [[0; 1; 2]]))).
  left. simpl. lia.
Defined.

(** The three ways the draw rejects a size, on a roster of three: too
    large, too large for an integer of 64 bits, and negative. *)
Example rejected_sizes :
  np_random_choice (Ext := Demo.two) 3 4 (Demo.boot 1 [])
  = Raised (ValueError
      "Cannot take a larger sample than population when 'replace=False'")
      (Demo.boot 1 []) /\
  np_random_choice (Ext := Demo.two) 3 (2 ^ 64) (Demo.boot 1 [])
  = Raised OverflowError (Demo.boot 1 []) /\
  np_random_choice (Ext := Demo.two) 3 (2 ^ 63) (Demo.boot 1 [])
  = Raised (ValueError "Negative dimensions are not allowed")
      (Demo.boot 1 []) /\
  np_random_choice (Ext := Demo.two) 3 (-1) (Demo.boot 1 [])
  = Raised (ValueError "Negative dimensions are not allowed")
      (Demo.boot 1 []).
Proof. split_and!; reflexivity. Qed.

(** C3 as stated fails at quorum size [0] on a roster of three: the draw
    returns the empty selection without an error, and the round goes on to
    call the averaging, on no model at all. *)
Lemma zero_quorum_is_not_rejected :
  (MAX_USERS_IN_ROUND (External := Demo.external 0) <= 0)%Z /\
  (exists w',
     select_round (Ext := Demo.external 0) 3 (roster 3)
                  (Demo.ready 0 1 [[0; 1; 2]]) = Returned [] w') /\
  ~ (exists e w',
       select_round (Ext := Demo.external 0) 3 (roster 3)
                    (Demo.ready 0 1 [[0; 1; 2]]) = Raised e w') /\
  (exists w',
     round (Ext := Demo.external 0) Demo.dataset
           (invert (class_to_idx Demo.dataset)) (roster 3) 0 1%Q
           (Demo.ready 0 1 [[0; 1; 2]])
     = Raised AveragingError w' /\
     trace w' = [EvChoice []; EvAveraging []]).
Proof.
  split_and!.
  - done.
  - eexists. vm_compute. reflexivity.
  - intros (e & w' & H). vm_compute in H. discriminate H.
  - eexists. split; vm_compute; reflexivity.
Qed.

(** ** Collecting *)

Section CollectClaim.
Context `{Laws : ExternalLaws}.
Context (d : CIFAR10) (s : Settings) (Hwf : wf_dataset d).

Local Abbreviation devs := (devices d s Running).
Local Abbreviation n := (length (classes d)).

Lemma dict_get_elem {V} (l : list (nat * V)) k v :
  NoDup l.*1 -> (k, v) ∈ l -> Dict.get k l = Some v.
Proof.
  induction l as [|[k' v'] l IH]; intros Hnd Hin.
  - by apply elem_of_nil in Hin.
  - rewrite fmap_cons in Hnd. apply NoDup_cons in Hnd as [Hk' Hnd].
    apply elem_of_cons in Hin as [[= <- <-]|Hin]; simpl.
    + by rewrite decide_True.
    + rewrite decide_False; [by apply IH|].
      intros ->. apply Hk'. apply list_elem_of_fmap. by exists (k', v).
Qed.

Lemma received_answers m (rs : list (nat * EdgeDeviceResult)) ids :
  rs.*1 ≡ₚ ids ->
  Forall (fun ir => exists dev, devs !! ir.1 = Some dev /\
                                ir.2 = trained m dev) rs ->
  rs.*2 ≡ₚ answers d s m ids.
Proof.
  intros Hperm Hok. unfold answers. rewrite <- Hperm. clear Hperm.
  induction Hok as [|[i r] rs (dev & Hdev & Hr) _ IH]; [done|].
  simpl in *. rewrite Hdev. simpl. subst r. by rewrite IH.
Qed.

Lemma round_as_continuation dc i_epoch m w :
  round d (invert (class_to_idx d)) dc i_epoch m w
  = (let* locals := round_until_collected d dc m in
     emit (EvAveraging (Dict.values (fst locals))) ;;
     let* model :=
       lookup_or AveragingError
                 (federated_averaging (Dict.values (fst locals))) in
     let* loss_avg :=
       (if decide (Dict.len (snd locals) = 0) then raise ZeroDivisionError
        else ret (float_div (sum (Dict.values (snd locals)))
                            (float_of_Z (Z.of_nat (Dict.len (snd locals)))))) in
     emit (EvPrintRound i_epoch loss_avg) ;;
     ret model) w.
Proof.
  unfold round, round_until_collected, bind.
  destruct (select_round _ dc w) as [in_round w1| |]; [|done..].
  destruct (dispatch _ in_round m w1) as [[] w2| |]; [|done..].
  by destruct (collect _ in_round _ w2) as [[lm ll] w3| |].
Qed.

Lemma averaging_follows_collect dc i_epoch m w lm ll w1 :
  round_until_collected d dc m w = Returned (lm, ll) w1 ->
  exists rest,
    trace (outcome_world (round d (invert (class_to_idx d)) dc i_epoch m w))
    = trace w1 ++ EvAveraging (Dict.values lm) :: rest.
Proof.
  intros Hrun. rewrite round_as_continuation. unfold bind at 1.
  rewrite Hrun. cbn [fst snd]. unfold bind, emit, lookup_or, raise, ret.
  destruct (federated_averaging (Dict.values lm)) as [m'|];
    [|by exists []].
  destruct (decide (Dict.len ll = 0)); simpl; [by exists []|].
  rewrite <- app_assoc. by eexists.
Qed.

Lemma round_ends_as_averaging dc i_epoch m w lm ll w1 :
  round_until_collected d dc m w = Returned (lm, ll) w1 ->
  round d (invert (class_to_idx d)) dc i_epoch m w
  = match federated_averaging (Dict.values lm) with
    | None => Raised AveragingError (log (EvAveraging (Dict.values lm)) w1)
    | Some m' =>
        if decide (Dict.len ll = 0) then
          Raised ZeroDivisionError (log (EvAveraging (Dict.values lm)) w1)
        else
          Returned m'
            (log (EvPrintRound i_epoch
                    (float_div (sum (Dict.values ll))
                       (float_of_Z (Z.of_nat (Dict.len ll)))))
               (log (EvAveraging (Dict.values lm)) w1))
    end.
Proof.
  intros Hrun. rewrite round_as_continuation. unfold bind at 1.
  rewrite Hrun. cbn [fst snd]. unfold bind, emit, lookup_or, raise, ret.
  destruct (federated_averaging (Dict.values lm)) as [m'|]; [|done].
  by destruct (decide (Dict.len ll = 0)).
Qed.

Lemma blocked_collect_blocks_round dc i_epoch m w w' :
  round_until_collected d dc m w = Blocked w' ->
  round d (invert (class_to_idx d)) dc i_epoch m w = Blocked w'.
Proof.
  intros Hrun. rewrite round_as_continuation. unfold bind at 1.
  by rewrite Hrun.
Qed.

Lemma round_collects_blocks m w :
  quiescent d s w ->
  (0 <= MAX_USERS_IN_ROUND <= Z.of_nat n)%Z ->
  (exists i, i ∈ draw n MAX_USERS_IN_ROUND (np_random w) /\
             i ∉ mjoin (scheduler w)) ->
  exists w' coll,
    round_until_collected d (roster n) m w = Blocked w' /\
    trace w' = trace w ++
      EvChoice (draw n MAX_USERS_IN_ROUND (np_random w)) ::
      dispatch_events (classes d) m (draw n MAX_USERS_IN_ROUND (np_random w))
      ++ coll /\
    Forall (collect_event devs m (draw n MAX_USERS_IN_ROUND (np_random w))) coll.
Proof.
  intros Hq Hk Hmiss.
  set (ids := draw n MAX_USERS_IN_ROUND (np_random w)) in *.
  set (w1 := log (EvChoice ids)
                 (set_np_random (permutation n (np_random w)).2 w)).
  assert (NoDup ids) as Hnd by apply draw_NoDup.
  assert (forall i, i ∈ ids -> i < n) as Hlt by apply draw_lt.
  assert (in_phase devs m (sel_phase [] []) w1) as Hph1.
  { apply (quiescent_in_phase d s m) in Hq.
    apply (in_phase_ext d s m (fun _ => Empty)).
    - intros. by rewrite sel_phase_nil.
    - destruct Hq as (? & ? & ?). by split_and!. }
  destruct (dispatch_loop d s Hwf m [] ids w1 Hph1 Hnd Hlt)
    as (w2 & Hdisp & Hph2 & Htr2 & Hnp2 & Hsc2 & Hto2).
  destruct (collect_loop_blocks d s Hwf m ids Hnd Hlt (scheduler w2) [] w2)
    as (w3 & coll & Hcoll & Htr3 & Hev).
  { done. }
  { done. }
  { apply NoDup_nil_2. }
  { intros i Hi. by apply elem_of_nil in Hi. }
  { destruct Hmiss as (i & Hi & Hn). exists i. split_and!; [done| |].
    - apply not_elem_of_nil.
    - by rewrite Hsc2. }
  exists w3, coll. split_and!; [|by
    rewrite Htr3, Htr2; subst w1; cbn [trace log set_np_random];
    rewrite <- !app_assoc|done].
  unfold round_until_collected, bind at 1.
  rewrite select_round_ok by done. fold ids. fold w1.
  unfold bind at 1. rewrite Hdisp. unfold collect. exact Hcoll.
Qed.

End CollectClaim.

(** C1. In a round, once the model is dispatched, the coordinator stays in
    its collecting loop for as long as a selected device has yet to run: if
    one of them never does, the round is blocked for ever.  If every one of
    them does, in whatever order and in whatever bursts, the loop ends
    exactly with the burst that brings the last missing result (it uses the
    shortest stretch of the schedule in which every selected device has
    run); each selected identity is then a key of [local_models] and of
    [local_losses], bound to the model and the loss of that device's own
    result; and the averaging is called on the values of [local_models],
    which are the models of the selected devices' answers, each once: the
    round ends as that call decides, with the exception of the averaging
    if it raises, and with the model it gives if it gives one (after the
    report of the mean loss, which divides by [len(local_losses)]). *)
Theorem collect_waits_for_every_selected_worker `{Laws : ExternalLaws}
    (d : CIFAR10) (s : Settings) (i_epoch : nat) (m : Model) (w : World) :
  wf_dataset d -> quiescent d s w ->
  (0 <= MAX_USERS_IN_ROUND <= Z.of_nat (length (classes d)))%Z ->
  let n := length (classes d) in
  let ids := draw n MAX_USERS_IN_ROUND (np_random w) in
  ((exists i, i ∈ ids /\ i ∉ mjoin (scheduler w)) ->
   exists w',
     round_until_collected d (roster n) m w = Blocked w' /\
     round d (invert (class_to_idx d)) (roster n) i_epoch m w = Blocked w') /\
  ((forall i, i ∈ ids -> i ∈ mjoin (scheduler w)) ->
   exists local_models local_losses w1 used rest,
     round_until_collected d (roster n) m w
     = Returned (local_models, local_losses) w1 /\
     scheduler w = used ++ scheduler w1 /\
     first_covering ids used /\
     Dict.keys local_models ≡ₚ ids /\
     Dict.keys local_losses ≡ₚ ids /\
     (forall i dev,
        i ∈ ids -> devices d s Running !! i = Some dev ->
        Dict.get i local_models = Some (model (trained m dev)) /\
        Dict.get i local_losses = Some (loss (trained m dev))) /\
     Dict.values local_models ≡ₚ model <$> answers d s m ids /\
     trace (outcome_world
              (round d (invert (class_to_idx d)) (roster n) i_epoch m w))
     = trace w1 ++ EvAveraging (Dict.values local_models) :: rest /\
     round d (invert (class_to_idx d)) (roster n) i_epoch m w
     = match federated_averaging (Dict.values local_models) with
       | None =>
           Raised AveragingError
             (log (EvAveraging (Dict.values local_models)) w1)
       | Some m' =>
           if decide (Dict.len local_losses = 0) then
             Raised ZeroDivisionError
               (log (EvAveraging (Dict.values local_models)) w1)
           else
             Returned m'
               (log (EvPrintRound i_epoch
                       (float_div (sum (Dict.values local_losses))
                          (float_of_Z (Z.of_nat (Dict.len local_losses)))))
                  (log (EvAveraging (Dict.values local_models)) w1))
       end).
Proof.
  intros Hwf Hq Hk n ids. split.
  - intros Hmiss.
    destruct (round_collects_blocks d s Hwf m w Hq Hk Hmiss)
      as (w' & coll & Hrun & _).
    exists w'. split; [done|]. by apply blocked_collect_blocks_round.
  - intros Hcov.
    destruct (round_collects d s Hwf m w Hq Hk Hcov)
      as (w1 & coll & used & Hrun & Hq1 & Htr1 & Hev & Hperm & Hok & Hused
          & Hfirst & Hnp & Hto).
    fold n in Hrun, Hperm, Hfirst, Hev. fold ids in Hperm, Hfirst, Hev.
    destruct (averaging_follows_collect d (roster n) i_epoch m w _ _ _ Hrun)
      as [rest Hrest].
    assert (NoDup (received coll).*1) as Hnd
      by (rewrite Hperm; apply draw_NoDup).
    exists (models_of (received coll)), (losses_of (received coll)), w1,
      used, rest.
    split_and!; try done.
    + unfold Dict.keys, models_of. by rewrite <- list_fmap_compose.
    + unfold Dict.keys, losses_of. by rewrite <- list_fmap_compose.
    + intros i dev Hi Hdev. rewrite <- Hperm in Hi.
      apply list_elem_of_fmap in Hi as ([i' r] & -> & Hin). simpl in *.
      pose proof (proj1 (Forall_forall _ _) Hok _ Hin)
        as (dev' & Hdev' & Hr). simpl in *.
      assert (dev' = dev) as -> by congruence. subst r. split.
      * apply dict_get_elem.
        -- unfold models_of. by rewrite <- list_fmap_compose.
        -- apply list_elem_of_fmap. by exists (i', trained m dev).
      * apply dict_get_elem.
        -- unfold losses_of. by rewrite <- list_fmap_compose.
        -- apply list_elem_of_fmap. by exists (i', trained m dev).
    + unfold Dict.values, models_of. rewrite <- list_fmap_compose.
      rewrite <- (received_answers d s m _ ids Hperm Hok).
      by rewrite <- list_fmap_compose.
    + by apply round_ends_as_averaging.
Qed.

(** ** The shape of a round *)

Section ShapeFacts.
Context `{Laws : ExternalLaws}.
Context (d : CIFAR10) (s : Settings) (Hwf : wf_dataset d).

Local Abbreviation devs := (devices d s Running).
Local Abbreviation n := (length (classes d)).

Lemma dispatch_events_elem cs m ids e :
  e ∈ dispatch_events cs m ids <->
  exists i c, i ∈ ids /\ cs !! i = Some c /\
              (e = EvPrintSending c \/ e = EvSend i m).
Proof.
  unfold dispatch_events. rewrite list_elem_of_bind. split.
  - intros (i & He & Hi). destruct (cs !! i) as [c|] eqn:Hc.
    + exists i, c. split_and!; [done..|].
      apply elem_of_cons in He as [->|He]; [by left|].
      apply list_elem_of_singleton in He as ->. by right.
    + by apply elem_of_nil in He.
  - intros (i & c & Hi & Hc & He). exists i. split; [|done].
    rewrite Hc. destruct He as [-> | ->]; [left|right; left].
Qed.

Lemma tail_follows_collect dc i_epoch m w lm ll w1 :
  round_until_collected d dc m w = Returned (lm, ll) w1 ->
  exists tail,
    trace (outcome_world (round d (invert (class_to_idx d)) dc i_epoch m w))
    = trace w1 ++ tail /\
    Forall (fun e => (exists ms, e = EvAveraging ms) \/
                     (exists l, e = EvPrintRound i_epoch l)) tail.
Proof.
  intros Hrun. rewrite (round_as_continuation d). unfold bind at 1.
  rewrite Hrun. cbn [fst snd]. unfold bind, emit, lookup_or, raise, ret.
  destruct (federated_averaging (Dict.values lm)) as [m'|].
  - destruct (decide (Dict.len ll = 0)); simpl.
    + eexists [_]. split; [done|]. apply Forall_singleton. eauto.
    + eexists [_; _]. rewrite <- app_assoc. split; [done|].
      repeat (apply Forall_cons; split; [eauto|]). done.
  - eexists [_]. split; [done|]. apply Forall_singleton. eauto.
Qed.

Lemma round_shape i_epoch m w :
  quiescent d s w ->
  (0 <= MAX_USERS_IN_ROUND <= Z.of_nat n)%Z ->
  exists coll tail,
    trace (outcome_world
             (round d (invert (class_to_idx d)) (roster n) i_epoch m w))
    = trace w ++
      EvChoice (draw n MAX_USERS_IN_ROUND (np_random w)) ::
      dispatch_events (classes d) m (draw n MAX_USERS_IN_ROUND (np_random w))
      ++ coll ++ tail /\
    Forall (collect_event devs m (draw n MAX_USERS_IN_ROUND (np_random w)))
           coll /\
    Forall (fun e => (exists ms, e = EvAveraging ms) \/
                     (exists l, e = EvPrintRound i_epoch l)) tail /\
    ((forall i, i ∈ draw n MAX_USERS_IN_ROUND (np_random w) ->
                i ∈ mjoin (scheduler w)) ->
     (received coll).*1 ≡ₚ draw n MAX_USERS_IN_ROUND (np_random w) /\
     Forall (fun ir => exists dev, devs !! ir.1 = Some dev /\
                                   ir.2 = trained m dev) (received coll)).
Proof.
  intros Hq Hk.
  set (ids := draw n MAX_USERS_IN_ROUND (np_random w)).
  destruct (decide (Forall (fun i => i ∈ mjoin (scheduler w)) ids))
    as [Hcov|Hmiss].
  - destruct (round_collects d s Hwf m w Hq Hk)
      as (w1 & coll & used & Hrun & _ & Htr1 & Hev & Hperm & Hok & _).
    { by apply Forall_forall. }
    destruct (tail_follows_collect (roster n) i_epoch m w _ _ _ Hrun)
      as (tail & Htail & Htl).
    exists coll, tail. split_and!; [|done..].
    rewrite Htail, Htr1. rewrite <- !app_assoc. simpl.
    by rewrite <- !app_assoc.
  - pose proof Hmiss as Hmiss'.
    apply not_Forall_Exists in Hmiss; [|apply _].
    apply Exists_exists in Hmiss as (i & Hi & Hn).
    destruct (round_collects_blocks d s Hwf m w Hq Hk)
      as (w' & coll & Hrun & Htr & Hev); [by exists i|].
    exists coll, []. rewrite app_nil_r. split_and!; [|done..|].
    + by rewrite (blocked_collect_blocks_round d _ _ _ _ _ Hrun).
    + intros Hcov. exfalso. apply Hmiss'. by apply Forall_forall.
Qed.

Lemma received_elem (evs : list Event) h r :
  (h, r) ∈ received evs <-> EvRecv h r ∈ evs.
Proof.
  unfold received. rewrite list_elem_of_omap. split.
  - intros (e & He & Heq). destruct e; simplify_eq. done.
  - intros He. by exists (EvRecv h r).
Qed.

(** The pipe of a device that is not selected stays empty throughout the
    collecting loop, however the loop ends. *)
Lemma collect_loop_spares m ids :
  NoDup ids -> (forall i, i ∈ ids -> i < n) ->
  forall clock Cr w,
    scheduler w = clock ->
    in_phase devs m (sel_phase ids Cr.*1) w ->
    forall j, j < n -> j ∉ ids ->
      pipes (outcome_world
               (collect_loop clock (class_to_idx d) (in_round_of ids)
                  (models_of Cr, losses_of Cr) w)) !! j
      = Some empty_pipe.
Proof.
  intros Hnd Hlt clock.
  induction clock as [|b clock IH]; intros Cr w Hsched Hph j Hj Hnot;
    cbn [collect_loop];
    (assert (pipes w !! j = Some empty_pipe) as Hw;
     [destruct (devices_lookup_lt d s Running j Hj) as [dev Hdev];
      destruct Hph as (_ & _ & Hp); rewrite (Hp _ _ Hdev);
      unfold sel_phase; rewrite decide_False by tauto; done|]).
  - by destruct (decide _).
  - destruct (decide _); [done|].
    destruct (collect_turn d s Hwf m ids b clock Cr w Hnd Hlt Hsched Hph)
      as (Rr1 & w1 & evs1 & Hrun1 & _ & _ & Hph1 & Hsc1 & _).
    unfold bind at 1. unfold bind in Hrun1.
    destruct (wait _ w) as [ready w0| |]; [|done..].
    unfold bind at 1. rewrite Hrun1. by apply IH.
Qed.

Lemma round_spares_unselected i_epoch m w :
  quiescent d s w ->
  (0 <= MAX_USERS_IN_ROUND <= Z.of_nat n)%Z ->
  forall j, j < n -> j ∉ draw n MAX_USERS_IN_ROUND (np_random w) ->
    pipes (outcome_world
             (round d (invert (class_to_idx d)) (roster n) i_epoch m w)) !! j
    = Some empty_pipe.
Proof.
  intros Hq Hk j Hj Hnot.
  set (ids := draw n MAX_USERS_IN_ROUND (np_random w)) in *.
  set (w1 := log (EvChoice ids)
                 (set_np_random (permutation n (np_random w)).2 w)).
  assert (NoDup ids) as Hnd by apply draw_NoDup.
  assert (forall i, i ∈ ids -> i < n) as Hlt by apply draw_lt.
  assert (in_phase devs m (sel_phase [] []) w1) as Hph1.
  { apply (quiescent_in_phase d s m) in Hq.
    apply (in_phase_ext d s m (fun _ => Empty)).
    - intros. by rewrite sel_phase_nil.
    - destruct Hq as (? & ? & ?). by split_and!. }
  destruct (dispatch_loop d s Hwf m [] ids w1 Hph1 Hnd Hlt)
    as (w2 & Hdisp & Hph2 & _).
  pose proof (collect_loop_spares m ids Hnd Hlt (scheduler w2) [] w2
                eq_refl Hph2 j Hj Hnot) as Hsp.
  assert (round_until_collected d (roster n) m w
          = collect_loop (scheduler w2) (class_to_idx d) (in_round_of ids)
              ([], []) w2) as Hcoll.
  { unfold round_until_collected, bind at 1.
    rewrite select_round_ok by done. fold ids. fold w1.
    unfold bind at 1. by rewrite Hdisp. }
  rewrite (round_as_continuation d). unfold bind at 1. rewrite Hcoll.
  destruct (collect_loop _ _ _ _ w2) as [[lm ll] w3| |]; [|done..].
  cbn [fst snd]. unfold bind, emit, lookup_or, raise, ret.
  destruct (federated_averaging (Dict.values lm)) as [m'|]; [|done].
  by destruct (decide (Dict.len ll = 0)).
Qed.

End ShapeFacts.

(** ** Dispatch *)

(** C9. In a round, however it ends, every model the coordinator sends is
    the current one and goes to the handle of a selected device (in the
    roster the handle of device [i] is pipe [i]), every result that a
    device sends or the coordinator receives comes from a selected device,
    and the pipe of a device that was not selected is left empty: such a
    device is sent nothing and sends nothing.  When every selected device
    runs during the round, the current model is sent on the handle of each
    of them and reaches it: the coordinator receives, from that handle, the
    result of that device's training on the current model. *)
Theorem dispatch_reaches_only_selected `{Laws : ExternalLaws}
    (d : CIFAR10) (s : Settings) (i_epoch : nat) (m : Model) (w : World) :
  wf_dataset d -> quiescent d s w ->
  (0 <= MAX_USERS_IN_ROUND <= Z.of_nat (length (classes d)))%Z ->
  let n := length (classes d) in
  let ids := draw n MAX_USERS_IN_ROUND (np_random w) in
  let w' :=
    outcome_world (round d (invert (class_to_idx d)) (roster n) i_epoch m w) in
  exists evs,
    trace w' = trace w ++ evs /\
    (forall h m', EvSend h m' ∈ evs -> h ∈ ids /\ m' = m) /\
    (forall j r, EvDeviceSend j r ∈ evs -> j ∈ ids) /\
    (forall j r, EvRecv j r ∈ evs -> j ∈ ids) /\
    (forall j, j < n -> j ∉ ids -> pipes w' !! j = Some empty_pipe) /\
    ((forall i, i ∈ ids -> i ∈ mjoin (scheduler w)) ->
     forall i dev,
       i ∈ ids -> devices d s Running !! i = Some dev ->
       EvSend i m ∈ evs /\ EvRecv i (trained m dev) ∈ evs).
Proof.
  intros Hwf Hq Hk n ids w'.
  destruct (round_shape d s Hwf i_epoch m w Hq Hk)
    as (coll & tail & Htr & Hcoll & Htail & Hcovered).
  fold n in Htr, Hcoll, Hcovered. fold ids in Htr, Hcoll, Hcovered.
  eexists. split; [exact Htr|].
  assert (forall e, e ∈ EvChoice ids :: dispatch_events (classes d) m ids
                        ++ coll ++ tail ->
            e = EvChoice ids \/
            (exists i c, i ∈ ids /\ classes d !! i = Some c /\
                         (e = EvPrintSending c \/ e = EvSend i m)) \/
            collect_event (devices d s Running) m ids e \/
            ((exists ms, e = EvAveraging ms) \/
             (exists l, e = EvPrintRound i_epoch l))) as Hcases.
  { intros e. rewrite elem_of_cons, !elem_of_app, dispatch_events_elem.
    intros [?|[?|[He|He]]]; [auto..| |].
    - right. right. left. by apply (proj1 (Forall_forall _ _) Hcoll).
    - right. right. right. by apply (proj1 (Forall_forall _ _) Htail). }
  split_and!.
  - intros h m' He.
    destruct (Hcases _ He)
      as [?|[(i & c & ? & ? & [?|?])|[Hc|[[? ?]|[? ?]]]]];
      simplify_eq; done.
  - intros j r He.
    destruct (Hcases _ He)
      as [?|[(i & c & ? & ? & [?|?])|[Hc|[[? ?]|[? ?]]]]];
      simplify_eq. by destruct Hc.
  - intros j r He.
    destruct (Hcases _ He)
      as [?|[(i & c & ? & ? & [?|?])|[Hc|[[? ?]|[? ?]]]]];
      simplify_eq. by destruct Hc.
  - intros j Hj Hnot. by apply (round_spares_unselected d s Hwf).
  - intros Hcov i dev Hi Hdev. destruct (Hcovered Hcov) as [Hperm Hok].
    split.
    + right. apply elem_of_app. left. apply dispatch_events_elem.
      destruct (lookup_lt_is_Some_2 (classes d) i) as [c Hc];
        [by eapply draw_lt|].
      exists i, c. auto.
    + right. apply elem_of_app. right. apply elem_of_app. left.
      rewrite <- Hperm in Hi.
      apply list_elem_of_fmap in Hi as ([i' r] & -> & Hin).
      pose proof (proj1 (Forall_forall _ _) Hok _ Hin)
        as (dev' & Hdev' & Hr). simpl in *.
      assert (dev' = dev) as -> by congruence. subst r.
      by apply received_elem.
Qed.

(** ** The end of a round *)

Section AdoptFacts.
Context `{Ext : External}.

(** Round number [j] of a run of [r] rounds, with the rounds before it and
    the rounds after it. *)
Lemma rounds_trace_split (d : CIFAR10) (s : Settings) j :
  forall i r m m' evs,
    rounds_trace d s i r m m' evs -> j < r ->
    exists m_j m_next pre evj post,
      evs = pre ++ evj ++ post /\
      rounds_trace d s i j m m_j pre /\
      round_trace d s (i + j) m_j m_next evj /\
      rounds_trace d s (S (i + j)) (r - S j) m_next m' post.
Proof.
  induction j as [|j IH]; intros i r m m' evs Hrt Hj;
    (destruct r as [|r]; [lia|]);
    destruct Hrt as (m1 & evs1 & evs2 & -> & Hr1 & Hr2).
  - exists m, m1, [], evs1, evs2. rewrite Nat.add_0_r.
    replace (S r - 1) with r by lia. split_and!; done.
  - destruct (IH (S i) r m1 m' evs2 Hr2) as
      (m_j & m_next & pre & evj & post & -> & Hpre & Hevj & Hpost); [lia|].
    exists m_j, m_next, (evs1 ++ pre), evj, post.
    replace (i + S j) with (S i + j) by lia.
    replace (S r - S (S j)) with (r - S j) by lia.
    split_and!; [by rewrite <- app_assoc| |done|done].
    by exists m1, evs1, pre.
Qed.

(** How a run of rounds starts, and what it gives when there is none. *)
Lemma rounds_trace_head (d : CIFAR10) (s : Settings) i r m m' evs :
  rounds_trace d s i r m m' evs ->
  (r = 0 -> evs = [] /\ m' = m) /\
  (0 < r -> exists ids rest,
     evs = EvChoice ids :: dispatch_events (classes d) m ids ++ rest).
Proof.
  intros Hrt. split; intros Hr.
  - subst r. by destruct Hrt as [-> ->].
  - destruct r as [|r]; [lia|].
    destruct Hrt as (m1 & evs1 & evs2 & -> & Hr1 & _).
    destruct Hr1 as (ids & coll & -> & _).
    exists ids. eexists. unfold round_events. simpl.
    by rewrite <- !app_assoc.
Qed.

End AdoptFacts.

(** C6. In a run of [train_federated] in which every round completes,
    every round [j] does this: on the current model [m_j], the one the
    rounds before it led to, it draws, dispatches and collects; it hands
    the models of the results received to the averaging; and it reports,
    last of all, the arithmetic mean of the losses of those same results,
    which are the answers of the selected devices, each once.  The model
    [m_next] the averaging gave is the current model from then on: the
    next round dispatches it, and after the last round it is what
    [train_federated] returns. *)
Theorem round_adopts_average_and_reports_mean `{Laws : ExternalLaws}
    (d : CIFAR10) (s : Settings) (m : Model) (w : World) :
  wf_dataset d -> fresh w -> averaging_total ->
  (1 <= MAX_USERS_IN_ROUND <= Z.of_nat (length (classes d)))%Z ->
  let r := Z.to_nat (num_global_epochs s) in
  fair (length (classes d)) r (scheduler w) ->
  exists m_end w' evs,
    train_federated m d s w = Returned m_end w' /\
    trace w' = trace w ++ setup_events (length (classes d)) ++ evs ++
               shutdown_events (classes d) /\
    forall j, j < r ->
      exists m_j m_next ids coll pre post,
        evs = pre ++
              (EvChoice ids :: dispatch_events (classes d) m_j ids ++ coll ++
               [EvAveraging (model <$> (received coll).*2);
                EvPrintRound j (mean (loss <$> (received coll).*2))]) ++
              post /\
        rounds_trace d s 0 j m m_j pre /\
        (received coll).*2 ≡ₚ answers d s m_j ids /\
        federated_averaging (model <$> (received coll).*2) = Some m_next /\
        rounds_trace d s (S j) (r - S j) m_next m_end post /\
        (S j = r -> post = [] /\ m_end = m_next) /\
        (S j < r -> exists ids' rest,
           post = EvChoice ids' :: dispatch_events (classes d) m_next ids'
                  ++ rest).
Proof.
  intros Hwf Hfresh Havg Hk r Hfair.
  destruct (train_federated_returns d s Hwf m w Hfresh)
    as (m_end & w' & evs & Hrun & Htr & Hrt & _); [done..|].
  exists m_end, w', evs. split_and!; [done..|].
  intros j Hj.
  destruct (rounds_trace_split d s j 0 r m m_end evs Hrt Hj)
    as (m_j & m_next & pre & evj & post & -> & Hpre & Hevj & Hpost).
  destruct Hevj as (ids & coll & -> & _ & _ & _ & Hev & Hperm & Hok & Hm').
  assert (averaged coll = model <$> (received coll).*2) as Ha
    by (unfold averaged; by rewrite <- list_fmap_compose).
  assert (reported_losses coll = loss <$> (received coll).*2) as Hl
    by (unfold reported_losses; by rewrite <- list_fmap_compose).
  unfold round_events. rewrite Ha, Hl. rewrite Ha in Hm'.
  destruct (rounds_trace_head d s _ _ _ _ _ Hpost) as [Hlast Hmore].
  exists m_j, m_next, ids, coll, pre, post.
  split_and!; try done.
  - by apply received_answers.
  - intros Heq. apply Hlast. lia.
  - intros Hlt. apply Hmore. lia.
Qed.

(** ** The whole run *)

(** C5. Under a schedule that lets every round complete, [train_federated]
    returns, and between the set-up and the shut-down it does exactly
    [num_global_epochs] rounds (none when that number is not positive),
    numbered from 0, one after the other.  Each round is, in this order,
    the draw, the dispatch of the current model to the devices drawn, the
    collecting loop, the averaging and the report; the next round starts
    after the report, from the model the averaging of this one gave. *)
Theorem rounds_run_in_sequence `{Laws : ExternalLaws}
    (d : CIFAR10) (s : Settings) (m : Model) (w : World) :
  wf_dataset d -> fresh w -> averaging_total ->
  (1 <= MAX_USERS_IN_ROUND <= Z.of_nat (length (classes d)))%Z ->
  fair (length (classes d)) (Z.to_nat (num_global_epochs s)) (scheduler w) ->
  exists m' w' evs,
    train_federated m d s w = Returned m' w' /\
    trace w' = trace w ++ setup_events (length (classes d)) ++ evs ++
               shutdown_events (classes d) /\
    rounds_trace d s 0 (Z.to_nat (num_global_epochs s)) m m' evs.
Proof.
  intros Hwf Hfresh Havg Hk Hfair.
  destruct (train_federated_returns d s Hwf m w Hfresh)
    as (m' & w' & evs & ? & ? & ? & _); [done..|].
  by exists m', w', evs.
Qed.

(** C7, as the code has it.  After the last round the coordinator prints
    and calls [terminate()] for every device of the roster, in the order of
    the roster, whether the device was ever drawn or not; it returns with
    every device signalled, and waits for none of them. *)
Theorem shutdown_signals_every_worker `{Laws : ExternalLaws}
    (d : CIFAR10) (s : Settings) (m : Model) (w : World) :
  wf_dataset d -> fresh w -> averaging_total ->
  (1 <= MAX_USERS_IN_ROUND <= Z.of_nat (length (classes d)))%Z ->
  fair (length (classes d)) (Z.to_nat (num_global_epochs s)) (scheduler w) ->
  exists m' w' evs,
    train_federated m d s w = Returned m' w' /\
    trace w' = trace w ++ (setup_events (length (classes d)) ++ evs) ++
               shutdown_events (classes d) /\
    (forall i c, classes d !! i = Some c ->
       EvTerminate i ∈ shutdown_events (classes d) /\
       exists dev, processes w' !! i = Some dev /\ dev_name dev = c /\
                   dev_status dev = Signalled) /\
    length (processes w') = length (classes d).
Proof.
  intros Hwf Hfresh Havg Hk Hfair.
  destruct (train_federated_returns d s Hwf m w Hfresh)
    as (m' & w' & evs & Hrun & Htr & _ & _ & Hprocs & _); [done..|].
  exists m', w', evs. split_and!; [done|by rewrite <- app_assoc| |].
  - intros i c Hc. split.
    + unfold shutdown_events. apply list_elem_of_bind. exists i.
      rewrite Hc. split; [right; left|].
      apply elem_of_seq. apply lookup_lt_Some in Hc. lia.
    + rewrite Hprocs.
      destruct (devices_lookup_lt d s Signalled i) as [dev Hdev];
        [by eapply lookup_lt_Some|].
      exists dev. split; [done|].
      apply devices_lookup in Hdev as (c' & sub & ? & ? & ->).
      split; [simpl; congruence|done].
  - by rewrite Hprocs, devices_length.
Qed.

(** C10. With [num_global_epochs] at 0, [train_federated] returns the model
    it was given: after the set-up it does nothing but the shut-down (no
    draw, no dispatch, no receipt, no averaging), in which it calls
    [terminate()] for every device of the roster. *)
Theorem no_epochs_returns_base_model `{Laws : ExternalLaws}
    (d : CIFAR10) (s : Settings) (m : Model) (w : World) :
  wf_dataset d -> fresh w -> num_global_epochs s = 0%Z ->
  exists w',
    train_federated m d s w = Returned m w' /\
    trace w' = trace w ++ setup_events (length (classes d)) ++
               shutdown_events (classes d) /\
    processes w' = devices d s Signalled /\
    (forall i c, classes d !! i = Some c ->
                 EvTerminate i ∈ shutdown_events (classes d)).
Proof.
  intros Hwf Hfresh Hzero.
  destruct (train_federated_returns d s Hwf m w Hfresh)
    as (m' & w' & evs & Hrun & Htr & Hrt & _ & Hprocs & _).
  { rewrite Hzero. done. }
  { by rewrite Hzero. }
  rewrite Hzero in Hrt. destruct Hrt as [-> ->].
  exists w'. split_and!; try done.
  intros i c Hc. unfold shutdown_events. apply list_elem_of_bind. exists i.
  rewrite Hc. split; [right; left|].
  apply elem_of_seq. apply lookup_lt_Some in Hc. lia.
Qed.

(** ** The set-up *)

(** C8. In a world where nothing exists yet, the set-up creates one pipe
    and one device per class, in the order of the classes: device [i] is
    named after class [i], holds partition [i] of the split, talks over
    pipe [i], which is new and empty, and is running; the roster binds
    identity [i] to that pipe and that process, and its keys are the
    identities [0 .. n-1].  All that follows in [train_federated], every
    round and the shut-down, is given this roster as it is. *)
Theorem setup_builds_the_roster_once `{Laws : ExternalLaws}
    (d : CIFAR10) (s : Settings) (m : Model) (w : World) :
  wf_dataset d -> fresh w ->
  let n := length (classes d) in
  exists w1,
    create_devices d (split d s) (edge_settings s) w = Returned (roster n) w1 /\
    Dict.keys (roster n) = seq 0 n /\
    length (processes w1) = n /\ length (pipes w1) = n /\
    trace w1 = trace w ++ setup_events n /\
    (forall i c,
       classes d !! i = Some c ->
       exists sub,
         split d s !! i = Some sub /\
         Dict.get i (roster n) = Some {| handle := i; process := i |} /\
         processes w1 !! i
         = Some {| dev_name := c; dev_handle := i; dev_dataset := sub;
                   dev_settings := edge_settings s; dev_status := Running |} /\
         pipes w1 !! i = Some empty_pipe) /\
    train_federated m d s w = rounds_then_shutdown d s (roster n) m w1.
Proof.
  intros Hwf Hfresh n.
  pose proof (create_devices_fresh d s w Hwf Hfresh) as Hcreate.
  eexists. split; [exact Hcreate|]. cbn [processes pipes trace].
  split_and!.
  - apply roster_keys.
  - apply devices_length.
  - apply length_replicate.
  - done.
  - intros i c Hc. pose proof (lookup_lt_Some _ _ _ Hc) as Hi.
    destruct (lookup_lt_is_Some_2 (split d s) i) as [sub Hsub];
      [by rewrite split_length|].
    exists sub. split_and!; [done| | |].
    + by apply roster_lookup.
    + apply devices_lookup. by exists c, sub.
    + by apply lookup_replicate_2.
  - unfold train_federated, rounds_then_shutdown. unfold bind at 1.
    by rewrite Hcreate.
Qed.

(** ** Reproducibility *)

Section SeedFacts.
Context `{Laws : ExternalLaws}.

Lemma choices_setup_events n : choices (setup_events n) = [].
Proof.
  unfold setup_events. induction (seq 0 n) as [|i l IH]; [done|].
  by rewrite bind_cons, choices_app, IH.
Qed.

Lemma choices_shutdown_events cs : choices (shutdown_events cs) = [].
Proof.
  unfold shutdown_events. induction (seq 0 (length cs)) as [|i l IH]; [done|].
  rewrite bind_cons, choices_app, IH. by destruct (cs !! i).
Qed.

End SeedFacts.

(** C4 fails on the code: [train] seeds the generator of torch from
    [settings.seed], and the draws come from the generator of numpy, which
    the seed never reaches.  Two runs with the same settings (same seed),
    the same dataset and the same schedule, started with numpy's generator
    in two different states, draw different devices. *)
Theorem same_seed_different_draws :
  seed (Demo.settings 2) = 7%Z /\
  choices (trace (outcome_world
             (train (Ext := Demo.two) (Demo.settings 2) false Demo.dataset
                    (Demo.boot 1 Demo.sched))))
  = [[1; 0]; [2; 1]] /\
  choices (trace (outcome_world
             (train (Ext := Demo.two) (Demo.settings 2) false Demo.dataset
                    (Demo.boot 5 Demo.sched))))
  = [[0; 2]; [0; 1]].
Proof. split_and!; vm_compute; reflexivity. Qed.

(** ** Shut-down, at a concrete run *)

(** C7 as stated fails: when [train_federated] returns, the devices have
    been sent their signal and none has been waited for; none of the three
    has stopped. *)
Lemma workers_are_not_joined :
  exists m' w',
    train_federated (Ext := Demo.two) 1%Q Demo.dataset (Demo.settings 2)
                    (Demo.boot 1 Demo.sched) = Returned m' w' /\
    dev_status <$> processes w' = [Signalled; Signalled; Signalled] /\
    ~ (forall dev, dev ∈ processes w' -> dev_status dev = Stopped).
Proof.
  eexists _, _. split; [vm_compute; reflexivity|]. split; [reflexivity|].
  intros Hall. specialize (Hall _ (list_elem_of_here _ _)). discriminate Hall.
Qed.

(** ** Witnesses *)

Section Witnesses.
Import Demo.
#[local] Existing Instance two.

Lemma demo_fair : fair 3 2 sched.
Proof.
  exists [[2]; [0; 1]], [[1; 0; 2]]. split_and!; [done| |].
  - intros i Hi. simpl. destruct i as [|[|[|i]]]; [repeat constructor..|lia].
  - exists [[1; 0; 2]], []. split_and!; [done| |done].
    intros i Hi. simpl. destruct i as [|[|[|i]]]; [repeat constructor..|lia].
Qed.

Lemma demo_bounds :
  (1 <= MAX_USERS_IN_ROUND <= Z.of_nat (length (classes dataset)))%Z.
Proof. simpl. lia. Qed.

Lemma demo_draw_covered i :
  i ∈ draw (length (classes dataset)) MAX_USERS_IN_ROUND
           (np_random (ready 2 1 sched)) ->
  i ∈ mjoin (scheduler (ready 2 1 sched)).
Proof.
  change (i ∈ [1; 0] -> i ∈ [2; 0; 1; 1; 0; 2]).
  rewrite !elem_of_cons. intros [->|[->|[]%elem_of_nil]]; auto 10.
Qed.

Lemma collect_waits_for_every_selected_worker_witness :
  let d := dataset in
  let s := settings 2 in
  let w := ready 2 1 sched in
  let m := 1%Q in
  let n := length (classes d) in
  let ids := draw n MAX_USERS_IN_ROUND (np_random w) in
  ((exists i, i ∈ ids /\ i ∉ mjoin (scheduler w)) ->
   exists w',
     round_until_collected d (roster n) m w = Blocked w' /\
     round d (invert (class_to_idx d)) (roster n) 0 m w = Blocked w') /\
  ((forall i, i ∈ ids -> i ∈ mjoin (scheduler w)) ->
   exists local_models local_losses w1 used rest,
     round_until_collected d (roster n) m w
     = Returned (local_models, local_losses) w1 /\
     scheduler w = used ++ scheduler w1 /\
     first_covering ids used /\
     Dict.keys local_models ≡ₚ ids /\
     Dict.keys local_losses ≡ₚ ids /\
     (forall i dev,
        i ∈ ids -> devices d s Running !! i = Some dev ->
        Dict.get i local_models = Some (model (trained m dev)) /\
        Dict.get i local_losses = Some (loss (trained m dev))) /\
     Dict.values local_models ≡ₚ model <$> answers d s m ids /\
     trace (outcome_world
              (round d (invert (class_to_idx d)) (roster n) 0 m w))
     = trace w1 ++ EvAveraging (Dict.values local_models) :: rest /\
     round d (invert (class_to_idx d)) (roster n) 0 m w
     = match federated_averaging (Dict.values local_models) with
       | None =>
           Raised AveragingError
             (log (EvAveraging (Dict.values local_models)) w1)
       | Some m' =>
           if decide (Dict.len local_losses = 0) then
             Raised ZeroDivisionError
               (log (EvAveraging (Dict.values local_models)) w1)
           else
             Returned m'
               (log (EvPrintRound 0
                       (float_div (sum (Dict.values local_losses))
                          (float_of_Z (Z.of_nat (Dict.len local_losses)))))
                  (log (EvAveraging (Dict.values local_models)) w1))
       end).
Proof.
  intros d s w m.
  apply (collect_waits_for_every_selected_worker (Laws := demo_laws 2)
           d s 0 m w).
  - apply demo_wf.
  - apply demo_quiescent.
  - simpl. lia.
Defined.

Lemma round_adopts_average_and_reports_mean_witness :
  let d := dataset in
  let s := settings 2 in
  let w := boot 1 sched in
  let m := 1%Q in
  let r := Z.to_nat (num_global_epochs s) in
  exists m_end w' evs,
    train_federated m d s w = Returned m_end w' /\
    trace w' = trace w ++ setup_events (length (classes d)) ++ evs ++
               shutdown_events (classes d) /\
    forall j, j < r ->
      exists m_j m_next ids coll pre post,
        evs = pre ++
              (EvChoice ids :: dispatch_events (classes d) m_j ids ++ coll ++
               [EvAveraging (model <$> (received coll).*2);
                EvPrintRound j (mean (loss <$> (received coll).*2))]) ++
              post /\
        rounds_trace d s 0 j m m_j pre /\
        (received coll).*2 ≡ₚ answers d s m_j ids /\
        federated_averaging (model <$> (received coll).*2) = Some m_next /\
        rounds_trace d s (S j) (r - S j) m_next m_end post /\
        (S j = r -> post = [] /\ m_end = m_next) /\
        (S j < r -> exists ids' rest,
           post = EvChoice ids' :: dispatch_events (classes d) m_next ids'
                  ++ rest).
Proof.
  intros d s w m.
  apply (round_adopts_average_and_reports_mean (Laws := demo_laws 2)
           d s m w).
  - apply demo_wf.
  - apply demo_fresh.
  - apply demo_averaging_total.
  - apply demo_bounds.
  - apply demo_fair.
Defined.

Lemma dispatch_reaches_only_selected_witness :
  let d := dataset in
  let s := settings 2 in
  let w := ready 2 1 sched in
  let m := 1%Q in
  let n := length (classes d) in
  let ids := draw n MAX_USERS_IN_ROUND (np_random w) in
  let w' :=
    outcome_world (round d (invert (class_to_idx d)) (roster n) 0 m w) in
  exists evs,
    trace w' = trace w ++ evs /\
    (forall h m', EvSend h m' ∈ evs -> h ∈ ids /\ m' = m) /\
    (forall j r, EvDeviceSend j r ∈ evs -> j ∈ ids) /\
    (forall j r, EvRecv j r ∈ evs -> j ∈ ids) /\
    (forall j, j < n -> j ∉ ids -> pipes w' !! j = Some empty_pipe) /\
    ((forall i, i ∈ ids -> i ∈ mjoin (scheduler w)) ->
     forall i dev,
       i ∈ ids -> devices d s Running !! i = Some dev ->
       EvSend i m ∈ evs /\ EvRecv i (trained m dev) ∈ evs).
Proof.
  intros d s w m.
  apply (dispatch_reaches_only_selected (Laws := demo_laws 2) d s 0 m w).
  - apply demo_wf.
  - apply demo_quiescent.
  - simpl. lia.
Defined.

Lemma rounds_run_in_sequence_witness :
  let d := dataset in
  let s := settings 2 in
  let w := boot 1 sched in
  let m := 1%Q in
  exists m' w' evs,
    train_federated m d s w = Returned m' w' /\
    trace w' = trace w ++ setup_events (length (classes d)) ++ evs ++
               shutdown_events (classes d) /\
    rounds_trace d s 0 (Z.to_nat (num_global_epochs s)) m m' evs.
Proof.
  intros d s w m.
  apply (rounds_run_in_sequence (Laws := demo_laws 2) d s m w).
  - apply demo_wf.
  - apply demo_fresh.
  - apply demo_averaging_total.
  - apply demo_bounds.
  - apply demo_fair.
Defined.

Lemma shutdown_signals_every_worker_witness :
  let d := dataset in
  let s := settings 2 in
  let w := boot 1 sched in
  let m := 1%Q in
  exists m' w' evs,
    train_federated m d s w = Returned m' w' /\
    trace w' = trace w ++ (setup_events (length (classes d)) ++ evs) ++
               shutdown_events (classes d) /\
    (forall i c, classes d !! i = Some c ->
       EvTerminate i ∈ shutdown_events (classes d) /\
       exists dev, processes w' !! i = Some dev /\ dev_name dev = c /\
                   dev_status dev = Signalled) /\
    length (processes w') = length (classes d).
Proof.
  intros d s w m.
  apply (shutdown_signals_every_worker (Laws := demo_laws 2) d s m w).
  - apply demo_wf.
  - apply demo_fresh.
  - apply demo_averaging_total.
  - apply demo_bounds.
  - apply demo_fair.
Defined.

Lemma no_epochs_returns_base_model_witness :
  let d := dataset in
  let s := settings 0 in
  let w := boot 1 sched in
  let m := 1%Q in
  exists w',
    train_federated m d s w = Returned m w' /\
    trace w' = trace w ++ setup_events (length (classes d)) ++
               shutdown_events (classes d) /\
    processes w' = devices d s Signalled /\
    (forall i c, classes d !! i = Some c ->
                 EvTerminate i ∈ shutdown_events (classes d)).
Proof.
  intros d s w m.
  apply (no_epochs_returns_base_model (Laws := demo_laws 2) d s m w).
  - apply demo_wf.
  - apply demo_fresh.
  - reflexivity.
Defined.

Lemma setup_builds_the_roster_once_witness :
  let d := dataset in
  let s := settings 2 in
  let w := boot 1 sched in
  let m := 1%Q in
  let n := length (classes d) in
  exists w1,
    create_devices d (split d s) (edge_settings s) w = Returned (roster n) w1 /\
    Dict.keys (roster n) = seq 0 n /\
    length (processes w1) = n /\ length (pipes w1) = n /\
    trace w1 = trace w ++ setup_events n /\
    (forall i c,
       classes d !! i = Some c ->
       exists sub,
         split d s !! i = Some sub /\
         Dict.get i (roster n) = Some {| handle := i; process := i |} /\
         processes w1 !! i
         = Some {| dev_name := c; dev_handle := i; dev_dataset := sub;
                   dev_settings := edge_settings s; dev_status := Running |} /\
         pipes w1 !! i = Some empty_pipe) /\
    train_federated m d s w = rounds_then_shutdown d s (roster n) m w1.
Proof.
  intros d s w m.
  apply (setup_builds_the_roster_once (Laws := demo_laws 2) d s m w).
  - apply demo_wf.
  - apply demo_fresh.
Defined.

End Witnesses.

(** * Further properties of the coordinator *)

(** ** The inverted index (line 66) *)

Section InvertFacts.
Context {K V : Type} `{EqDecision K}.
Implicit Types (d : list (K * V)).

Lemma dict_get_set k k' v d :
  Dict.get k (Dict.set k' v d)
  = if decide (k = k') then Some v else Dict.get k d.
Proof.
  induction d as [|[k0 v0] d IH]; simpl.
  - done.
  - destruct (decide (k' = k0)) as [->|Hne]; simpl.
    + by repeat case_decide.
    + rewrite IH. repeat case_decide; congruence.
Qed.

End InvertFacts.

Lemma invert_snoc (l : list (string * nat)) c i :
  invert (l ++ [(c, i)]) = Dict.set i c (invert l).
Proof. unfold invert. by rewrite foldl_app. Qed.

(** X1. Whatever [class_to_idx] holds, [idx_to_class[i]] is the name of the
    last entry of [class_to_idx] whose index is [i], and [i] is no key of
    [idx_to_class] when no entry has it. *)
Theorem idx_to_class_holds_last_name (class_to_idx : list (string * nat))
    (i : nat) :
  Dict.get i (invert class_to_idx)
  = fst <$> last (filter (fun kv => kv.2 = i) class_to_idx).
Proof.
  induction class_to_idx as [|[c j] l IH] using rev_ind; [done|].
  rewrite invert_snoc, dict_get_set, filter_app, IH.
  rewrite filter_cons, filter_nil. simpl.
  case_decide as Hij.
  - subst j. rewrite decide_True by done. by rewrite last_snoc.
  - rewrite decide_False by congruence. by rewrite app_nil_r.
Qed.

(** X2. When no two names of [class_to_idx] share an index, [idx_to_class]
    is [class_to_idx] turned round entry by entry, in the same order, and
    looking a name up in the one and its index up in the other undo each
    other. *)
Theorem idx_to_class_inverts_class_to_idx
    (class_to_idx : list (string * nat)) :
  NoDup class_to_idx.*1 -> NoDup class_to_idx.*2 ->
  invert class_to_idx = flipped class_to_idx /\
  forall c i,
    Dict.get c class_to_idx = Some i <->
    Dict.get i (invert class_to_idx) = Some c.
Proof.
  intros Hk Hv.
  assert (invert class_to_idx = flipped class_to_idx) as Hinv.
  { clear Hk. induction class_to_idx as [|[c j] l IH] using rev_ind; [done|].
    rewrite fmap_app in Hv. apply NoDup_app in Hv as (Hv & Hdisj & _).
    rewrite invert_snoc, IH by done. unfold flipped. rewrite fmap_app. simpl.
    apply dict_set_fresh. unfold Dict.keys, flipped.
    rewrite <- list_fmap_compose. intros Hin.
    apply (Hdisj j); [|left].
    apply list_elem_of_fmap in Hin as ([c' j'] & -> & Hin).
    apply list_elem_of_fmap. by exists (c', j'). }
  split; [done|]. rewrite Hinv. clear Hinv.
  induction class_to_idx as [|[c0 i0] l IH]; intros c i; simpl; [done|].
  rewrite !fmap_cons in *. apply NoDup_cons in Hk as [Hk0 Hk].
  apply NoDup_cons in Hv as [Hv0 Hv]. simpl in *.
  destruct (decide (c = c0)) as [->|Hc]; destruct (decide (i = i0)) as [->|Hi].
  - done.
  - split; [congruence|]. intros Hget.
    apply (IH Hk Hv) in Hget. exfalso. apply Hk0.
    clear -Hget. induction l as [|[c1 i1] l IHl]; simpl in *; [done|].
    case_decide; [subst; left|right; auto].
  - split; [|congruence]. intros Hget. exfalso. apply Hv0.
    clear -Hget. induction l as [|[c1 i1] l IHl]; simpl in *; [done|].
    case_decide; [injection Hget as ->; left|right; auto].
  - by apply IH.
Qed.

Lemma idx_to_class_inverts_class_to_idx_witness :
  let c2i := [("cat", 0); ("dog", 1); ("frog", 2)] in
  invert c2i = flipped c2i /\
  forall c i, Dict.get c c2i = Some i <-> Dict.get i (invert c2i) = Some c.
Proof.
  intros c2i.
  apply (idx_to_class_inverts_class_to_idx c2i).
  - simpl. by apply (bool_decide_unpack _).
  - simpl. by apply (bool_decide_unpack _).
Defined.

(** ** The set-up when it fails (lines 79-89) *)

Section SetupFailures.
Context `{Ext : External}.

Lemma devices_of_prefix es st pre suf subsets :
  length subsets <= length pre ->
  devices_of es st (pre ++ suf) subsets = devices_of es st pre subsets.
Proof.
  intros Hle. unfold devices_of. f_equal.
  rewrite zip_with_app_l, drop_ge, take_ge by done.
  destruct suf; simpl; by rewrite app_nil_r.
Qed.

Lemma devices_of_length es st cs subsets :
  length (devices_of es st cs subsets) = length cs `min` length subsets.
Proof. unfold devices_of. by rewrite length_imap, length_zip_with. Qed.

Lemma create_devices_runs_short d subsets es pre suf w :
  wf_dataset d ->
  classes d = pre ++ suf ->
  length pre <= length subsets < length (classes d) ->
  pipes w = replicate (length pre) empty_pipe ->
  processes w = devices_of es Running pre subsets ->
  for_each suf
    (fun device_name device_connections =>
       let* device_id :=
         lookup_or KeyError (Dict.get device_name (class_to_idx d)) in
       let* (handle_server, handle_device) := Pipe_duplex in
       let* subset := lookup_or IndexError (subsets !! device_id) in
       let* device :=
         new_EdgeDevice device_name handle_server subset es in
       let device_connections :=
         Dict.set device_id {| handle := handle_device; process := device |}
                  device_connections in
       start device ;;
       ret device_connections)
    (roster (length pre)) w
  = Raised IndexError
      {| pipes := replicate (S (length subsets)) empty_pipe;
         processes := devices_of es Running (classes d) subsets;
         np_random := np_random w; torch_random := torch_random w;
         scheduler := scheduler w;
         trace := trace w ++
                  (i ← seq (length pre) (length subsets - length pre);
                   [EvPipe i; EvStart i]) ++
                  [EvPipe (length subsets)] |}.
Proof.
  intros Hwf. revert pre w.
  induction suf as [|c suf IH]; intros pre w Hcs Hlen Hp Hq.
  - rewrite app_nil_r in Hcs. rewrite Hcs in Hlen. lia.
  - assert (classes d !! length pre = Some c) as Hc
      by (rewrite Hcs; apply list_lookup_middle; done).
    cbn [for_each].
    unfold bind at 1.
    unfold bind at 1.
    rewrite (lookup_or_some _ _ _ _ (class_to_idx_lookup _ _ _ Hwf Hc)).
    unfold bind at 1. unfold Pipe_duplex at 1. rewrite Hp, length_replicate.
    unfold bind at 1.
    destruct (decide (length pre < length subsets)) as [Hlt|Hge].
    + destruct (lookup_lt_is_Some_2 subsets (length pre) Hlt) as [sub Hsub].
      assert (length (devices_of es Running pre subsets) = length pre) as Hlq
        by (rewrite devices_of_length; lia).
      rewrite (lookup_or_some _ _ _ _ Hsub).
      unfold bind at 1. unfold new_EdgeDevice at 1.
      cbn [processes log set_pipes set_processes].
      rewrite Hq, Hlq.
      unfold bind at 1. unfold start at 1. unfold ret at 1.
      cbn [processes pipes np_random torch_random scheduler trace log
           set_pipes set_processes].
      rewrite (dict_set_fresh (length pre)), <- roster_S
        by (rewrite roster_keys, elem_of_seq; lia).
      replace (S (length pre)) with (length (pre ++ [c]))
        by (rewrite length_app; simpl; lia).
      etrans; [apply IH|].
      * by rewrite <- app_assoc.
      * rewrite length_app. simpl. lia.
      * cbn [pipes log set_processes set_pipes]. rewrite Hp, length_app.
        cbn [length]. by rewrite Nat.add_1_r, replicate_S_end.
      * cbn [processes log set_processes set_pipes].
        rewrite (devices_of_snoc _ _ _ _ _ _ Hsub).
        rewrite Hq, alter_app_r_alt by (rewrite Hlq; lia).
        by rewrite Hlq, Nat.sub_diag.
      * f_equal. cbn [np_random torch_random scheduler trace log
                      set_pipes set_processes]. f_equal.
        rewrite <- !app_assoc. f_equal. rewrite length_app. cbn [length].
        replace (length subsets - length pre)
          with (S (length subsets - (length pre + 1))) by lia.
        cbn [seq]. rewrite bind_cons. cbn [app].
        by rewrite Nat.add_1_r.
    + assert (length subsets = length pre) as Heq by lia.
      rewrite (lookup_ge_None_2 subsets (length pre)) by lia.
      unfold lookup_or, raise. f_equal.
      unfold log, set_pipes.
      cbn [processes pipes np_random torch_random scheduler trace].
      rewrite Hp, Hq, Hcs, Heq, Nat.sub_diag.
      rewrite devices_of_prefix by lia.
      by rewrite replicate_S_end.
Qed.

Lemma create_devices_runs_unindexed d subsets es c rest :
  Dict.get c (class_to_idx d) = None ->
  forall suf pre w,
    (forall i c', (pre ++ suf) !! i = Some c' ->
                  Dict.get c' (class_to_idx d) = Some i) ->
    length (pre ++ suf) <= length subsets ->
    pipes w = replicate (length pre) empty_pipe ->
    processes w = devices_of es Running pre subsets ->
    for_each (suf ++ c :: rest)
      (fun device_name device_connections =>
         let* device_id :=
           lookup_or KeyError (Dict.get device_name (class_to_idx d)) in
         let* (handle_server, handle_device) := Pipe_duplex in
         let* subset := lookup_or IndexError (subsets !! device_id) in
         let* device :=
           new_EdgeDevice device_name handle_server subset es in
         let device_connections :=
           Dict.set device_id {| handle := handle_device; process := device |}
                    device_connections in
         start device ;;
         ret device_connections)
      (roster (length pre)) w
    = Raised KeyError
        {| pipes := replicate (length (pre ++ suf)) empty_pipe;
           processes := devices_of es Running (pre ++ suf) subsets;
           np_random := np_random w; torch_random := torch_random w;
           scheduler := scheduler w;
           trace := trace w ++
                    (i ← seq (length pre) (length suf);
                     [EvPipe i; EvStart i]) |}.
Proof.
  intros Hnone suf.
  induction suf as [|c0 suf IH]; intros pre w Hidx Hlen Hp Hq.
  - cbn [app for_each]. unfold bind at 1. unfold bind at 1.
    rewrite Hnone. cbn [lookup_or]. unfold raise. f_equal.
    rewrite !app_nil_r. destruct w; simpl in *. by subst.
  - assert (Dict.get c0 (class_to_idx d) = Some (length pre)) as Hc0
      by (apply Hidx, list_lookup_middle; done).
    rewrite length_app in Hlen. cbn [length] in Hlen.
    destruct (lookup_lt_is_Some_2 subsets (length pre)) as [sub Hsub];
      [lia|].
    assert (length (devices_of es Running pre subsets) = length pre) as Hlq
      by (rewrite devices_of_length; lia).
    cbn [app for_each].
    unfold bind at 1.
    unfold bind at 1.
    rewrite (lookup_or_some _ _ _ _ Hc0).
    unfold bind at 1. unfold Pipe_duplex at 1. rewrite Hp, length_replicate.
    unfold bind at 1.
    rewrite (lookup_or_some _ _ _ _ Hsub).
    unfold bind at 1. unfold new_EdgeDevice at 1.
    cbn [processes log set_pipes set_processes].
    rewrite Hq, Hlq.
    unfold bind at 1. unfold start at 1. unfold ret at 1.
    cbn [processes pipes np_random torch_random scheduler trace log
         set_pipes set_processes].
    rewrite (dict_set_fresh (length pre)), <- roster_S
      by (rewrite roster_keys, elem_of_seq; lia).
    replace (S (length pre)) with (length (pre ++ [c0]))
      by (rewrite length_app; simpl; lia).
    etrans; [apply IH|].
    + by rewrite <- app_assoc.
    + rewrite <- app_assoc, length_app. simpl. lia.
    + cbn [pipes log set_processes set_pipes]. rewrite Hp, length_app.
      cbn [length]. by rewrite Nat.add_1_r, replicate_S_end.
    + cbn [processes log set_processes set_pipes].
      rewrite (devices_of_snoc _ _ _ _ _ _ Hsub).
      rewrite Hq, alter_app_r_alt by (rewrite Hlq; lia).
      by rewrite Hlq, Nat.sub_diag.
    + f_equal; [by rewrite <- app_assoc..|].
      cbn [np_random torch_random scheduler trace log
           set_pipes set_processes].
      rewrite <- !app_assoc. f_equal. rewrite length_app. cbn [length seq].
      rewrite bind_cons. cbn [app]. by rewrite Nat.add_1_r.
Qed.

End SetupFailures.

(** X3. When the split gives fewer partitions than the dataset has classes,
    [train_federated] raises [IndexError] in its set-up, at the first class
    that has no partition.  By then it has started a device for every class
    before that one, which it leaves running, and has opened the pipe of
    the class it fails on, which no device will ever hold. *)
Theorem setup_fails_on_missing_partition `{Ext : External} (d : CIFAR10)
    (s : Settings) (m : Model) (w : World) :
  wf_dataset d -> fresh w -> length (split d s) < length (classes d) ->
  exists w',
    train_federated m d s w = Raised IndexError w' /\
    processes w' = devices d s Running /\
    length (processes w') = length (split d s) /\
    length (pipes w') = S (length (split d s)) /\
    trace w' = trace w ++ setup_events (length (split d s)) ++
               [EvPipe (length (split d s))].
Proof.
  intros Hwf [Hp Hq] Hlen. eexists. split.
  - unfold train_federated, bind at 1. unfold create_devices.
    rewrite (create_devices_runs_short d (split d s) (edge_settings s) []
               (classes d) w); try done. simpl. lia.
  - cbn [processes pipes trace]. split_and!; [done| | |].
    + rewrite devices_of_length. lia.
    + by rewrite length_replicate.
    + simpl. by rewrite Nat.sub_0_r.
Qed.

Lemma setup_fails_on_missing_partition_witness :
  let d := Demo.dataset in
  let s := Demo.settings 2 in
  let w := Demo.boot 1 [] in
  exists w',
    train_federated (Ext := DemoFaulty.short_split) 1%Q d s w
    = Raised IndexError w' /\
    processes w' = devices (Ext := DemoFaulty.short_split) d s Running /\
    length (processes w') = length (split (Ext := DemoFaulty.short_split) d s) /\
    length (pipes w') = S (length (split (Ext := DemoFaulty.short_split) d s)) /\
    trace w'
    = trace w ++
      setup_events (length (split (Ext := DemoFaulty.short_split) d s)) ++
      [EvPipe (length (split (Ext := DemoFaulty.short_split) d s))].
Proof.
  intros d s w.
  apply (setup_fails_on_missing_partition (Ext := DemoFaulty.short_split) d s
           1%Q w).
  - apply demo_wf.
  - apply demo_fresh.
  - simpl. lia.
Defined.

(** X4. When a class of the dataset has no entry in [class_to_idx], and
    every class before it is indexed by its place and has its partition,
    [train_federated] raises [KeyError] in its set-up, at that class
    (line 81).  By then it has opened a pipe and started a device for every
    class before that one, which it leaves running, and has done nothing
    else: no pipe for the class it fails on, no round, no shut-down. *)
Theorem setup_fails_on_unindexed_class `{Ext : External} (d : CIFAR10)
    (s : Settings) (m : Model) (w : World) (pre : list string) (c : string)
    (suf : list string) :
  classes d = pre ++ c :: suf ->
  Dict.get c (class_to_idx d) = None ->
  (forall i c', pre !! i = Some c' ->
                Dict.get c' (class_to_idx d) = Some i) ->
  length pre <= length (split d s) ->
  fresh w ->
  exists w',
    train_federated m d s w = Raised KeyError w' /\
    processes w' = devices_of (edge_settings s) Running pre (split d s) /\
    length (processes w') = length pre /\
    pipes w' = replicate (length pre) empty_pipe /\
    trace w' = trace w ++ setup_events (length pre).
Proof.
  intros Hcs Hnone Hidx Hlen [Hp Hq]. eexists. split.
  - unfold train_federated, bind at 1. unfold create_devices. rewrite Hcs.
    rewrite (create_devices_runs_unindexed d (split d s) (edge_settings s)
               c suf Hnone pre [] w); done.
  - cbn [processes pipes trace app]. split_and!; [done| |done..].
    rewrite devices_of_length. lia.
Qed.

Lemma setup_fails_on_unindexed_class_witness :
  let d := {| classes := ["cat"; "dog"; "frog"];
              class_to_idx := [("cat", 0); ("frog", 2)];
              samples := samples Demo.dataset |} in
  let s := Demo.settings 2 in
  let w := Demo.boot 1 [] in
  exists w',
    train_federated (Ext := Demo.two) 1%Q d s w = Raised KeyError w' /\
    processes w'
    = devices_of (edge_settings s) Running ["cat"]
                 (split (Ext := Demo.two) d s) /\
    length (processes w') = 1 /\
    pipes w' = replicate 1 empty_pipe /\
    trace w' = trace w ++ setup_events 1.
Proof.
  intros d s w.
  apply (setup_fails_on_unindexed_class (Ext := Demo.two) d s 1%Q w
           ["cat"] "dog" ["frog"]).
  - reflexivity.
  - reflexivity.
  - intros [|i] c' Hc'; [by injection Hc' as <-|done].
  - simpl. lia.
  - apply demo_fresh.
Defined.

(** ** The process table through the rounds *)

Section ProcessFacts.
Context `{Ext : External}.

Lemma keeps_still {A} (m : M A) :
  (forall w, outcome_world (m w) = w) -> keeps_processes m.
Proof.
  intros Hm w _. rewrite Hm. split; [done|].
  exists []. by rewrite app_nil_r.
Qed.

Lemma keeps_ret {A} (a : A) : keeps_processes (ret a).
Proof. by apply keeps_still. Qed.

Lemma keeps_raise {A} e : keeps_processes (raise (A := A) e).
Proof. by apply keeps_still. Qed.

Lemma keeps_block {A} : keeps_processes (block (A := A)).
Proof. by apply keeps_still. Qed.

Lemma keeps_emit e : not_terminate e -> keeps_processes (emit e).
Proof.
  intros He w _. split; [done|]. exists [e]. split; [done|].
  by apply Forall_singleton.
Qed.

Lemma keeps_lookup_or {A} e (o : option A) : keeps_processes (lookup_or e o).
Proof. destruct o; [apply keeps_ret|apply keeps_raise]. Qed.

Lemma keeps_bind {A B} (m : M A) (k : A -> M B) :
  keeps_processes m -> (forall a, keeps_processes (k a)) ->
  keeps_processes (bind m k).
Proof.
  intros Hm Hk w Hw. unfold bind.
  destruct (Hm w Hw) as (Hprocs & evs & Htr & Hevs).
  destruct (m w) as [a w1|e w1|w1]; simpl in *; [|by eauto..].
  destruct (Hk a w1) as (Hprocs' & evs' & Htr' & Hevs').
  { unfold unsignalled. by rewrite Hprocs. }
  split; [congruence|]. exists (evs ++ evs'). split.
  - by rewrite Htr', Htr, app_assoc.
  - by apply Forall_app.
Qed.

Lemma keeps_for_each {A S} (l : list A) (body : A -> S -> M S) (s : S) :
  (forall a s, keeps_processes (body a s)) ->
  keeps_processes (for_each l body s).
Proof.
  intros Hbody. revert s. induction l as [|a l IH]; intros s; simpl.
  - apply keeps_ret.
  - apply keeps_bind; [apply Hbody|apply IH].
Qed.

Lemma keeps_np_random_choice n k : keeps_processes (np_random_choice n k).
Proof.
  intros w _. unfold np_random_choice.
  destruct (decide (n = 0 /\ k <> 0%Z));
    [split; [done|]; exists []; by rewrite app_nil_r|].
  destruct (decide (0 <= k <= Z.of_nat n)%Z).
  - destruct (permutation n (np_random w)) as [idx s']. split; [done|].
    eexists [_]. split; [done|]. by apply Forall_singleton.
  - destruct (intp k) as [k'|]; [destruct (decide (Z.of_nat n < k')%Z)|];
      (split; [done|]; exists []; by rewrite app_nil_r).
Qed.

Lemma keeps_send h m : keeps_processes (send h m).
Proof.
  intros w _. split; [done|]. eexists [_]. split; [done|].
  by apply Forall_singleton.
Qed.

Lemma keeps_recv h : keeps_processes (recv h).
Proof.
  intros w _. unfold recv.
  destruct (pipes w !! h) as [p|];
    [|split; [done|]; exists []; by rewrite app_nil_r].
  destruct (to_server p);
    [split; [done|]; exists []; by rewrite app_nil_r|].
  split; [done|]. eexists [_]. split; [done|]. by apply Forall_singleton.
Qed.

Lemma device_step_unsignalled pid w :
  unsignalled w ->
  processes (device_step pid w) = processes w /\
  exists evs, trace (device_step pid w) = trace w ++ evs /\
              Forall not_terminate evs.
Proof.
  intros Hw. unfold device_step.
  assert (processes w = processes w /\
          exists evs, trace w = trace w ++ evs /\ Forall not_terminate evs)
    as Hstill by (split; [done|]; exists []; by rewrite app_nil_r).
  destruct (processes w !! pid) as [dev|] eqn:Hdev; [|done].
  destruct (dev_status dev) eqn:Hst; try done.
  - destruct (pipes w !! dev_handle dev) as [p|]; [|done].
    destruct (to_device p); [done|].
    destruct (local_train _ _ _). split; [done|].
    eexists [_]. split; [done|]. by apply Forall_singleton.
  - exfalso. unfold unsignalled in Hw. rewrite Forall_lookup in Hw.
    by apply (Hw _ _ Hdev).
Qed.

Lemma run_burst_unsignalled burst w :
  unsignalled w ->
  processes (run_burst burst w) = processes w /\
  exists evs, trace (run_burst burst w) = trace w ++ evs /\
              Forall not_terminate evs.
Proof.
  revert w. induction burst as [|pid burst IH]; intros w Hw.
  - split; [done|]. exists []. by rewrite app_nil_r.
  - unfold run_burst in *. cbn [foldl].
    destruct (device_step_unsignalled pid w Hw) as (Hp1 & evs1 & Ht1 & He1).
    destruct (IH (device_step pid w)) as (Hp2 & evs2 & Ht2 & He2).
    { unfold unsignalled. by rewrite Hp1. }
    split; [congruence|]. exists (evs1 ++ evs2). split.
    + by rewrite Ht2, Ht1, app_assoc.
    + by apply Forall_app.
Qed.

Lemma keeps_wait handles : keeps_processes (wait handles).
Proof.
  intros w Hw. unfold wait. destruct (scheduler w) as [|burst rest].
  - split; [done|]. exists []. by rewrite app_nil_r.
  - cbn [outcome_world].
    by apply (run_burst_unsignalled burst (set_scheduler rest w)).
Qed.

Lemma keeps_select_round n dc : keeps_processes (select_round n dc).
Proof.
  unfold select_round. apply keeps_bind; [apply keeps_np_random_choice|].
  intros ids. apply keeps_for_each. intros i acc.
  apply keeps_bind; [apply keeps_lookup_or|]. intros c. apply keeps_ret.
Qed.

Lemma keeps_dispatch i2c dc m : keeps_processes (dispatch i2c dc m).
Proof.
  unfold dispatch. apply keeps_for_each. intros kv [].
  apply keeps_bind; [apply keeps_lookup_or|]. intros cls.
  apply keeps_bind; [by apply keeps_emit|]. intros _. apply keeps_send.
Qed.

Lemma keeps_receive c2i ready locals :
  keeps_processes (receive c2i ready locals).
Proof.
  unfold receive. apply keeps_for_each. intros h acc.
  apply keeps_bind; [apply keeps_recv|]. intros r.
  apply keeps_bind; [by apply keeps_emit|]. intros _.
  apply keeps_bind; [apply keeps_lookup_or|]. intros i. apply keeps_ret.
Qed.

Lemma keeps_collect_loop clock c2i dc locals :
  keeps_processes (collect_loop clock c2i dc locals).
Proof.
  revert locals. induction clock as [|b clock IH]; intros locals; simpl.
  - case_decide; [apply keeps_ret|apply keeps_block].
  - case_decide; [apply keeps_ret|].
    apply keeps_bind; [apply keeps_wait|]. intros ready.
    apply keeps_bind; [apply keeps_receive|]. intros locals'. apply IH.
Qed.

Lemma keeps_collect c2i dc locals : keeps_processes (collect c2i dc locals).
Proof. intros w Hw. unfold collect. by apply keeps_collect_loop. Qed.

Lemma keeps_round d i2c dc i_epoch m :
  keeps_processes (round d i2c dc i_epoch m).
Proof.
  unfold round. apply keeps_bind; [apply keeps_select_round|]. intros in_round.
  apply keeps_bind; [apply keeps_dispatch|]. intros _.
  apply keeps_bind; [apply keeps_collect|]. intros [lm ll].
  apply keeps_bind; [by apply keeps_emit|]. intros _.
  apply keeps_bind; [apply keeps_lookup_or|]. intros m'.
  apply keeps_bind; [|intros l; apply keeps_bind;
                               [by apply keeps_emit
                               |intros _; apply keeps_ret]].
  case_decide; [apply keeps_raise|apply keeps_ret].
Qed.

Lemma keeps_rounds d i2c dc epochs m :
  keeps_processes
    (for_each epochs (fun i_epoch model => round d i2c dc i_epoch model) m).
Proof. apply keeps_for_each. intros i m'. apply keeps_round. Qed.

Lemma setup_events_not_terminate n : Forall not_terminate (setup_events n).
Proof.
  unfold setup_events. apply Forall_forall. intros e He.
  apply list_elem_of_bind in He as (i & He & _).
  apply elem_of_cons in He as [->|He]; [done|].
  by apply list_elem_of_singleton in He as ->.
Qed.

End ProcessFacts.

Section FailureFacts.
Context `{Laws : ExternalLaws}.
Context (d : CIFAR10) (s : Settings) (Hwf : wf_dataset d).

Local Abbreviation n := (length (classes d)).

Lemma create_devices_after_setup w :
  fresh w ->
  create_devices d (split d s) (edge_settings s) w
  = Returned (roster n) (after_setup d s w).
Proof. intros. by apply create_devices_fresh. Qed.

Lemma after_setup_unsignalled w : unsignalled (after_setup d s w).
Proof.
  unfold unsignalled. cbn [processes after_setup]. apply Forall_lookup.
  intros i dev Hdev. by destruct (devices_running d s i dev Hdev) as (-> & _).
Qed.

Lemma terminate_all_running w :
  processes w = devices d s Running ->
  exists w', terminate_all (invert (class_to_idx d)) (roster n) w
             = Returned tt w'.
Proof.
  intros Hprocs.
  destruct (terminate_loop d s Hwf n 0 w) as (w' & Hrun & _).
  - done.
  - by rewrite Hprocs, devices_length.
  - intros i. rewrite Hprocs. destruct (devices d s Running !! i); [|done].
    simpl. try case_decide; first [done | lia].
  - by exists w'.
Qed.

Lemma train_federated_after_setup m w :
  fresh w ->
  train_federated m d s w
  = rounds_then_shutdown d s (roster n) m (after_setup d s w).
Proof.
  intros Hfresh. unfold train_federated. unfold bind at 1.
  by rewrite create_devices_after_setup.
Qed.

Lemma rounds_then_shutdown_cases dc m w :
  rounds_then_shutdown d s dc m w
  = match for_each (range (num_global_epochs s))
            (fun i_epoch model =>
               round d (invert (class_to_idx d)) dc i_epoch model) m w with
    | Returned m1 w1 =>
        match terminate_all (invert (class_to_idx d)) dc w1 with
        | Returned _ w2 => Returned m1 w2
        | Raised e w2 => Raised e w2
        | Blocked w2 => Blocked w2
        end
    | Raised e w1 => Raised e w1
    | Blocked w1 => Blocked w1
    end.
Proof. done. Qed.

Lemma first_round_decides m w (o : Outcome Model) :
  fresh w -> (0 < num_global_epochs s)%Z ->
  round d (invert (class_to_idx d)) (roster n) 0 m (after_setup d s w) = o ->
  (forall m' w', o <> Returned m' w') ->
  train_federated m d s w = o.
Proof.
  intros Hfresh Hpos Hround Hfail.
  rewrite train_federated_after_setup by done.
  unfold rounds_then_shutdown. unfold bind at 1. unfold range.
  destruct (Z.to_nat (num_global_epochs s)) as [|r] eqn:Hr; [lia|].
  cbn [seq for_each]. unfold bind at 1. rewrite Hround.
  destruct o as [m' w'| |]; [by destruct (Hfail m' w')|done..].
Qed.

End FailureFacts.

(** X5. [train_federated] has no clean-up for the case that it does not
    return.  When it ends in an exception, or stays blocked in its
    collecting loop for ever, it has called [terminate()] on no device:
    every device the set-up started is still running, and no call of
    [terminate()] is among the things it has done. *)
Theorem failure_leaves_devices_running `{Laws : ExternalLaws} (d : CIFAR10)
    (s : Settings) (m : Model) (w : World) :
  wf_dataset d -> fresh w ->
  (forall m' w', train_federated m d s w <> Returned m' w') ->
  processes (outcome_world (train_federated m d s w)) = devices d s Running /\
  (forall dev, dev ∈ processes (outcome_world (train_federated m d s w)) ->
               dev_status dev = Running) /\
  exists evs,
    trace (outcome_world (train_federated m d s w)) = trace w ++ evs /\
    forall pid, EvTerminate pid ∉ evs.
Proof.
  intros Hwf Hfresh Hfail.
  assert (processes (outcome_world (train_federated m d s w))
          = devices d s Running /\
          exists evs,
            trace (outcome_world (train_federated m d s w))
            = trace (after_setup d s w) ++ evs /\
            Forall not_terminate evs) as (Hprocs & evs & Htr & Hevs).
  { rewrite (train_federated_after_setup d s Hwf m w Hfresh) in Hfail |- *.
    rewrite rounds_then_shutdown_cases in Hfail |- *. revert Hfail.
    pose proof (keeps_rounds d (invert (class_to_idx d))
                  (roster (length (classes d)))
                  (range (num_global_epochs s)) m (after_setup d s w)
                  (after_setup_unsignalled d s w)) as Hkeep.
    destruct (for_each _ _ m (after_setup d s w)) as [m1 w1|e w1|w1];
      [|intros _; exact Hkeep..].
    destruct Hkeep as [Hkeep _].
    cbn [outcome_world after_setup processes] in Hkeep.
    destruct (terminate_all_running d s Hwf w1 Hkeep) as (w2 & Hterm).
    rewrite Hterm. intros Hfail. by destruct (Hfail m1 w2). }
  split_and!; [done| |].
  - rewrite Hprocs. intros dev Hdev.
    apply list_elem_of_lookup in Hdev as [i Hdev].
    by destruct (devices_running d s i dev Hdev) as (-> & _).
  - exists (setup_events (length (classes d)) ++ evs). split.
    + rewrite Htr. cbn [trace after_setup]. by rewrite app_assoc.
    + intros pid Hin.
      assert (Forall not_terminate
                (setup_events (length (classes d)) ++ evs)) as Hall
        by (apply Forall_app; split;
            [apply setup_events_not_terminate|done]).
      rewrite Forall_forall in Hall. exact (Hall _ Hin).
Qed.

Lemma failure_leaves_devices_running_witness :
  let d := Demo.dataset in
  let s := Demo.settings 2 in
  let w := Demo.boot 1 [[0; 1; 2]] in
  let run := train_federated (Ext := Demo.two) 1%Q d s w in
  processes (outcome_world run) = devices (Ext := Demo.two) d s Running /\
  (forall dev, dev ∈ processes (outcome_world run) ->
               dev_status dev = Running) /\
  exists evs,
    trace (outcome_world run) = trace w ++ evs /\
    forall pid, EvTerminate pid ∉ evs.
Proof.
  intros d s w run.
  apply (failure_leaves_devices_running (Laws := demo_laws 2) d s 1%Q w).
  - apply demo_wf.
  - apply demo_fresh.
  - intros m' w' H. vm_compute in H. discriminate H.
Defined.

(** X6. With a quorum size that numpy rejects (larger than the number of
    classes, or negative) and at least one epoch to run, [train_federated]
    raises numpy's error from its first round: [ValueError] when the size
    is an integer of 64 bits, [OverflowError] when it is [2^64] or more.
    It has done the whole set-up by then and nothing else, and leaves the
    world as the set-up made it, every pipe empty and every device
    running. *)
Theorem bad_quorum_fails_after_setup `{Laws : ExternalLaws} (d : CIFAR10)
    (s : Settings) (m : Model) (w : World) :
  wf_dataset d -> fresh w -> (0 < num_global_epochs s)%Z ->
  (Z.of_nat (length (classes d)) < MAX_USERS_IN_ROUND \/
   MAX_USERS_IN_ROUND < 0)%Z ->
  exists e,
    train_federated m d s w = Raised e (after_setup d s w) /\
    (length (classes d) = 0 \/ (- 2 ^ 63 <= MAX_USERS_IN_ROUND < 2 ^ 64)%Z ->
     exists msg, e = ValueError msg) /\
    (length (classes d) <> 0 -> (2 ^ 64 <= MAX_USERS_IN_ROUND)%Z ->
     e = OverflowError).
Proof.
  intros Hwf Hfresh Hpos Hk.
  destruct (np_random_choice_raises (length (classes d)) MAX_USERS_IN_ROUND
              (after_setup d s w) Hk) as (e & Hrun & Hval & Hover).
  exists e. split_and!; [|done..].
  apply (first_round_decides d s Hwf m w); [done..| |done].
  unfold round, bind at 1. unfold select_round, bind at 1. by rewrite Hrun.
Qed.

Lemma bad_quorum_fails_after_setup_witness :
  let d := Demo.dataset in
  let s := Demo.settings 2 in
  let w := Demo.boot 1 [[0; 1; 2]] in
  exists e,
    train_federated (Ext := Demo.external (2 ^ 64)) 1%Q d s w
    = Raised e (after_setup (Ext := Demo.external (2 ^ 64)) d s w) /\
    (length (classes d) = 0 \/
     (- 2 ^ 63 <= MAX_USERS_IN_ROUND (External := Demo.external (2 ^ 64))
      < 2 ^ 64)%Z ->
     exists msg, e = ValueError msg) /\
    (length (classes d) <> 0 ->
     (2 ^ 64 <= MAX_USERS_IN_ROUND (External := Demo.external (2 ^ 64)))%Z ->
     e = OverflowError).
Proof.
  intros d s w.
  apply (bad_quorum_fails_after_setup (Laws := demo_laws (2 ^ 64)) d s 1%Q w).
  - apply demo_wf.
  - apply demo_fresh.
  - simpl. lia.
  - left. simpl. lia.
Defined.

(** X7. With a quorum size of 0 and at least one epoch to run,
    [train_federated] never returns a model.  Its first round draws nobody,
    sends nothing, skips the collecting loop and calls the averaging on the
    empty list; if that raises, so does the round, and if it gives a model,
    the mean of the losses divides by [len(local_losses)], which is 0, and
    the round raises [ZeroDivisionError].  The devices are left running. *)
Theorem zero_quorum_fails_first_round `{Laws : ExternalLaws} (d : CIFAR10)
    (s : Settings) (m : Model) (w : World) :
  wf_dataset d -> fresh w -> (0 < num_global_epochs s)%Z ->
  MAX_USERS_IN_ROUND = 0%Z ->
  let np' := (permutation (length (classes d)) (np_random w)).2 in
  train_federated m d s w
  = Raised (match federated_averaging [] with
            | Some _ => ZeroDivisionError
            | None => AveragingError
            end)
      (log (EvAveraging [])
         (log (EvChoice []) (set_np_random np' (after_setup d s w)))).
Proof.
  intros Hwf Hfresh Hpos Hk np'.
  apply (first_round_decides d s Hwf m w); [done..| |].
  - unfold round, bind at 1.
    rewrite select_round_ok by (rewrite Hk; lia).
    assert (draw (length (classes d)) MAX_USERS_IN_ROUND
                 (np_random (after_setup d s w)) = []) as ->
      by (unfold draw; by rewrite Hk).
    cbn [in_round_of fmap list_fmap dispatch for_each].
    unfold bind at 1. unfold ret at 1.
    unfold bind at 1. unfold collect.
    destruct (scheduler _); cbn [collect_loop];
      (rewrite decide_True by done);
      unfold ret at 1; unfold bind at 1; unfold emit at 1;
      cbn [Dict.values fmap list_fmap];
      unfold bind at 1;
      (destruct (federated_averaging []) as [m'|]; cbn [lookup_or];
       [unfold ret at 1; unfold bind at 1;
        rewrite decide_True by done; done
       |done]).
  - intros m' w'. by destruct (federated_averaging []).
Qed.

Lemma zero_quorum_fails_first_round_witness :
  let d := Demo.dataset in
  let s := Demo.settings 2 in
  let w := Demo.boot 1 [[0; 1; 2]] in
  let np' := (permutation (Ext := Demo.external 0)
                (length (classes d)) (np_random w)).2 in
  train_federated (Ext := Demo.external 0) 1%Q d s w
  = Raised (match federated_averaging (External := Demo.external 0) [] with
            | Some _ => ZeroDivisionError
            | None => AveragingError
            end)
      (log (EvAveraging [])
         (log (EvChoice [])
            (set_np_random np' (after_setup (Ext := Demo.external 0) d s w)))).
Proof.
  intros d s w.
  apply (zero_quorum_fails_first_round (Laws := demo_laws 0) d s 1%Q w).
  - apply demo_wf.
  - apply demo_fresh.
  - simpl. lia.
  - reflexivity.
Defined.

(** ** What a run depends on *)

Section ResultFacts.
Context `{Laws : ExternalLaws}.
Context (d : CIFAR10) (s : Settings).

Local Abbreviation n := (length (classes d)).

Lemma rounds_trace_result r :
  order_insensitive ->
  forall i m m' evs np,
    rounds_trace d s i r m m' evs ->
    choices evs = draws n MAX_USERS_IN_ROUND r np ->
    rounds_result d s r m np = Some m'.
Proof.
  intros Hord. induction r as [|r IH]; intros i m m' evs np Hrt Hch.
  - destruct Hrt as [-> _]. done.
  - destruct Hrt as (m1 & evs1 & evs2 & -> & Hrt1 & Hrt2).
    destruct Hrt1 as (ids & coll & -> & _ & _ & _ & Hev & Hperm & Hok & Havg).
    rewrite choices_app, (choices_round_events d s i m ids coll Hev) in Hch.
    cbn [draws app] in Hch. injection Hch as Hids Hch.
    cbn [rounds_result]. unfold round_result. rewrite <- Hids.
    rewrite <- (Hord (averaged coll)), Havg; [by eapply IH|].
    unfold averaged.
    rewrite <- (received_answers d s m (received coll) ids Hperm Hok).
    by rewrite <- list_fmap_compose.
Qed.

End ResultFacts.

Section DemoResultFacts.
Import Demo.

Lemma foldl_Qplus_proper (l : list Q) (a b : Q) :
  (a == b)%Q -> (foldl Qplus a l == foldl Qplus b l)%Q.
Proof.
  revert a b. induction l as [|x l IH]; intros a b Hab; simpl; [done|].
  apply IH. by rewrite Hab.
Qed.

Lemma foldl_Qplus_Permutation (l l' : list Q) (a : Q) :
  l ≡ₚ l' -> (foldl Qplus a l == foldl Qplus a l')%Q.
Proof.
  intros Hperm. revert a.
  induction Hperm as [|x l l' _ IH|x y l|l l' l'' _ IH1 _ IH2]; intros a;
    simpl.
  - reflexivity.
  - apply IH.
  - apply foldl_Qplus_proper. ring.
  - by rewrite IH1.
Qed.

Lemma average_Permutation (l l' : list Q) :
  l ≡ₚ l' -> average l = average l'.
Proof.
  intros Hperm. unfold average. apply Qred_complete.
  rewrite (Permutation_length Hperm).
  by rewrite (foldl_Qplus_Permutation _ _ 0%Q Hperm).
Qed.

Lemma demo_order_insensitive k : order_insensitive (Ext := external k).
Proof.
  intros ms ms' Hperm.
  change (match ms with [] => None | _ => Some (average ms) end
          = match ms' with [] => None | _ => Some (average ms') end).
  destruct ms as [|m ms].
  - apply Permutation_nil_l in Hperm. by subst.
  - destruct ms' as [|m' ms'].
    + by apply Permutation_nil_r in Hperm.
    + f_equal. by apply average_Permutation.
Qed.

End DemoResultFacts.

(** X8. A round that completes leaves the world as it found it between
    rounds: every device running and every pipe empty in both directions,
    so that no model and no result of this round is still in flight when
    the next one starts.  It has taken exactly one permutation from numpy's
    generator, has left torch's generator alone, and has used up a front
    stretch of the schedule. *)
Theorem round_restores_quiescence `{Laws : ExternalLaws} (d : CIFAR10)
    (s : Settings) (i_epoch : nat) (m : Model) (w : World) :
  wf_dataset d -> quiescent d s w -> averaging_total ->
  (1 <= MAX_USERS_IN_ROUND <= Z.of_nat (length (classes d)))%Z ->
  (forall i, i ∈ draw (length (classes d)) MAX_USERS_IN_ROUND (np_random w) ->
             i ∈ mjoin (scheduler w)) ->
  exists m' w' used,
    round d (invert (class_to_idx d)) (roster (length (classes d)))
          i_epoch m w = Returned m' w' /\
    quiescent d s w' /\
    (forall i, i < length (classes d) -> pipes w' !! i = Some empty_pipe) /\
    np_random w' = (permutation (length (classes d)) (np_random w)).2 /\
    torch_random w' = torch_random w /\
    scheduler w = used ++ scheduler w'.
Proof.
  intros Hwf Hq Havg Hk Hcov.
  destruct (round_returns d s Hwf i_epoch m w Hq Havg Hk Hcov)
    as (m' & w' & coll & used & Hrun & Hq' & _ & _ & _ & Hused & _ & Hnp & Hto).
  exists m', w', used. split_and!; try done.
  intros i Hi. destruct Hq' as [_ ->]. by apply lookup_replicate_2.
Qed.

Lemma round_restores_quiescence_witness :
  let d := Demo.dataset in
  let s := Demo.settings 2 in
  let w := Demo.ready 2 1 Demo.sched in
  exists m' w' used,
    round (Ext := Demo.two) d (invert (class_to_idx d))
          (roster (length (classes d))) 0 1%Q w = Returned m' w' /\
    quiescent (Ext := Demo.two) d s w' /\
    (forall i, i < length (classes d) -> pipes w' !! i = Some empty_pipe) /\
    np_random w'
    = (permutation (Ext := Demo.two) (length (classes d)) (np_random w)).2 /\
    torch_random w' = torch_random w /\
    scheduler w = used ++ scheduler w'.
Proof.
  intros d s w.
  apply (round_restores_quiescence (Laws := demo_laws 2) d s 0 1%Q w).
  - apply demo_wf.
  - apply demo_quiescent.
  - apply demo_averaging_total.
  - simpl. lia.
  - apply demo_draw_covered.
Defined.

(** X10. [train] returns nothing, the model of [train_federated] is
    dropped; what it does is the run of [train_federated] on the model that
    [CNNCifar10()] builds right after [torch.manual_seed(settings.seed)]:
    the first model sent is the one that seed gives, whatever state torch's
    generator was in.  The devices get [settings.device] as [train] has set
    it, [cuda:0] when cuda is available and [cpu] when not. *)
Theorem train_starts_from_seeded_model `{Laws : ExternalLaws}
    (args : Settings) (cuda : bool) (d : CIFAR10) (w : World) :
  wf_dataset d -> fresh w -> averaging_total ->
  (1 <= MAX_USERS_IN_ROUND <= Z.of_nat (length (classes d)))%Z ->
  fair (length (classes d)) (Z.to_nat (num_global_epochs args))
       (scheduler w) ->
  let s := set_device (if cuda then cuda0 else cpu) args in
  let m0 := (CNNCifar10 (torch_seed (seed args))).1 in
  exists m' w' evs,
    train args cuda d w = Returned tt w' /\
    trace w' = trace w ++ setup_events (length (classes d)) ++ evs ++
               shutdown_events (classes d) /\
    rounds_trace d s 0 (Z.to_nat (num_global_epochs args)) m0 m' evs /\
    processes w' = devices d s Signalled /\
    (forall dev, dev ∈ processes w' ->
                 ds_device (dev_settings dev) = if cuda then cuda0 else cpu).
Proof.
  intros Hwf [Hp Hq] Havg Hk Hfair s m0. unfold train. fold s.
  unfold bind at 1. unfold torch_manual_seed at 1.
  unfold bind at 1. unfold new_CNNCifar10 at 1.
  cbn [torch_random set_torch_random].
  replace (seed s) with (seed args) by done. subst m0.
  destruct (CNNCifar10 (torch_seed (seed args))) as [m0 t0].
  set (w2 := set_torch_random t0 _).
  destruct (train_federated_returns d s Hwf m0 w2)
    as (m' & w' & evs & Hrun & Htr & Hrt & _ & Hprocs & _); [done..|].
  exists m', w', evs. split_and!; try done.
  - unfold bind. by rewrite Hrun.
  - intros dev Hdev. rewrite Hprocs in Hdev.
    apply list_elem_of_lookup in Hdev as [i Hdev].
    apply devices_lookup in Hdev as (c & sub & _ & _ & ->). done.
Qed.

Lemma train_starts_from_seeded_model_witness :
  let args := Demo.settings 2 in
  let d := Demo.dataset in
  let w := Demo.boot 1 Demo.sched in
  let s := set_device cpu args in
  let m0 := (CNNCifar10 (External := Demo.two)
               (torch_seed (External := Demo.two) (seed args))).1 in
  exists m' w' evs,
    train (Ext := Demo.two) args false d w = Returned tt w' /\
    trace w' = trace w ++ setup_events (length (classes d)) ++ evs ++
               shutdown_events (classes d) /\
    rounds_trace (Ext := Demo.two) d s 0 (Z.to_nat (num_global_epochs args))
                 m0 m' evs /\
    processes w' = devices (Ext := Demo.two) d s Signalled /\
    (forall dev, dev ∈ processes w' -> ds_device (dev_settings dev) = cpu).
Proof.
  intros args d w.
  apply (train_starts_from_seeded_model (Laws := demo_laws 2) args false d w).
  - apply demo_wf.
  - apply demo_fresh.
  - apply demo_averaging_total.
  - simpl. lia.
  - apply demo_fair.
Defined.

(** X11. With the quorum size equal to the number of classes, every round
    selects every device: the connections of the round are those of the
    whole roster, in the order numpy's permutation puts them. *)
Theorem full_quorum_selects_every_device `{Ext : External} (n : nat)
    (w : World) :
  MAX_USERS_IN_ROUND = Z.of_nat n ->
  exists in_round w',
    select_round n (roster n) w = Returned in_round w' /\
    in_round ≡ₚ roster n /\
    Dict.keys in_round = (permutation n (np_random w)).1.
Proof.
  intros Hk. eexists _, _. split; [apply select_round_ok; lia|].
  assert (draw n MAX_USERS_IN_ROUND (np_random w)
          = (permutation n (np_random w)).1) as ->.
  { unfold draw. rewrite Hk, take_ge; [done|].
    rewrite (Permutation_length (permutation_Permutation n (np_random w))).
    rewrite length_seq. lia. }
  split.
  - unfold in_round_of, roster. apply fmap_Permutation.
    apply permutation_Permutation.
  - unfold in_round_of. apply dict_keys_fmap.
Qed.

Lemma full_quorum_selects_every_device_witness :
  exists in_round w',
    select_round (Ext := Demo.external 3) 3 (roster 3) (Demo.boot 1 [])
    = Returned in_round w' /\
    in_round ≡ₚ roster 3 /\
    Dict.keys in_round
    = (permutation (Ext := Demo.external 3) 3 (np_random (Demo.boot 1 []))).1.
Proof.
  apply (full_quorum_selects_every_device (Ext := Demo.external 3) 3
           (Demo.boot 1 [])).
  reflexivity.
Defined.

(** X12. When the averaging does not look at the order of its models, the
    model [train_federated] returns does not depend on the order in which
    the devices get to run or their results arrive: under any schedule that
    lets the rounds complete it is the model got by averaging, round after
    round, the answers of the devices numpy draws. *)
Theorem result_does_not_depend_on_schedule `{Laws : ExternalLaws}
    (d : CIFAR10) (s : Settings) (m : Model) (w : World) :
  wf_dataset d -> fresh w -> averaging_total -> order_insensitive ->
  (1 <= MAX_USERS_IN_ROUND <= Z.of_nat (length (classes d)))%Z ->
  fair (length (classes d)) (Z.to_nat (num_global_epochs s)) (scheduler w) ->
  exists m' w',
    train_federated m d s w = Returned m' w' /\
    rounds_result d s (Z.to_nat (num_global_epochs s)) m (np_random w)
    = Some m'.
Proof.
  intros Hwf Hfresh Havg Hord Hk Hfair.
  destruct (train_federated_returns d s Hwf m w)
    as (m' & w' & evs & Hrun & _ & Hrt & Hch & _); [done..|].
  exists m', w'. split; [done|].
  by apply (rounds_trace_result d s _ Hord 0 m m' evs).
Qed.

Lemma result_does_not_depend_on_schedule_witness :
  let d := Demo.dataset in
  let s := Demo.settings 2 in
  let w := Demo.boot 1 Demo.sched in
  exists m' w',
    train_federated (Ext := Demo.two) 1%Q d s w = Returned m' w' /\
    rounds_result (Ext := Demo.two) d s (Z.to_nat (num_global_epochs s))
                  1%Q (np_random w)
    = Some m'.
Proof.
  intros d s w.
  apply (result_does_not_depend_on_schedule (Laws := demo_laws 2) d s 1%Q w).
  - apply demo_wf.
  - apply demo_fresh.
  - apply demo_averaging_total.
  - apply demo_order_insensitive.
  - simpl. lia.
  - apply demo_fair.
Defined.

(** * Properties of [test] and [train_server] *)

Section LoopFacts.
Context `{Tor : Torch}.
Local Open Scope learn_scope.

Lemma agreeing_le (y_pred t : list nat) : agreeing y_pred t <= length t.
Proof.
  unfold agreeing. etrans; [apply length_filter|].
  rewrite length_zip_with. lia.
Qed.

Lemma right_answers_le net_g batches g :
  right_answers net_g batches g
  <= sum_list_with (fun b => length (target b)) batches.
Proof.
  revert g. induction batches as [|b batches IH]; intros g; simpl; [done|].
  destruct (forward net_g b g) as [log_probs g'].
  pose proof (agreeing_le (argmax log_probs) (target b)).
  specialize (IH g'). lia.
Qed.

(** The loop of [test] over the batches never fails and prints nothing. *)
Lemma test_batches net_g batches :
  forall test_loss correct c,
    exists c',
      each batches (test_batch net_g) (test_loss, correct) c
      = Finished (foldl float_add test_loss
                        (batch_losses net_g batches (generator c)),
                  correct + right_answers net_g batches (generator c)) c' /\
      stdout c' = stdout c.
Proof.
  induction batches as [|b batches IH]; intros test_loss correct c.
  - exists c. simpl. unfold pure. by rewrite Nat.add_0_r.
  - cbn [each right_answers batch_losses]. unfold and_then at 1.
    unfold test_batch, and_then at 1. unfold with_generator at 1.
    destruct (forward net_g b (generator c)) as [log_probs g'].
    unfold pure at 1.
    destruct (IH (float_add test_loss (cross_entropy log_probs (target b)))
                 (correct + agreeing (argmax log_probs) (target b))
                 {| generator := g'; stdout := stdout c |})
      as (c' & Hrun & Hout).
    exists c'. cbn [generator] in Hrun.
    split; [|done]. etrans; [exact Hrun|]. cbn [foldl]. do 2 f_equal. lia.
Qed.

Lemma progress_lines_S k n :
  progress_lines k (S n)
  = (if decide (k mod 50 = 0) then 1 else 0) + progress_lines (S k) n.
Proof.
  unfold progress_lines. cbn [seq]. rewrite filter_cons.
  by destruct (decide (k mod 50 = 0)).
Qed.


(** The loop of [train_server] over the batches of an epoch, from batch
    number [k] on. *)
Lemma train_batches settings dataset_iter i_epoch batches :
  0 < len_loader dataset_iter ->
  forall k model batch_loss c,
    exists losses lines c',
      each (imap (fun j b => (k + j, b)) batches)
           (train_batch settings dataset_iter i_epoch) (model, batch_loss) c
      = Finished ((pass settings batches (model, generator c)).1,
                  batch_loss ++ losses) c' /\
      generator c' = (pass settings batches (model, generator c)).2 /\
      length losses = length batches /\
      stdout c' = stdout c ++ lines /\
      Forall (fun l => is_progress l = true) lines /\
      length lines = progress_lines k (length batches).
Proof.
  intros Hpos. induction batches as [|b batches IH];
    intros k model batch_loss c.
  - exists [], [], c. rewrite !app_nil_r. by split_and!.
  - rewrite imap_cons. cbn [each]. unfold and_then at 1.
    unfold train_batch at 1. rewrite Nat.add_0_r.
    unfold and_then at 1. unfold with_generator at 1.
    cbn [pass foldl fst snd].
    destruct (sgd_step (learning_rate settings) (device settings) b model
                       (generator c)) as [[model1 loss] g1] eqn:Hstep.
    set (c1 := {| generator := g1; stdout := stdout c |}).
    assert (exists lines1 c2,
      (if decide (k mod 50 = 0) then
         let* pct :=
           divide (float_mul (float_of_Z 100) (float_of_Z (Z.of_nat k)))
                  (len_loader dataset_iter) in
         print (LineTrainEpoch i_epoch (k * len_data b)
                  (len_loader_dataset dataset_iter) pct loss)
       else pure tt) c1 = Finished tt c2 /\
      generator c2 = g1 /\ stdout c2 = stdout c ++ lines1 /\
      Forall (fun l => is_progress l = true) lines1 /\
      length lines1 = if decide (k mod 50 = 0) then 1 else 0)
      as (lines1 & c2 & Hprint & Hg2 & Hout2 & Hall1 & Hlen1).
    { destruct (decide (k mod 50 = 0)).
      - unfold and_then, divide. rewrite decide_False by lia.
        unfold pure, print. eexists [_], _. split_and!; try done.
        by apply Forall_singleton.
      - exists [], c1. rewrite app_nil_r. by split_and!. }
    unfold and_then at 1. rewrite Hprint. unfold pure at 1.
    destruct (IH (S k) model1 (batch_loss ++ [loss]) c2)
      as (losses & lines & c' & Hrun & Hg & Hlen & Hout & Hall & Hcount).
    rewrite (imap_ext _ (fun j b => (S k + j, b)))
      by (intros; unfold compose; f_equal; lia).
    exists (loss :: losses), (lines1 ++ lines), c'.
    rewrite Hg2 in Hrun, Hg. unfold pass in Hrun, Hg.
    split_and!.
    + rewrite Hrun. by rewrite <- app_assoc.
    + done.
    + simpl. lia.
    + by rewrite Hout, Hout2, app_assoc.
    + by apply Forall_app.
    + rewrite length_app, Hlen1, Hcount. cbn [length].
      by rewrite progress_lines_S.
Qed.

End LoopFacts.

Section ServerFacts.
Context `{Laws : TorchLaws}.
Local Open Scope learn_scope.

Lemma is_progress_not_loss lines :
  Forall (fun l => is_progress l = true) lines ->
  filter (fun l => is_loss l = true) lines = [] /\
  filter (fun l => is_progress l = true) lines = lines.
Proof.
  induction 1 as [|l lines Hl _ [IH1 IH2]]; [done|].
  rewrite !filter_cons, IH1, IH2.
  by destruct l; try discriminate Hl.
Qed.

(** One epoch of [train_server]. *)
Lemma train_epoch_finishes settings dataset_iter i_epoch model list_loss c :
  0 < len_loader dataset_iter ->
  exists loss_avg lines c',
    train_epoch settings dataset_iter i_epoch (model, list_loss) c
    = Finished ((passes settings dataset_iter 1 (model, generator c)).1,
                list_loss ++ [loss_avg]) c' /\
    generator c' = (passes settings dataset_iter 1 (model, generator c)).2 /\
    stdout c' = stdout c ++ lines ++ [LineTrainLoss loss_avg] /\
    Forall (fun l => is_progress l = true) lines /\
    length lines = progress_lines 0 (len_loader dataset_iter).
Proof.
  intros Hpos. unfold train_epoch. unfold and_then at 1.
  unfold with_generator at 1. cbn [passes fst snd].
  pose proof (iterate_length dataset_iter (generator c)) as Hnb.
  destruct (iterate dataset_iter (generator c)) as [batches g1].
  cbn [fst] in Hnb.
  set (c1 := {| generator := g1; stdout := stdout c |}).
  destruct (train_batches settings dataset_iter i_epoch batches Hpos
              0 model [] c1)
    as (losses & lines & c2 & Hrun & Hg & Hlen & Hout & Hall & Hcount).
  unfold enumerate. unfold and_then at 1.
  rewrite (imap_ext _ (fun j b => (0 + j, b))) by done.
  rewrite Hrun. cbn [app].
  unfold and_then at 1. unfold divide.
  rewrite decide_False by lia. unfold pure at 1.
  unfold and_then, print, pure.
  eexists _, lines, _. split_and!; try done.
  - cbn [stdout]. by rewrite Hout, <- app_assoc.
  - by rewrite Hcount, Hnb.
Qed.

(** The loop of [train_server] over the epochs. *)
Lemma train_epochs_finish settings dataset_iter r :
  0 < len_loader dataset_iter ->
  forall i_epoch model list_loss c,
    exists list_loss' out c',
      each (seq i_epoch r) (train_epoch settings dataset_iter)
           (model, list_loss) c
      = Finished ((passes settings dataset_iter r (model, generator c)).1,
                  list_loss') c' /\
      generator c' = (passes settings dataset_iter r (model, generator c)).2 /\
      stdout c' = stdout c ++ out /\
      length (filter (fun l => is_loss l = true) out) = r /\
      length (filter (fun l => is_progress l = true) out)
      = r * progress_lines 0 (len_loader dataset_iter) /\
      length out = r * progress_lines 0 (len_loader dataset_iter) + r.
Proof.
  intros Hpos. induction r as [|r IH]; intros i_epoch model list_loss c.
  - exists list_loss, [], c. rewrite app_nil_r. by split_and!.
  - cbn [seq each]. unfold and_then at 1.
    destruct (train_epoch_finishes settings dataset_iter i_epoch model
                list_loss c Hpos)
      as (loss_avg & lines & c1 & Hrun1 & Hg1 & Hout1 & Hall1 & Hcount1).
    rewrite Hrun1.
    destruct (IH (S i_epoch)
                 (passes settings dataset_iter 1 (model, generator c)).1
                 (list_loss ++ [loss_avg]) c1)
      as (list_loss' & out & c' & Hrun & Hg & Hout & Hloss & Hprog & Hlen).
    assert (passes settings dataset_iter (S r) (model, generator c)
            = passes settings dataset_iter r
                ((passes settings dataset_iter 1 (model, generator c)).1,
                 generator c1)) as Hpasses.
    { rewrite Hg1. cbn [passes fst snd].
      destruct (iterate dataset_iter (generator c)) as [batches g].
      by destruct (pass settings batches (model, g)). }
    exists list_loss', (lines ++ [LineTrainLoss loss_avg] ++ out), c'.
    destruct (is_progress_not_loss lines Hall1) as [Hnl Hpl].
    split_and!.
    + by rewrite Hrun, Hpasses.
    + by rewrite Hg, Hpasses.
    + by rewrite Hout, Hout1, <- !app_assoc.
    + rewrite !filter_app, Hnl, !length_app. simpl. lia.
    + rewrite !filter_app, Hpl, !length_app. simpl. lia.
    + rewrite !length_app. simpl. lia.
Qed.

End ServerFacts.

(** ** The concrete instance *)

Section DemoServerFacts.
Import Demo DemoServer.
#[local] Existing Instance two.

#[export] Instance demo_torch_laws : TorchLaws (Tor := torch).
Proof.
  split.
  - intros [bs sh] g. simpl. destruct sh; [apply length_reverse|done].
  - intros ds B L. simpl. unfold loader.
    destruct ds as [|x ds]; simpl; [done|].
    case_bool_decide; [done|]. intros [= <-]. simpl. lia.
Qed.

End DemoServerFacts.

(** ** [test] *)

(** X13. On a loader whose dataset has no sample, [test] raises
    [ZeroDivisionError] at line 32, where it divides the accumulated loss
    by [len(data_loader.dataset)]; it has printed nothing and returns no
    result. *)
Theorem test_fails_on_empty_dataset `{Tor : Torch} (net_g : Model)
    (data_loader : DataLoader) (c : Session) :
  len_loader_dataset data_loader = 0 ->
  exists c',
    test net_g data_loader c = Failed ZeroDivisionError c' /\
    stdout c' = stdout c.
Proof.
  intros Hempty. unfold test, and_then at 1. unfold with_generator at 1.
  destruct (iterate data_loader (generator c)) as [batches g].
  destruct (test_batches net_g batches (float_of_Z 0) 0
              {| generator := g; stdout := stdout c |}) as (c' & Hrun & Hout).
  unfold and_then at 1. rewrite Hrun.
  unfold and_then at 1. unfold divide. rewrite decide_True by done.
  by exists c'.
Qed.


(** X14. On a loader whose dataset is not empty, [test] returns.  The count
    it returns is the number of samples, over all the batches of the pass,
    for which the class the network scores highest is the label; it is at
    most the number of labels the pass yields.  The loss it returns is the
    sum of the losses of the batches divided by the number of samples of
    the dataset, not by the number of batches.  It prints one line, with
    the two values it returns. *)
Theorem test_counts_right_answers `{Tor : Torch} (net_g : Model)
    (data_loader : DataLoader) (c : Session) :
  0 < len_loader_dataset data_loader ->
  let batches := (iterate data_loader (generator c)).1 in
  let g := (iterate data_loader (generator c)).2 in
  let total := len_loader_dataset data_loader in
  let correct := right_answers net_g batches g in
  let test_loss :=
    float_div (sum (batch_losses net_g batches g))
              (float_of_Z (Z.of_nat total)) in
  correct <= sum_list_with (fun b => length (target b)) batches /\
  exists c',
    test net_g data_loader c = Finished (correct, test_loss) c' /\
    stdout c'
    = stdout c ++ [LineTest test_loss correct total (percent correct total)].
Proof.
  intros Hpos batches g total correct test_loss. split.
  - apply right_answers_le.
  - subst correct test_loss batches g.
    unfold test, and_then at 1. unfold with_generator at 1.
    destruct (iterate data_loader (generator c)) as [batches g].
    cbn [fst snd].
    destruct (test_batches net_g batches (float_of_Z 0) 0
                {| generator := g; stdout := stdout c |})
      as (c' & Hrun & Hout).
    cbn [generator] in Hrun.
    unfold and_then at 1. rewrite Hrun.
    unfold and_then at 1. unfold divide. fold total.
    rewrite decide_False by lia. unfold pure at 1.
    unfold and_then, print, pure. eexists. split; [reflexivity|].
    cbn [stdout]. by rewrite Hout.
Qed.


(** ** [train_server] *)

(** X15. When the constructor of its loader or of its optimizer raises,
    [train_server] raises that [ValueError], with nothing trained or
    printed.  And neither of its two divisions, by [len(dataset_iter)] in
    the progress line and by [len(batch_loss)] in the mean, ever divides
    by zero: whatever the dataset and the settings, [train_server] does not
    raise [ZeroDivisionError]. *)
Theorem train_server_never_divides_by_zero `{Laws : TorchLaws}
    (model : Model) (dataset : Samples) (settings : Settings) (c : Session) :
  (forall msg,
     new_DataLoader dataset (num_global_batch settings) true = inl msg ->
     train_server model dataset settings c = Failed (ValueError msg) c) /\
  (forall dataset_iter msg,
     new_DataLoader dataset (num_global_batch settings) true
     = inr dataset_iter ->
     SGD_rejects model (learning_rate settings) = Some msg ->
     train_server model dataset settings c = Failed (ValueError msg) c) /\
  (forall c', train_server model dataset settings c
              <> Failed ZeroDivisionError c').
Proof.
  unfold train_server. split_and!.
  - intros msg Hloader. unfold and_then at 1. by rewrite Hloader.
  - intros dataset_iter msg Hloader Hsgd. unfold and_then at 1.
    rewrite Hloader. unfold pure at 1. unfold and_then at 1.
    by rewrite Hsgd.
  - intros c'. unfold and_then at 1.
    destruct (new_DataLoader dataset (num_global_batch settings) true)
      as [msg|dataset_iter] eqn:Hloader; [done|].
    unfold pure at 1. unfold and_then at 1.
    destruct (SGD_rejects model (learning_rate settings)) as [msg|]; [done|].
    unfold pure at 1. unfold and_then at 1.
    destruct (train_epochs_finish settings dataset_iter
                (Z.to_nat (num_global_epochs settings))
                (shuffling_nonempty _ _ _ Hloader) 0 model [] c)
      as (list_loss & out & c1 & Hrun & _).
    unfold range. by rewrite Hrun.
Qed.


(** X16. Once its loader and its optimizer are constructed, [train_server]
    returns, and the model it returns has been through one step of the
    optimizer for every batch of every epoch, in the order the loader
    yields the batches, each epoch on a new pass over the loader; with no
    epoch to run it returns the model it was given. *)
Theorem train_server_steps_through_every_batch `{Laws : TorchLaws}
    (model : Model) (dataset : Samples) (settings : Settings)
    (dataset_iter : DataLoader) (c : Session) :
  new_DataLoader dataset (num_global_batch settings) true = inr dataset_iter ->
  SGD_rejects model (learning_rate settings) = None ->
  let r := Z.to_nat (num_global_epochs settings) in
  exists c',
    train_server model dataset settings c
    = Finished (passes settings dataset_iter r (model, generator c)).1 c' /\
    generator c' = (passes settings dataset_iter r (model, generator c)).2 /\
    (r = 0 -> c' = c /\
              (passes settings dataset_iter r (model, generator c)).1 = model).
Proof.
  intros Hloader Hsgd r.
  destruct (train_epochs_finish settings dataset_iter r
              (shuffling_nonempty _ _ _ Hloader) 0 model [] c)
    as (list_loss & out & c' & Hrun & Hg & Hout & _).
  exists c'. split_and!; [|done|].
  - unfold train_server, and_then at 1. rewrite Hloader.
    unfold pure at 1. unfold and_then at 1. rewrite Hsgd.
    unfold pure at 1. unfold and_then at 1. unfold range. fold r.
    by rewrite Hrun.
  - intros Hr. rewrite Hr in Hrun. cbn [seq each passes] in Hrun.
    unfold pure in Hrun. injection Hrun as _ <-. by rewrite Hr.
Qed.



(** ** Witnesses *)

Section ServerWitnesses.
Import Demo DemoServer.
#[local] Existing Instance two.

Lemma test_fails_on_empty_dataset_witness :
  exists c',
    test (Tor := torch) 1%Q ([], false) (session 0)
    = Failed ZeroDivisionError c' /\
    stdout c' = stdout (session 0).
Proof.
  apply (test_fails_on_empty_dataset (Tor := torch) 1%Q ([], false)
           (session 0)).
  reflexivity.
Defined.

Lemma test_counts_right_answers_witness :
  let net_g : Model := 1%Q in
  let data_loader : DataLoader :=
    ([[0; 1; 2]; [3; 4]], false) in
  let c := session 0 in
  let batches := (iterate data_loader (generator c)).1 in
  let g := (iterate data_loader (generator c)).2 in
  let total := len_loader_dataset data_loader in
  let correct := right_answers net_g batches g in
  let test_loss :=
    float_div (sum (batch_losses net_g batches g))
              (float_of_Z (Z.of_nat total)) in
  correct <= sum_list_with (fun b => length (target b)) batches /\
  exists c',
    test net_g data_loader c = Finished (correct, test_loss) c' /\
    stdout c'
    = stdout c ++ [LineTest test_loss correct total (percent correct total)].
Proof.
  intros net_g data_loader c.
  apply (test_counts_right_answers (Tor := torch) net_g data_loader c).
  simpl. lia.
Defined.

Lemma train_server_never_divides_by_zero_witness :
  train_server (Tor := torch) 1%Q [] (settings 2) (session 0)
  = Failed (ValueError "num_samples should be a positive integer value")
      (session 0).
Proof.
  apply (proj1 (train_server_never_divides_by_zero (Laws := demo_torch_laws)
                  1%Q [] (settings 2) (session 0))).
  reflexivity.
Defined.

Lemma train_server_steps_through_every_batch_witness :
  let settings := settings 2 in
  let model : Model := 1%Q in
  let dataset : Samples := seq 0 7 in
  let dataset_iter : DataLoader :=
    ([[0; 1; 2; 3]; [4; 5; 6]], true) in
  let c := session 0 in
  let r := Z.to_nat (num_global_epochs settings) in
  exists c',
    train_server model dataset settings c
    = Finished (passes settings dataset_iter r (model, generator c)).1 c' /\
    generator c' = (passes settings dataset_iter r (model, generator c)).2 /\
    (r = 0 -> c' = c /\
              (passes settings dataset_iter r (model, generator c)).1 = model).
Proof.
  intros settings model dataset dataset_iter c.
  apply (train_server_steps_through_every_batch (Laws := demo_torch_laws)
           model dataset settings dataset_iter c).
  - reflexivity.
  - reflexivity.
Defined.


End ServerWitnesses.
